(** * File Forge: the conversion core ([src/lib/convert-core.ts])

    A shallow embedding of the tool registry, the format classifier, the
    converter resolver, the output path builder, the conversion invoker
    and the clipboard file resolver, followed by the properties stated
    about them.

    - JavaScript strings are [string]: sequences of code units,
      restricted to the code units below 256 (the Latin-1 range).
    - Asynchronous, effectful functions live in a state and error monad
      [M] over an explicit environment [Env]: child processes, the file
      system, the clipboard, [fileURLToPath] and the UUID source are
      functions of the environment; the module-level [toolCache], the
      processes started and the tokens drawn are the state.
    - [node:path] is an interface ([PathOps]); its POSIX implementation
      is modelled on path segments.
    - The convert form ([ConvertForm] in [src/convert-file.tsx]) is
      modelled by its [sortedFormats] memo and its [handleSubmit]; what
      the handler does to the host is a log of events on top of the
      state of the core.
    - [formatBytes] works on floating point numbers and is left out. *)

From Stdlib Require Import Bool Arith NArith Lia List.
From Stdlib Require Import Ascii String.
From Stdlib Require Import Sorting.Sorted Sorting.Permutation Sorting.Mergesort.
From Stdlib Require Import Orders.
Import ListNotations.

Local Open Scope string_scope.
Local Open Scope bool_scope.

(** ** JavaScript string primitives *)

Module JSString.

(** [WhiteSpace] and [LineTerminator] code units below 256: TAB, LF, VT,
    FF, CR, SP and NBSP.  These are what [String.prototype.trim] and the
    regular expression class [\s] remove or match. *)
Definition is_ws (c : ascii) : bool :=
  let n := nat_of_ascii c in
  (((9 <=? n) && (n <=? 13)) || (n =? 32) || (n =? 160))%nat.

(** [String.prototype.toLowerCase] on one code unit below 256: the
    letters A-Z and the Latin-1 capitals U+00C0-U+00DE (but not the
    multiplication sign U+00D7) move up by 32. *)
Definition lower (c : ascii) : ascii :=
  let n := nat_of_ascii c in
  if (((65 <=? n) && (n <=? 90))
      || ((192 <=? n) && (n <=? 222) && negb (n =? 215)))%nat
  then ascii_of_nat (n + 32) else c.

Fixpoint toLowerCase (s : string) : string :=
  match s with
  | EmptyString => EmptyString
  | String c r => String (lower c) (toLowerCase r)
  end.

Fixpoint trimStart (s : string) : string :=
  match s with
  | EmptyString => EmptyString
  | String c r => if is_ws c then trimStart r else s
  end.

Fixpoint trimEnd (s : string) : string :=
  match s with
  | EmptyString => EmptyString
  | String c r =>
      match trimEnd r with
      | EmptyString => if is_ws c then EmptyString else String c EmptyString
      | t => String c t
      end
  end.

Definition trim (s : string) : string := trimEnd (trimStart s).

(** [s.replace(/^\./, empty)]: drops one leading full stop. *)
Definition stripLeadingDot (s : string) : string :=
  match s with
  | String "."%char r => r
  | _ => s
  end.

(** [s.replace(/\*$/, empty)]: drops one trailing asterisk. *)
Fixpoint stripTrailingStar (s : string) : string :=
  match s with
  | EmptyString => EmptyString
  | String c EmptyString => if Ascii.eqb c "*" then EmptyString else s
  | String c r => String c (stripTrailingStar r)
  end.

(** First code unit, when there is one. *)
Definition head (s : string) : option ascii :=
  match s with
  | EmptyString => None
  | String c _ => Some c
  end.

Fixpoint last (s : string) : option ascii :=
  match s with
  | EmptyString => None
  | String c EmptyString => Some c
  | String _ r => last r
  end.

(** [s.startsWith(p)] *)
Fixpoint startsWith (p s : string) : bool :=
  match p with
  | EmptyString => true
  | String a p' =>
      match s with
      | String b s' => Ascii.eqb a b && startsWith p' s'
      | EmptyString => false
      end
  end.

Arguments startsWith p s : simpl never.

(** [s.includes(c)] for a one-unit needle. *)
Fixpoint includesChar (c : ascii) (s : string) : bool :=
  match s with
  | EmptyString => false
  | String d r => Ascii.eqb c d || includesChar c r
  end.

(** Truthiness of a string: only the empty string is falsy. *)
Definition truthy (s : string) : bool :=
  match s with
  | EmptyString => false
  | _ => true
  end.

End JSString.

Import JSString.

(** ** Extension normalization *)

(** [normalizeExt]: [trim()], then [replace(/^\./, empty)], then
    [toLowerCase()]. *)
Definition normalizeExt (value : string) : string :=
  toLowerCase (stripLeadingDot (trim value)).

(** A string that [trim] and the removal of a leading dot both leave alone at
    its front: it neither starts with white space nor with a dot. *)
Definition cleanFront (s : string) : bool :=
  match head s with
  | Some c => negb (is_ws c) && negb (Ascii.eqb c ".")
  | None => true
  end.

(** No white space at the end. *)
Definition cleanEnd (s : string) : bool :=
  match last s with
  | Some c => negb (is_ws c)
  | None => true
  end.

(** ** More string and array primitives *)

(** [s.split(c)] for a one-unit separator [c]: never the empty list. *)
Fixpoint splitOn (sep : ascii) (s : string) : list string :=
  match s with
  | EmptyString => [EmptyString]
  | String c r =>
      if Ascii.eqb c sep then EmptyString :: splitOn sep r
      else match splitOn sep r with
           | l :: ls => String c l :: ls
           | [] => [String c EmptyString]
           end
  end.

(** [s.split(/\s+/)]: the flag says whether the scan is inside a run of
    white space, which separates only once. *)
Fixpoint splitWsFrom (inRun : bool) (s : string) : list string :=
  match s with
  | EmptyString => [EmptyString]
  | String c r =>
      if is_ws c then
        if inRun then splitWsFrom true r else EmptyString :: splitWsFrom true r
      else match splitWsFrom false r with
           | l :: ls => String c l :: ls
           | [] => [String c EmptyString]
           end
  end.

Definition splitWs (s : string) : list string := splitWsFrom false s.

Definition LF : ascii := ascii_of_nat 10.
Definition CR : ascii := ascii_of_nat 13.

(** [s.split(/\r?\n/)] *)
Fixpoint splitLines (s : string) : list string :=
  let push c r :=
    match splitLines r with
    | l :: ls => String c l :: ls
    | [] => [String c EmptyString]
    end in
  match s with
  | EmptyString => [EmptyString]
  | String c r =>
      if Ascii.eqb c LF then EmptyString :: splitLines r
      else if Ascii.eqb c CR then
        match r with
        | String d r' =>
            if Ascii.eqb d LF then EmptyString :: splitLines r' else push c r
        | EmptyString => push c r
        end
      else push c r
  end.

(** The longest prefix matching [\S+] (possibly empty) and what follows. *)
Fixpoint spanNonWs (s : string) : string * string :=
  match s with
  | EmptyString => (EmptyString, EmptyString)
  | String c r =>
      if is_ws c then (EmptyString, s)
      else let (t, rest) := spanNonWs r in (String c t, rest)
  end.

(** [xs.join(sep)] *)
Definition join (sep : string) (xs : list string) : string := String.concat sep xs.

(** [s.replace(/'/g, "''")] *)
Fixpoint doubleQuotes (s : string) : string :=
  match s with
  | EmptyString => EmptyString
  | String c r =>
      if Ascii.eqb c "'" then String c (String c (doubleQuotes r))
      else String c (doubleQuotes r)
  end.

(** [xs.includes(x)] and [set.has(x)] on strings. *)
Definition includes (x : string) (xs : list string) : bool :=
  existsb (String.eqb x) xs.

(** [Array.from(new Set(xs))]: insertion order, first occurrence kept. *)
Fixpoint uniq (xs : list string) : list string :=
  match xs with
  | [] => []
  | x :: r => x :: filter (fun y => negb (String.eqb y x)) (uniq r)
  end.

(** The default order of [Array.prototype.sort]: code units, compared
    lexicographically. *)
Module CodeUnitOrder <: TotalLeBool.
Definition t := string.
Definition leb := String.leb.
Theorem leb_total (a b : t) : leb a b = true \/ leb b a = true.
Proof. apply String.leb_total. Qed.
End CodeUnitOrder.

Module CodeUnitSort := Sort CodeUnitOrder.

(** ** Data model *)

Inductive ConverterKind := Magick | Ffmpeg | Pandoc | Libreoffice.
Inductive OutputDestination := DestClipboard | DestSave | DestBoth.
Inductive FileCategory := Image | Audio | Video | Doc | Unknown.

Record ToolFormats := mkTool {
  bin : string;
  input : list string;
  output : list string
}.

Record Preferences := mkPrefs {
  magickPath : option string;
  ffmpegPath : option string;
  pandocPath : option string;
  libreofficePath : option string
}.

Record ConverterDecision := mkDecision {
  kind : ConverterKind;
  tool : ToolFormats;
  category : FileCategory;
  defaultOutput : string
}.


(** ** The environment and the effects *)

(** What a finished child process hands back, and the error object of a
    failed one ([message], and [stdout]/[stderr] when it carries them). *)
Record ExecOutput := mkOut { stdout : string; stderr : string }.

Record JSError := mkErr {
  message : string;
  errStdout : option string;
  errStderr : option string
}.

(** [new Error(msg)] *)
Definition newError (msg : string) : JSError := mkErr msg None None.

Record Dirent := mkDirent { name : string; isDirectory : bool }.

(** [Clipboard.read()]: [text] is always a string, [file] is optional. *)
Record ReadContent := mkContent { text : string; file : option string }.

(** The [node:path] interface; [process.platform] picks the POSIX or the
    Windows implementation. *)
Class PathOps := {
  path_basename : string -> string -> string;
  path_extname : string -> string;
  path_dirname : string -> string;
  path_join : list string -> string
}.

(** Everything the module reads from outside itself.  A child process is
    a function of its command line; the file system is a snapshot. *)
Record Env := mkEnv {
  isWindows : bool;
  preferences : Preferences;
  execFile : string -> list string -> JSError + ExecOutput;
  fsAccess : string -> bool;
  fsReaddir : string -> option (list Dirent);
  envProgramFiles : option string;
  envProgramFilesX86 : option string;
  osTmpdir : string;
  uuidSource : nat -> string;
  clipboardRead : ReadContent;
  fileURLToPath : string -> option string
}.

(** [toolCache]: per kind, [None] is [undefined] (never probed),
    [Some None] is [null] (probed, absent). *)
Record ToolCache := mkCache {
  cacheMagick : option (option ToolFormats);
  cacheFfmpeg : option (option ToolFormats);
  cachePandoc : option (option ToolFormats);
  cacheLibreoffice : option (option ToolFormats)
}.

Definition emptyCache : ToolCache := mkCache None None None None.

(** The mutable state: the module-level cache, the child processes
    started so far (most recent first) and the number of UUIDs drawn. *)
Record State := mkState {
  toolCache : ToolCache;
  spawned : list (string * list string);
  uuidsDrawn : nat
}.

Definition initialState : State := mkState emptyCache [] 0.

Inductive Outcome (A : Type) :=
| Returned (a : A)
| Thrown (e : JSError).

Arguments Returned {A} a.
Arguments Thrown {A} e.

Definition M (A : Type) : Type := Env -> State -> Outcome A * State.

Definition ret {A} (a : A) : M A := fun _ s => (Returned a, s).

Definition bind {A B} (m : M A) (k : A -> M B) : M B :=
  fun e s =>
    match m e s with
    | (Returned a, s') => k a e s'
    | (Thrown err, s') => (Thrown err, s')
    end.

Definition throw {A} (err : JSError) : M A := fun _ s => (Thrown err, s).

(** [try { m } catch (err) { h err }] *)
Definition tryCatch {A} (m : M A) (h : JSError -> M A) : M A :=
  fun e s =>
    match m e s with
    | (Returned a, s') => (Returned a, s')
    | (Thrown err, s') => h err e s'
    end.

Definition asks {A} (f : Env -> A) : M A := fun e s => (Returned (f e), s).
Definition gets {A} (f : State -> A) : M A := fun _ s => (Returned (f s), s).
Definition modify (f : State -> State) : M unit := fun _ s => (Returned tt, f s).

Declare Scope monad_scope.
Delimit Scope monad_scope with monad.
Notation "x <- m ;; k" := (bind m (fun x => k))
  (at level 61, m at next level, right associativity) : monad_scope.
Notation "m ;;; k" := (bind m (fun _ => k))
  (at level 61, right associativity) : monad_scope.
Local Open Scope monad_scope.

(** [promisify(execFile)(cmd, args, opts)]: starts one child process. *)
Definition execFileAsync (cmd : string) (args : list string) : M ExecOutput :=
  fun e s =>
    let s' := mkState (toolCache s) ((cmd, args) :: spawned s) (uuidsDrawn s) in
    match execFile e cmd args with
    | inr out => (Returned out, s')
    | inl err => (Thrown err, s')
    end.

(** [fs.access(p)]: resolves when [p] is there, rejects otherwise. *)
Definition access (p : string) : M unit :=
  fun e s =>
    if fsAccess e p then (Returned tt, s)
    else (Thrown (newError "ENOENT: no such file or directory"), s).

(** [fs.readdir(root, { withFileTypes: true })] *)
Definition readdir (root : string) : M (list Dirent) :=
  fun e s =>
    match fsReaddir e root with
    | Some entries => (Returned entries, s)
    | None => (Thrown (newError "ENOENT: no such file or directory"), s)
    end.

(** [randomUUID()]: the next token of the source. *)
Definition randomUUID : M string :=
  fun e s =>
    (Returned (uuidSource e (uuidsDrawn s)),
     mkState (toolCache s) (spawned s) (S (uuidsDrawn s))).

Definition setCache (f : ToolCache -> ToolCache) : M unit :=
  modify (fun s => mkState (f (toolCache s)) (spawned s) (uuidsDrawn s)).

(** Number of child processes a computation starts from state [s]. *)
Definition spawnCount {A} (m : M A) (e : Env) (s : State) : nat :=
  List.length (spawned (snd (m e s))) - List.length (spawned s).
(** ** Fixed tables *)

Definition imagePreferredExts : list string :=
  ["png"; "jpg"; "jpeg"; "gif"; "webp"; "bmp"; "tif"; "tiff"; "heic"; "heif";
   "avif"; "svg"; "ico"; "psd"; "tga"].

Definition audioExts : list string :=
  ["aac"; "aiff"; "alac"; "flac"; "m4a"; "mp3"; "ogg"; "opus"; "wav"; "wma"].

Definition videoExts : list string :=
  ["avi"; "mkv"; "mov"; "mp4"; "m4v"; "webm"; "wmv"; "flv"].

Definition libreOfficeInput : list string :=
  ["doc"; "docx"; "xls"; "xlsx"; "ppt"; "pptx"; "odt"; "ods"; "odp"; "rtf";
   "txt"; "csv"; "html"; "htm"].

Definition libreOfficeOutput : list string :=
  ["pdf"; "docx"; "xlsx"; "pptx"; "odt"; "ods"; "odp"; "rtf"; "txt"; "html"].

(** [values.filter(Boolean)], then a [Set], then [sort()]. *)
Definition uniqueSorted (values : list string) : list string :=
  CodeUnitSort.sort (uniq (filter truthy values)).

Definition normalizePref (value : option string) : string :=
  trim (match value with Some v => v | None => EmptyString end).

Definition isImageExt (ext : string) : bool := includes ext imagePreferredExts.

(** ** Format listings of the three tools that are asked for them *)

(** One line of [magick -list format]: the format name and the mode
    column.  The anchored pattern
    [/^(\S+)\s+\S+\s+([r-][w-][+-])\s+/i] is tried first, then the line is
    cut at white space and the first and third fields are taken. *)
Definition isModeR (c : ascii) : bool :=
  Ascii.eqb c "r" || Ascii.eqb c "R" || Ascii.eqb c "-".
Definition isModeW (c : ascii) : bool :=
  Ascii.eqb c "w" || Ascii.eqb c "W" || Ascii.eqb c "-".
Definition isModeP (c : ascii) : bool :=
  Ascii.eqb c "+" || Ascii.eqb c "-".

Definition startsWithWs (s : string) : bool :=
  match s with
  | String c _ => is_ws c
  | EmptyString => false
  end.

Definition magickPattern (trimmed : string) : option (string * string) :=
  let (format, r1) := spanNonWs trimmed in
  if negb (truthy format) || negb (startsWithWs r1) then None else
  let (field2, r2) := spanNonWs (trimStart r1) in
  if negb (truthy field2) || negb (startsWithWs r2) then None else
  match trimStart r2 with
  | String a (String b (String c r3)) =>
      if isModeR a && isModeW b && isModeP c && startsWithWs r3
      then Some (format, String a (String b (String c EmptyString)))
      else None
  | _ => None
  end.

Definition magickFields (trimmed : string) : string * string :=
  match magickPattern trimmed with
  | Some fm => fm
  | None =>
      match splitWs trimmed with
      | p0 :: _ :: p2 :: _ => (p0, p2)
      | _ => (EmptyString, EmptyString)
      end
  end.

(** The loop body of [loadMagickFormats]: what one line adds to [input]
    and to [output]. *)
Definition magickLine (line : string) : list string * list string :=
  let trimmed := trim line in
  if negb (truthy trimmed) || startsWith "Format" trimmed || startsWith "--" trimmed
  then ([], [])
  else
    let (format, mode) := magickFields trimmed in
    if negb (truthy format) || negb (truthy mode) then ([], [])
    else
      let normalized := normalizeExt (stripTrailingStar format) in
      let modeLower := toLowerCase mode in
      ((if includesChar "r" modeLower then [normalized] else []),
       (if includesChar "w" modeLower then [normalized] else [])).

Definition magickPushed (out : string) : list string * list string :=
  let rows := map magickLine (splitLines out) in
  (List.concat (map fst rows), List.concat (map snd rows)).

(** One line of [ffmpeg -formats], by [/^\s*([D.])([E.])\s+(\S+)/]. *)
Definition ffmpegPattern (line : string) : option (bool * bool * string) :=
  match trimStart line with
  | String d (String m r) =>
      if (Ascii.eqb d "D" || Ascii.eqb d ".") && (Ascii.eqb m "E" || Ascii.eqb m ".")
         && startsWithWs r
      then
        let (names, _) := spanNonWs (trimStart r) in
        if truthy names then Some (Ascii.eqb d "D", Ascii.eqb m "E", names) else None
      else None
  | _ => None
  end.

Definition ffmpegLine (line : string) : list string * list string :=
  match ffmpegPattern line with
  | None => ([], [])
  | Some (demux, mux, names) =>
      let formats := map normalizeExt (splitOn "," names) in
      ((if demux then formats else []), (if mux then formats else []))
  end.

Definition ffmpegPushed (out : string) : list string * list string :=
  let rows := map ffmpegLine (splitLines out) in
  (List.concat (map fst rows), List.concat (map snd rows)).

(** What [pandoc --list-input-formats] (or [-output-]) yields before
    [uniqueSorted]. *)
Definition pandocPushed (out : string) : list string :=
  map normalizeExt (splitWs out).

Local Open Scope monad_scope.

Definition loadMagickFormats (bin : string) : M (list string * list string) :=
  tryCatch
    (out <- execFileAsync bin ["-list"; "format"] ;;
     let (i, o) := magickPushed (stdout out) in
     ret (uniqueSorted i, uniqueSorted o))
    (fun _ => ret ([], [])).

Definition loadFfmpegFormats (bin : string) : M (list string * list string) :=
  tryCatch
    (out <- execFileAsync bin ["-hide_banner"; "-formats"] ;;
     let (i, o) := ffmpegPushed (stdout out) in
     ret (uniqueSorted i, uniqueSorted o))
    (fun _ => ret ([], [])).

(** [Promise.all] starts both listings before either is awaited. *)
Definition loadPandocFormats (bin : string) : M (list string * list string) :=
  tryCatch
    (fun e s =>
       let (r1, s1) := tryCatch (out <- execFileAsync bin ["--list-input-formats"] ;;
                                 ret (inr out))
                                (fun err => ret (inl err)) e s in
       let (r2, s2) := tryCatch (out <- execFileAsync bin ["--list-output-formats"] ;;
                                 ret (inr out))
                                (fun err => ret (inl err)) e s1 in
       match r1, r2 with
       | Returned (inr i), Returned (inr o) =>
           (Returned (uniqueSorted (pandocPushed (stdout i)),
                      uniqueSorted (pandocPushed (stdout o))), s2)
       | Returned (inl err), _ => (Thrown err, s2)
       | _, Returned (inl err) => (Thrown err, s2)
       | Thrown err, _ => (Thrown err, s2)
       | _, Thrown err => (Thrown err, s2)
       end)
    (fun _ => ret ([], [])).

(** ** Tool registry *)

Definition canRun (cmd : string) (args : list string) : M bool :=
  tryCatch (execFileAsync cmd args ;;; ret true) (fun _ => ret false).

Definition resolvePreferred (value : option string) (probeArgs : list string)
  : M (option string) :=
  let preferred := normalizePref value in
  if negb (truthy preferred) then ret None
  else
    ok <- canRun preferred probeArgs ;;
    ret (if ok then Some preferred else None).

Definition findBinary (cmd : string) : M (option string) :=
  locator <- asks (fun e => if isWindows e then "where" else "which") ;;
  tryCatch
    (out <- execFileAsync locator [cmd] ;;
     ret (find (fun line => negb (String.length (trim line) =? 0)%nat)
               (splitLines (stdout out))))
    (fun _ => ret None).

(** The [for ... break] loops over candidate command names. *)
Fixpoint firstFound (candidates : list string) : M (option string) :=
  match candidates with
  | [] => ret None
  | candidate :: rest =>
      resolved <- findBinary candidate ;;
      match resolved with
      | Some _ => ret (Some candidate)
      | None => firstFound rest
      end
  end.

Definition someTruthy (o : option string) : bool :=
  match o with
  | Some s => truthy s
  | None => false
  end.

Section WithPath.

Context `{PathOps}.

Definition getFileExt (filePath : string) : string :=
  normalizeExt (path_extname filePath).

Fixpoint scanEntries (root : string) (entries : list Dirent) : M (option string) :=
  match entries with
  | [] => ret None
  | entry :: rest =>
      if negb (isDirectory entry) then scanEntries root rest
      else if negb (startsWith "imagemagick-" (toLowerCase (name entry)))
      then scanEntries root rest
      else
        let exePath := path_join [root; name entry; "magick.exe"] in
        found <- tryCatch (access exePath ;;; ret true) (fun _ => ret false) ;;
        if (found : bool) then ret (Some exePath) else scanEntries root rest
  end.

Fixpoint scanRoots (roots : list string) : M (option string) :=
  match roots with
  | [] => ret None
  | root :: rest =>
      hit <- tryCatch (entries <- readdir root ;; scanEntries root entries)
                      (fun _ => ret None) ;;
      match hit with
      | Some exePath => ret (Some exePath)
      | None => scanRoots rest
      end
  end.

Definition findMagickOnWindows : M (option string) :=
  win <- asks isWindows ;;
  if negb win then ret None
  else
    pf <- asks envProgramFiles ;;
    pf86 <- asks envProgramFilesX86 ;;
    let roots :=
      flat_map (fun r => match r with
                         | Some s => if truthy s then [s] else []
                         | None => []
                         end) [pf; pf86] in
    scanRoots roots.

Definition ensureMagick : M (option ToolFormats) :=
  cached <- gets (fun s => cacheMagick (toolCache s)) ;;
  match cached with
  | Some t => ret t
  | None =>
      pref <- asks (fun e => magickPath (preferences e)) ;;
      bin0 <- resolvePreferred pref ["-version"] ;;
      bin1 <- (if someTruthy bin0 then ret bin0
               else
                 win <- asks isWindows ;;
                 found <- firstFound (if win then ["magick"] else ["magick"; "convert"]) ;;
                 ret (match found with Some c => Some c | None => bin0 end)) ;;
      bin2 <- (if someTruthy bin1 then ret bin1 else findMagickOnWindows) ;;
      match bin2 with
      | Some b =>
          if truthy b then
            formats <- loadMagickFormats b ;;
            let t := mkTool b (fst formats) (snd formats) in
            setCache (fun c => mkCache (Some (Some t)) (cacheFfmpeg c)
                                       (cachePandoc c) (cacheLibreoffice c)) ;;;
            ret (Some t)
          else
            setCache (fun c => mkCache (Some None) (cacheFfmpeg c)
                                       (cachePandoc c) (cacheLibreoffice c)) ;;;
            ret None
      | None =>
          setCache (fun c => mkCache (Some None) (cacheFfmpeg c)
                                     (cachePandoc c) (cacheLibreoffice c)) ;;;
          ret None
      end
  end.

Definition ensureFfmpeg : M (option ToolFormats) :=
  cached <- gets (fun s => cacheFfmpeg (toolCache s)) ;;
  match cached with
  | Some t => ret t
  | None =>
      pref <- asks (fun e => ffmpegPath (preferences e)) ;;
      preferred <- resolvePreferred pref ["-version"] ;;
      bin <- match preferred with
             | Some p => ret (Some p)
             | None =>
                 found <- findBinary "ffmpeg" ;;
                 ret (if someTruthy found then Some "ffmpeg" else None)
             end ;;
      if someTruthy bin then
        match bin with
        | Some b =>
            formats <- loadFfmpegFormats b ;;
            let t := mkTool b (fst formats) (snd formats) in
            setCache (fun c => mkCache (cacheMagick c) (Some (Some t))
                                       (cachePandoc c) (cacheLibreoffice c)) ;;;
            ret (Some t)
        | None => ret None
        end
      else
        setCache (fun c => mkCache (cacheMagick c) (Some None)
                                   (cachePandoc c) (cacheLibreoffice c)) ;;;
        ret None
  end.

Definition ensurePandoc : M (option ToolFormats) :=
  cached <- gets (fun s => cachePandoc (toolCache s)) ;;
  match cached with
  | Some t => ret t
  | None =>
      pref <- asks (fun e => pandocPath (preferences e)) ;;
      preferred <- resolvePreferred pref ["--version"] ;;
      bin <- match preferred with
             | Some p => ret (Some p)
             | None =>
                 found <- findBinary "pandoc" ;;
                 ret (if someTruthy found then Some "pandoc" else None)
             end ;;
      if someTruthy bin then
        match bin with
        | Some b =>
            formats <- loadPandocFormats b ;;
            let t := mkTool b (fst formats) (snd formats) in
            setCache (fun c => mkCache (cacheMagick c) (cacheFfmpeg c)
                                       (Some (Some t)) (cacheLibreoffice c)) ;;;
            ret (Some t)
        | None => ret None
        end
      else
        setCache (fun c => mkCache (cacheMagick c) (cacheFfmpeg c)
                                   (Some None) (cacheLibreoffice c)) ;;;
        ret None
  end.

Definition ensureLibreOffice : M (option ToolFormats) :=
  cached <- gets (fun s => cacheLibreoffice (toolCache s)) ;;
  match cached with
  | Some t => ret t
  | None =>
      let store t :=
        setCache (fun c => mkCache (cacheMagick c) (cacheFfmpeg c)
                                   (cachePandoc c) (Some t)) in
      pref <- asks (fun e => libreofficePath (preferences e)) ;;
      preferred <- resolvePreferred pref ["--version"] ;;
      if someTruthy preferred then
        match preferred with
        | Some p =>
            let t := mkTool p libreOfficeInput libreOfficeOutput in
            store (Some t) ;;; ret (Some t)
        | None => ret None
        end
      else
        win <- asks isWindows ;;
        bin <- firstFound (if win then ["soffice"] else ["soffice"; "libreoffice"]) ;;
        if someTruthy bin then
          match bin with
          | Some b =>
              let t := mkTool b libreOfficeInput libreOfficeOutput in
              store (Some t) ;;; ret (Some t)
          | None => ret None
          end
        else
          store None ;;; ret None
  end.

(** The registry's lookup, by kind. *)
Definition ensureTool (k : ConverterKind) : M (option ToolFormats) :=
  match k with
  | Magick => ensureMagick
  | Ffmpeg => ensureFfmpeg
  | Pandoc => ensurePandoc
  | Libreoffice => ensureLibreOffice
  end.

End WithPath.
(** ** Format classifier *)

Definition getCategory (ext : string) (kind : ConverterKind) : FileCategory :=
  match kind with
  | Magick => Image
  | Pandoc | Libreoffice => Doc
  | Ffmpeg =>
      if includes ext audioExts then Audio
      else if includes ext videoExts then Video
      else Unknown
  end.

Definition preferredByCategory (category : FileCategory) : list string :=
  match category with
  | Image => ["png"; "jpg"; "jpeg"; "webp"]
  | Audio => ["wav"; "mp3"; "aac"]
  | Video => ["mp4"; "mov"; "mkv"]
  | Doc => ["pdf"; "docx"; "txt"]
  | Unknown => ["png"; "pdf"; "mp4"]
  end.

(** [xs[0] ?? d] *)
Definition firstOr (xs : list string) (d : string) : string :=
  match xs with
  | x :: _ => x
  | [] => d
  end.

Definition pickDefaultOutput (category : FileCategory) (outputs : list string) : string :=
  let preferred := preferredByCategory category in
  match find (fun candidate => includes candidate outputs) preferred with
  | Some candidate => candidate
  | None => firstOr outputs (firstOr preferred "png")
  end.

(** ** Converter resolver *)

Definition decisionFor (ext : string) (k : ConverterKind) (t : ToolFormats)
  : ConverterDecision :=
  let category := getCategory ext k in
  mkDecision k t category (pickDefaultOutput category (output t)).

(** [tool?.input.includes(ext)] *)
Definition accepts (t : option ToolFormats) (ext : string) : bool :=
  match t with
  | Some t => includes ext (input t)
  | None => false
  end.

(** The chain of [if]s of [detectConverter], once the four registry
    entries are resolved.  Where a test [accepts t ext] holds, [t] is
    present, so [option_map] builds the decision from it. *)
Definition chooseConverter (ext : string)
    (magick ffmpeg pandoc libreoffice : option ToolFormats)
  : option ConverterDecision :=
  if includes ext imagePreferredExts && accepts magick ext
  then option_map (decisionFor ext Magick) magick
  else if accepts ffmpeg ext then option_map (decisionFor ext Ffmpeg) ffmpeg
  else if accepts pandoc ext then option_map (decisionFor ext Pandoc) pandoc
  else if accepts libreoffice ext
  then option_map (decisionFor ext Libreoffice) libreoffice
  else if accepts magick ext then option_map (decisionFor ext Magick) magick
  else
    match magick, ffmpeg, pandoc, libreoffice with
    | Some t, _, _, _ => Some (decisionFor ext Magick t)
    | None, Some t, _, _ => Some (decisionFor ext Ffmpeg t)
    | None, None, Some t, _ => Some (decisionFor ext Pandoc t)
    | None, None, None, Some t => Some (decisionFor ext Libreoffice t)
    | None, None, None, None => None
    end.

Local Open Scope monad_scope.

Section Core.

Context `{PathOps}.

Definition detectConverter (ext : string) : M (option ConverterDecision) :=
  magick <- ensureMagick ;;
  ffmpeg <- ensureFfmpeg ;;
  pandoc <- ensurePandoc ;;
  libreoffice <- ensureLibreOffice ;;
  ret (chooseConverter ext magick ffmpeg pandoc libreoffice).

(** ** Conversion invoker *)

(** [[err.message, err.stdout, err.stderr].filter(Boolean).join("\n")] *)
Definition errorDetails (err : JSError) : string :=
  let opt o := match o with Some s => s | None => EmptyString end in
  join (String LF EmptyString)
       (filter truthy [message err; opt (errStdout err); opt (errStderr err)]).

Definition runCommand (cmd : string) (args : list string) : M ExecOutput :=
  tryCatch (execFileAsync cmd args)
    (fun err =>
       let details := errorDetails err in
       throw (newError (if truthy details then details else "Conversion failed"))).

Record ConvertOptions := mkOpts {
  inputPath : string;
  outputPath : string;
  outputExt : string;
  overwrite : bool;
  converter : ConverterKind;
  optTool : ToolFormats
}.

Definition existsMessage : string :=
  "Output file already exists. Enable overwrite or choose another name.".

Definition convertWithTool (opts : ConvertOptions) : M string :=
  (if negb (overwrite opts) then
     tryCatch
       (access (outputPath opts) ;;; throw (newError existsMessage))
       (fun _ => ret tt)
   else ret tt) ;;;
  match converter opts with
  | Magick =>
      runCommand (bin (optTool opts)) [inputPath opts; outputPath opts] ;;;
      ret (outputPath opts)
  | Ffmpeg =>
      let args := ["-hide_banner"; "-loglevel"; "error"] in
      let args := (args ++ [if overwrite opts then "-y" else "-n"])%list in
      let args := (args ++ ["-i"; inputPath opts; outputPath opts])%list in
      runCommand (bin (optTool opts)) args ;;;
      ret (outputPath opts)
  | Pandoc =>
      runCommand (bin (optTool opts)) [inputPath opts; "-o"; outputPath opts] ;;;
      ret (outputPath opts)
  | Libreoffice =>
      let outDir := path_dirname (outputPath opts) in
      runCommand (bin (optTool opts))
        ["--headless"; "--convert-to"; outputExt opts; "--outdir"; outDir;
         inputPath opts] ;;;
      ret (outputPath opts)
  end.

(** ** Output path builder *)

Definition buildOutputPath (inputPath outputExt : string)
    (outputDir : option string) (destination : OutputDestination) : M string :=
  let baseName := path_basename inputPath (path_extname inputPath) in
  let safeExt := normalizeExt outputExt in
  match destination with
  | DestClipboard =>
      unique <- randomUUID ;;
      tmp <- asks osTmpdir ;;
      ret (path_join [tmp; baseName ++ "-converted-" ++ unique ++ "." ++ safeExt])
  | DestSave | DestBoth =>
      let dir := match outputDir with
                 | Some d => if (0 <? String.length d)%nat then d
                             else path_dirname inputPath
                 | None => path_dirname inputPath
                 end in
      ret (path_join [dir; baseName ++ "." ++ safeExt])
  end.

(** ** Clipboard file resolver *)

Definition clipboardTempName (unique : string) : string :=
  "raycast-clipboard-" ++ unique ++ ".png".

Definition powershellScript (tempPath : string) : string :=
  join " "
    ["Add-Type -AssemblyName System.Windows.Forms;";
     "Add-Type -AssemblyName System.Drawing;";
     "$img = [System.Windows.Forms.Clipboard]::GetImage();";
     "if ($null -eq $img) { exit 2 }";
     "$img.Save('" ++ doubleQuotes tempPath
       ++ "', [System.Drawing.Imaging.ImageFormat]::Png);";
     "$img.Dispose();"].

Definition readClipboardImageWindows : M (option string) :=
  unique <- randomUUID ;;
  tmp <- asks osTmpdir ;;
  let tempPath := path_join [tmp; clipboardTempName unique] in
  tryCatch
    (execFileAsync "powershell"
       ["-NoProfile"; "-NonInteractive"; "-Command"; powershellScript tempPath] ;;;
     access tempPath ;;;
     ret (Some tempPath))
    (fun _ => ret None).

Definition readClipboardImageMac : M (option string) :=
  pngpaste <- findBinary "pngpaste" ;;
  match pngpaste with
  | None => ret None
  | Some cmd =>
      if negb (truthy cmd) then ret None
      else
        unique <- randomUUID ;;
        tmp <- asks osTmpdir ;;
        let tempPath := path_join [tmp; clipboardTempName unique] in
        tryCatch
          (execFileAsync cmd [tempPath] ;;;
           access tempPath ;;;
           ret (Some tempPath))
          (fun _ => ret None)
  end.

Definition readClipboardImageToTemp : M (option string) :=
  win <- asks isWindows ;;
  if (win : bool) then readClipboardImageWindows else readClipboardImageMac.

(** [fileURLToPath(trimmed)] throws on a URL it cannot turn into a
    path of this platform. *)
Definition fileURLToPathM (url : string) : M string :=
  fun e s =>
    match fileURLToPath e url with
    | Some p => (Returned p, s)
    | None => (Thrown (newError "Invalid file URL"), s)
    end.

Definition readClipboardFile : M (option string) :=
  content <- asks clipboardRead ;;
  if someTruthy (file content) then ret (file content)
  else if truthy (text content) then
    let trimmed := trim (text content) in
    if negb (truthy trimmed) then ret None
    else
      pathCandidate <- (if startsWith "file://" trimmed
                        then fileURLToPathM trimmed else ret trimmed) ;;
      tryCatch (access pathCandidate ;;; ret (Some pathCandidate))
               (fun _ => ret None)
  else
    imagePath <- readClipboardImageToTemp ;;
    if someTruthy imagePath then ret imagePath else ret None.

End Core.
(** ** [path.posix]

    The POSIX implementation of [node:path], on the segments of a path
    (the pieces between slashes) rather than on character indices.
    [basename] gets, as in this module's only call, the extension that
    [extname] found in the same path as its suffix. *)

Module Posix.

Definition isSlash (c : ascii) : bool := Ascii.eqb c "/".

Definition segments (p : string) : list string := splitOn "/" p.

(** One step of [normalizeString]: [stack] holds the segments kept so
    far, the last one first. *)
Definition normStep (allowAboveRoot : bool) (stack : list string) (seg : string)
  : list string :=
  if negb (truthy seg) then stack
  else if String.eqb seg "." then stack
  else if String.eqb seg ".." then
    match stack with
    | top :: rest =>
        if String.eqb top ".." then
          if allowAboveRoot then ".." :: stack else stack
        else rest
    | [] => if allowAboveRoot then [".."] else []
    end
  else seg :: stack.

Definition normStack (allowAboveRoot : bool) (segs : list string) (stack : list string)
  : list string :=
  fold_left (normStep allowAboveRoot) segs stack.

Definition normalizeString (p : string) (allowAboveRoot : bool) : string :=
  join "/" (rev (normStack allowAboveRoot (segments p) [])).

Definition isAbsolute (p : string) : bool :=
  match head p with
  | Some c => isSlash c
  | None => false
  end.

Definition trailingSeparator (p : string) : bool :=
  match last p with
  | Some c => isSlash c
  | None => false
  end.

Definition normalize (p : string) : string :=
  if negb (truthy p) then "."
  else
    let isAbs := isAbsolute p in
    let trailing := trailingSeparator p in
    let q := normalizeString p (negb isAbs) in
    if negb (truthy q) then
      if isAbs then "/" else if trailing then "./" else "."
    else
      let q := if trailing then q ++ "/" else q in
      if isAbs then "/" ++ q else q.

Definition joinPaths (args : list string) : string :=
  match filter truthy args with
  | [] => "."
  | parts => normalize (join "/" parts)
  end.

(** The last portion of a path: its last segment that is not empty. *)
Definition lastPortion (p : string) : string :=
  fold_left (fun acc seg => if truthy seg then seg else acc) (segments p) EmptyString.

(** Cuts a portion at its last dot: what is before, and the dot with
    what follows. *)
Fixpoint cutAtLastDot (s : string) : option (string * string) :=
  match s with
  | EmptyString => None
  | String c r =>
      match cutAtLastDot r with
      | Some (before, ext) => Some (String c before, ext)
      | None => if Ascii.eqb c "." then Some (EmptyString, s) else None
      end
  end.

Definition extname (p : string) : string :=
  let portion := lastPortion p in
  match cutAtLastDot portion with
  | None => EmptyString
  | Some (before, ext) =>
      if negb (truthy before) then EmptyString
      else if String.eqb portion ".." then EmptyString
      else ext
  end.

(** [Some b] when [s] is [b] followed by [suffix]. *)
Fixpoint stripSuffix (suffix s : string) : option string :=
  if String.eqb s suffix then Some EmptyString
  else match s with
       | EmptyString => None
       | String c r => option_map (String c) (stripSuffix suffix r)
       end.

Definition basename (p suffix : string) : string :=
  let portion := lastPortion p in
  if negb (truthy suffix) then portion
  else match stripSuffix suffix portion with
       | Some b => if truthy b then b else portion
       | None => portion
       end.

(** [Some d] when the path is [d], a slash, one portion and trailing
    slashes. *)
Fixpoint beforeLastPortion (p : string) : option string :=
  match p with
  | EmptyString => None
  | String c r =>
      match beforeLastPortion r with
      | Some d => Some (String c d)
      | None =>
          match head r with
          | Some c' => if isSlash c && negb (isSlash c') then Some EmptyString else None
          | None => None
          end
      end
  end.

Definition dirname (p : string) : string :=
  if negb (truthy p) then "."
  else match beforeLastPortion p with
       | Some d =>
           if negb (truthy d) then "/"
           else if String.eqb d "/" then "//"
           else d
       | None => if isAbsolute p then "/" else "."
       end.

(** The directory in front of a file name joined to [dir]: the
    normalized [dir] with a slash behind it (nothing at all for an empty
    or a vanishing relative [dir]). *)
Definition directoryPart (dir : string) : string :=
  if negb (truthy dir) then EmptyString
  else
    let isAbs := isAbsolute dir in
    (if isAbs then "/" else EmptyString)
    ++ match rev (normStack (negb isAbs) (segments dir) []) with
       | [] => EmptyString
       | kept => join "/" kept ++ "/"
       end.

(** A file name that is one ordinary segment. *)
Definition plainName (f : string) : bool :=
  truthy f && negb (includesChar "/" f)
  && negb (String.eqb f ".") && negb (String.eqb f "..").

End Posix.

#[global] Instance posixPath : PathOps := {
  path_basename := Posix.basename;
  path_extname := Posix.extname;
  path_dirname := Posix.dirname;
  path_join := Posix.joinPaths
}.
(** ** The resolution order, in the words of the specification *)

Definition available (t : option ToolFormats) : bool :=
  match t with
  | Some _ => true
  | None => false
  end.

Definition entryOf (k : ConverterKind)
    (magick ffmpeg pandoc libreoffice : option ToolFormats) : option ToolFormats :=
  match k with
  | Magick => magick
  | Ffmpeg => ffmpeg
  | Pandoc => pandoc
  | Libreoffice => libreoffice
  end.

(** Image tool for a recognized image extension it lists; else media
    tool, markup tool, office tool, each for an extension it lists; else
    whichever tool is available, in the same order. *)
Definition specPriority (ext : string)
    (magick ffmpeg pandoc libreoffice : option ToolFormats) : option ConverterKind :=
  if isImageExt ext && accepts magick ext then Some Magick
  else if accepts ffmpeg ext then Some Ffmpeg
  else if accepts pandoc ext then Some Pandoc
  else if accepts libreoffice ext then Some Libreoffice
  else if available magick then Some Magick
  else if available ffmpeg then Some Ffmpeg
  else if available pandoc then Some Pandoc
  else if available libreoffice then Some Libreoffice
  else None.

(** Whether a rule earlier in the order takes [ext] away from tool [k]. *)
Definition outranked (ext : string) (k : ConverterKind)
    (magick ffmpeg pandoc libreoffice : option ToolFormats) : bool :=
  let imageFirst := isImageExt ext && accepts magick ext in
  match k with
  | Magick =>
      negb (isImageExt ext)
      && (accepts ffmpeg ext || accepts pandoc ext || accepts libreoffice ext)
  | Ffmpeg => imageFirst
  | Pandoc => imageFirst || accepts ffmpeg ext
  | Libreoffice => imageFirst || accepts ffmpeg ext || accepts pandoc ext
  end.

(** ** Sample environments *)

Module Sample.

Definition lines (ls : list string) : string := join (String LF EmptyString) ls.

Definition ok (out : string) : JSError + ExecOutput := inr (mkOut out EmptyString).

Definition failed : JSError + ExecOutput :=
  inl (mkErr "spawn ENOENT" None None).

Definition sameArgs (a b : list string) : bool :=
  (List.length a =? List.length b)%nat
  && forallb (fun p => String.eqb (fst p) (snd p)) (combine a b).

Definition noPreferences : Preferences := mkPrefs None None None None.

Definition uuidA : string := "3b241101-e2bb-4255-8caf-4136c566a962".
Definition uuidB : string := "9f1c6d7e-0a43-4c1b-b2de-5f60a7c81e04".

Definition twoUuids (n : nat) : string :=
  match n with
  | O => uuidA
  | _ => uuidB
  end.

(** A Mac with pandoc and LibreOffice on the search path, and nothing
    else. *)
Definition docsExec (cmd : string) (args : list string) : JSError + ExecOutput :=
  if String.eqb cmd "which" then
    if sameArgs args ["pandoc"] then ok (lines ["/usr/local/bin/pandoc"; EmptyString])
    else if sameArgs args ["soffice"] then ok (lines ["/usr/local/bin/soffice"; EmptyString])
    else failed
  else if String.eqb cmd "pandoc" then
    if sameArgs args ["--list-input-formats"]
    then ok (lines ["commonmark"; "docx"; "html"; "markdown"; EmptyString])
    else if sameArgs args ["--list-output-formats"]
    then ok (lines ["docx"; "html"; "markdown"; "pdf"; EmptyString])
    else failed
  else failed.

Definition docsMac : Env :=
  mkEnv false noPreferences docsExec (fun _ => false) (fun _ => None)
        None None "/tmp" twoUuids (mkContent EmptyString None) (fun _ => None).

(** A Mac with ImageMagick only; the file [/home/u/photo.png] is
    there already. *)
Definition magickExec (cmd : string) (args : list string) : JSError + ExecOutput :=
  if String.eqb cmd "which" then
    if sameArgs args ["magick"] then ok (lines ["/usr/local/bin/magick"; EmptyString])
    else failed
  else if String.eqb cmd "magick" then
    if sameArgs args ["-list"; "format"]
    then ok (lines ["   Format  Module    Mode  Description";
                    "-------------------------------------------";
                    "      JPG  JPEG      rw-   Joint Photographic Experts Group";
                    "     PNG* PNG       rw-   Portable Network Graphics";
                    "     HEIC  HEIC      r--   High Efficiency Image Format";
                    EmptyString])
    else ok EmptyString
  else failed.

Definition imageMac : Env :=
  mkEnv false noPreferences magickExec
        (fun p => String.eqb p "/home/u/photo.png") (fun _ => None)
        None None "/tmp" twoUuids (mkContent EmptyString None) (fun _ => None).

(** A Mac where nothing is installed and the clipboard holds the text
    of a file URL that names another host. *)
Definition remoteUrlMac : Env :=
  mkEnv false noPreferences (fun _ _ => failed) (fun _ => false) (fun _ => None)
        None None "/tmp" twoUuids
        (mkContent "file://nas/photo.png" None) (fun _ => None).

(** The same, with plain text on the clipboard that names no file. *)
Definition plainTextMac : Env :=
  mkEnv false noPreferences (fun _ _ => failed) (fun _ => false) (fun _ => None)
        None None "/tmp" twoUuids
        (mkContent "hello world" None) (fun p => Some p).

End Sample.

(** One pass over the registry, in the order [detectConverter] asks. *)
Definition registryRun `{PathOps} (e : Env) (s : State)
    (magick ffmpeg pandoc libreoffice : option ToolFormats) (s' : State) : Prop :=
  exists s1 s2 s3,
    ensureMagick e s = (Returned magick, s1)
    /\ ensureFfmpeg e s1 = (Returned ffmpeg, s2)
    /\ ensurePandoc e s2 = (Returned pandoc, s3)
    /\ ensureLibreOffice e s3 = (Returned libreoffice, s').

(** ** What the registry guarantees about a descriptor's lists *)

(** Ascending in the order of [sort()]. *)
Definition ascending (l : list string) : Prop :=
  Sorted (fun a b => String.leb a b = true) l.

Fixpoint ascendingb (l : list string) : bool :=
  match l with
  | a :: (b :: _) as r => String.leb a b && ascendingb r
  | _ => true
  end.

Definition startsWithDot (x : string) : bool :=
  match head x with
  | Some c => Ascii.eqb c "."
  | None => false
  end.

(** An entry that came through [normalizeExt] and [filter(Boolean)]: not
    empty, lower-cased, and with one leading dot of the listed name
    removed, so that a dot in front is left only of a name that began
    with two. *)
Definition normalizedEntry (x : string) : Prop :=
  x <> EmptyString
  /\ toLowerCase x = x
  /\ exists raw, x = normalizeExt raw
                 /\ (startsWithDot x = true -> startsWith ".." (trim raw) = true).

(** Every element is some name, normalized. *)
Definition images (l : list string) : Prop :=
  forall x, In x l -> exists raw, x = normalizeExt raw.

(** A list as [uniqueSorted] leaves it. *)
Definition listedOk (l : list string) : Prop :=
  NoDup l /\ ascending l /\ forall x, In x l -> normalizedEntry x.

(** A list as the office tool's tables have it: in the order written. *)
Definition fixedOk (l : list string) : Prop :=
  NoDup l
  /\ forall x, In x l ->
               x <> EmptyString /\ toLowerCase x = x /\ startsWithDot x = false.

Definition toolOk (k : ConverterKind) (t : ToolFormats) : Prop :=
  match k with
  | Libreoffice =>
      input t = libreOfficeInput /\ output t = libreOfficeOutput
      /\ fixedOk (input t) /\ fixedOk (output t)
  | _ => listedOk (input t) /\ listedOk (output t)
  end.

Definition entryOk (k : ConverterKind) (o : option (option ToolFormats)) : Prop :=
  forall t, o = Some (Some t) -> toolOk k t.

(** The invariant of the module-level cache. *)
Definition cacheOk (c : ToolCache) : Prop :=
  entryOk Magick (cacheMagick c)
  /\ entryOk Ffmpeg (cacheFfmpeg c)
  /\ entryOk Pandoc (cachePandoc c)
  /\ entryOk Libreoffice (cacheLibreoffice c).

Definition bothListed (r : list string * list string) : Prop :=
  listedOk (fst r) /\ listedOk (snd r).

(** What a registry lookup for kind [k] leaves behind: a sound cache and,
    when the tool is there, a descriptor of the right shape. *)
Definition ensured (k : ConverterKind) (r : option ToolFormats) (s' : State) : Prop :=
  cacheOk (toolCache s') /\ forall t, r = Some t -> toolOk k t.

(** ** Predicates of the properties *)

(** What "the first entry of the preference list that is present in
    [outputs]" means. *)
Definition firstPresent (preferred outputs : list string) (r : string) : Prop :=
  exists before after,
    preferred = (before ++ r :: after)%list
    /\ In r outputs
    /\ forall q, In q before -> ~ In q outputs.

(** [post e m s Q X]: run from [s] in [e], [m] either returns [a] in a
    state [s'] with [Q a s'], or throws [err] in a state with [X err s']. *)
Definition post {A} (e : Env) (m : M A) (s : State)
    (Q : A -> State -> Prop) (X : JSError -> State -> Prop) : Prop :=
  match m e s with
  | (Returned a, s') => Q a s'
  | (Thrown err, s') => X err s'
  end.

(** [m] leaves the tool cache as it found it, however it ends. *)
Definition quiet {A} (m : M A) : Prop :=
  forall e s, toolCache (snd (m e s)) = toolCache s.

(** [m] never throws. *)
Definition total {A} (m : M A) : Prop :=
  forall e s, exists a, fst (m e s) = Returned a.



(** ** Further notions about the registry *)

(** The cache entry of one kind. *)
Definition cacheEntry (k : ConverterKind) (c : ToolCache)
  : option (option ToolFormats) :=
  match k with
  | Magick => cacheMagick c
  | Ffmpeg => cacheFfmpeg c
  | Pandoc => cachePandoc c
  | Libreoffice => cacheLibreoffice c
  end.

(** What a lookup of kind [k] from [s] leaves in [s']: the answer is in
    the cache, the other entries are untouched, an entry that was there
    is returned without any effect, and a descriptor made afresh has a
    command. *)
Definition stored (k : ConverterKind) (s : State)
    (r : option ToolFormats) (s' : State) : Prop :=
  cacheEntry k (toolCache s') = Some r
  /\ (forall k', k' <> k ->
                 cacheEntry k' (toolCache s') = cacheEntry k' (toolCache s))
  /\ (forall r0, cacheEntry k (toolCache s) = Some r0 -> r = r0 /\ s' = s)
  /\ (cacheEntry k (toolCache s) = None ->
      forall t, r = Some t -> truthy (bin t) = true).

(** The user's path for a kind, the arguments of the probe and of the
    format listings. *)
Definition preferredPath (k : ConverterKind) (p : Preferences) : option string :=
  match k with
  | Magick => magickPath p
  | Ffmpeg => ffmpegPath p
  | Pandoc => pandocPath p
  | Libreoffice => libreofficePath p
  end.

Definition probeArgs (k : ConverterKind) : list string :=
  match k with
  | Magick | Ffmpeg => ["-version"]
  | Pandoc | Libreoffice => ["--version"]
  end.

Definition listingArgs (k : ConverterKind) : list (list string) :=
  match k with
  | Magick => [["-list"; "format"]]
  | Ffmpeg => [["-hide_banner"; "-formats"]]
  | Pandoc => [["--list-input-formats"]; ["--list-output-formats"]]
  | Libreoffice => []
  end.

(** The format lists of a tool found at [b]: asked of the tool for the
    first three kinds, the fixed tables for the office tool. *)
Definition loadFormats (k : ConverterKind) (b : string)
  : M (list string * list string) :=
  match k with
  | Magick => loadMagickFormats b
  | Ffmpeg => loadFfmpegFormats b
  | Pandoc => loadPandocFormats b
  | Libreoffice => ret (libreOfficeInput, libreOfficeOutput)
  end.

Definition setEntry (k : ConverterKind) (o : option (option ToolFormats))
    (c : ToolCache) : ToolCache :=
  match k with
  | Magick => mkCache o (cacheFfmpeg c) (cachePandoc c) (cacheLibreoffice c)
  | Ffmpeg => mkCache (cacheMagick c) o (cachePandoc c) (cacheLibreoffice c)
  | Pandoc => mkCache (cacheMagick c) (cacheFfmpeg c) o (cacheLibreoffice c)
  | Libreoffice => mkCache (cacheMagick c) (cacheFfmpeg c) (cachePandoc c) o
  end.

(** A Mac where the preferences name an ffmpeg that answers the probe
    but fails to list its formats. *)
Definition brokenListingMac : Env :=
  mkEnv false (mkPrefs None (Some "  /opt/ffmpeg/bin/ffmpeg ") None None)
        (fun cmd args =>
           if String.eqb cmd "/opt/ffmpeg/bin/ffmpeg" && Sample.sameArgs args ["-version"]
           then Sample.ok "ffmpeg version 7.1" else Sample.failed)
        (fun _ => false) (fun _ => None)
        None None "/tmp" Sample.twoUuids (mkContent EmptyString None) (fun _ => None).

(** Two environments that differ at most in what the format listings
    of kind [k] answer: the platform, the preferences, the file system
    and every other process are the same. *)
Definition sameButListings (k : ConverterKind) (e e' : Env) : Prop :=
  isWindows e' = isWindows e
  /\ preferences e' = preferences e
  /\ (forall p, fsAccess e' p = fsAccess e p)
  /\ (forall root, fsReaddir e' root = fsReaddir e root)
  /\ envProgramFiles e' = envProgramFiles e
  /\ envProgramFilesX86 e' = envProgramFilesX86 e
  /\ (forall cmd args, ~ In args (listingArgs k) ->
                        execFile e' cmd args = execFile e cmd args).

(** A Mac with ffmpeg on the search path, where ffmpeg itself does not
    start. *)
Definition unlistedMac : Env :=
  mkEnv false Sample.noPreferences
        (fun cmd args =>
           if String.eqb cmd "which" && Sample.sameArgs args ["ffmpeg"]
           then Sample.ok (Sample.lines ["/usr/local/bin/ffmpeg"; EmptyString])
           else Sample.failed)
        (fun _ => false) (fun _ => None)
        None None "/tmp" Sample.twoUuids (mkContent EmptyString None) (fun _ => None).

(** The same Mac with an ffmpeg that lists its formats. *)
Definition listedMac : Env :=
  mkEnv false Sample.noPreferences
        (fun cmd args =>
           if Sample.sameArgs args ["-hide_banner"; "-formats"]
           then Sample.ok " DE mov,mp4 QuickTime / MOV"
           else execFile unlistedMac cmd args)
        (fun _ => false) (fun _ => None)
        None None "/tmp" Sample.twoUuids (mkContent EmptyString None) (fun _ => None).

(** ** Further notions about the invoker *)

Definition withOverwrite (b : bool) (opts : ConvertOptions) : ConvertOptions :=
  mkOpts (inputPath opts) (outputPath opts) (outputExt opts) b
         (converter opts) (optTool opts).

(** The parts of a process error that [runCommand] reports. *)
Definition errorParts (err : JSError) : list string :=
  let opt o := match o with Some s => s | None => EmptyString end in
  filter truthy [message err; opt (errStdout err); opt (errStderr err)].

(** ** Further notions about strings *)

(** Whether a quote stands alone, that is outside a pair of adjacent
    quotes read from the left. *)
Fixpoint loneQuote (s : string) : bool :=
  match s with
  | EmptyString => false
  | String c r =>
      if Ascii.eqb c "'" then
        match r with
        | String d r' => if Ascii.eqb d "'" then loneQuote r' else true
        | EmptyString => true
        end
      else loneQuote r
  end.

(** ** The host of the form ([@raycast/api])

    What a handler of the form does to the host is an event: a toast
    shown, the fields of a toast assigned, a file put on the clipboard, a
    path opened, the [onConverted] callback called, the navigation popped
    to the root.  A call that rejects leaves no event. *)

Inductive ToastStyle := Animated | Success | Failure.

Record Toast := mkToast {
  style : ToastStyle;
  title : string;
  toastMessage : option string
}.

Inductive UiEvent :=
| Shown (toast : Toast)
| Updated (toast : Toast)
| Copied (path : string)
| Opened (target : string)
| Converted (path ext : string)
| Popped.

(** The calls of the host that can reject, with the error they reject
    with, if any.  [showToast] and the callback do not fail. *)
Class Host := {
  clipboardCopy : string -> option JSError;
  openTarget : string -> option JSError;
  popToRoot : option JSError
}.

(** The state of a handler: the state of the core and the events so
    far, most recent first. *)
Record UiState := mkUi {
  core : State;
  events : list UiEvent
}.

Definition U (A : Type) : Type := Env -> UiState -> Outcome A * UiState.

Definition retU {A} (a : A) : U A := fun _ u => (Returned a, u).

Definition bindU {A B} (m : U A) (k : A -> U B) : U B :=
  fun e u =>
    match m e u with
    | (Returned a, u') => k a e u'
    | (Thrown err, u') => (Thrown err, u')
    end.

Definition tryCatchU {A} (m : U A) (h : JSError -> U A) : U A :=
  fun e u =>
    match m e u with
    | (Returned a, u') => (Returned a, u')
    | (Thrown err, u') => h err e u'
    end.

(** A call into the core. *)
Definition lift {A} (m : M A) : U A :=
  fun e u =>
    match m e (core u) with
    | (r, s') => (r, mkUi s' (events u))
    end.

Definition emit (ev : UiEvent) : U unit :=
  fun _ u => (Returned tt, mkUi (core u) (ev :: events u)).

(** A call of the host: its event when it resolves. *)
Definition hostCall (answer : option JSError) (ev : UiEvent) : U unit :=
  fun e u =>
    match answer with
    | None => emit ev e u
    | Some err => (Thrown err, u)
    end.

Definition showToast (toast : Toast) : U unit := emit (Shown toast).

Declare Scope ui_scope.
Delimit Scope ui_scope with ui.
Notation "x <- m ;; k" := (bindU m (fun x => k))
  (at level 61, m at next level, right associativity) : ui_scope.
Notation "m ;;; k" := (bindU m (fun _ => k))
  (at level 61, right associativity) : ui_scope.

(** The toast on the screen: the one of the latest toast event. *)
Fixpoint lastToast (evs : list UiEvent) : option Toast :=
  match evs with
  | [] => None
  | Shown toast :: _ => Some toast
  | Updated toast :: _ => Some toast
  | _ :: rest => lastToast rest
  end.

(** A [ConverterKind] is its own name. *)
Definition kindName (k : ConverterKind) : string :=
  match k with
  | Magick => "magick"
  | Ffmpeg => "ffmpeg"
  | Pandoc => "pandoc"
  | Libreoffice => "libreoffice"
  end.

Definition doubleQuote : ascii := ascii_of_nat 34.

(** ** The convert form ([ConvertForm] in [src/convert-file.tsx]) *)

Module ConvertForm.

Record ConvertFormValues := mkValues {
  values_outputFormat : string;
  values_destination : OutputDestination;
  values_outputDir : option (list string);
  values_overwrite : bool;
  values_openAfter : bool
}.

(** The [sortedFormats] memo, the two sections of the format dropdown:
    [recommended] is the [Set] in the order of its [add]s. *)
Definition sortedFormats (decision : ConverterDecision) (outputFormats : list string)
  : list string * list string :=
  let recommended :=
    ((if truthy (defaultOutput decision) then [defaultOutput decision] else [])
     ++ (let preferred := pickDefaultOutput (category decision) outputFormats in
         if truthy preferred then [preferred] else []))%list in
  let recommendedList := uniq recommended in
  let remaining :=
    filter (fun format => negb (includes format recommended)) outputFormats in
  (recommendedList, remaining).

Section Handler.

Context `{PathOps} `{Host}.

Local Open Scope ui_scope.

Definition unsupportedHint : string :=
  "Use " ++ String doubleQuote "View Supported Formats"
  ++ String doubleQuote " to see valid options.".

(** [handleSubmit] of the form, for the props [inputPath], [decision]
    and [outputFormats] and the state [selectedOutput]. *)
Definition handleSubmit (inputPath : string) (decision : ConverterDecision)
    (outputFormats : list string) (selectedOutput : string)
    (values : ConvertFormValues) : U unit :=
  let outputExt :=
    normalizeExt (if truthy (values_outputFormat values)
                  then values_outputFormat values else selectedOutput) in
  if negb (truthy outputExt) then
    showToast (mkToast Failure "Choose a target format" None)
  else if (0 <? List.length outputFormats)%nat
          && negb (includes outputExt outputFormats) then
    showToast (mkToast Failure
                 ("." ++ outputExt ++ " is not supported by "
                  ++ kindName (kind decision))
                 (Some unsupportedHint))
  else
    let outputDir :=
      match values_destination values with
      | DestSave | DestBoth =>
          match values_outputDir values with
          | Some (dir :: _) => Some dir
          | _ => None
          end
      | DestClipboard => None
      end in
    outputPath <- lift (buildOutputPath inputPath outputExt outputDir
                          (values_destination values)) ;;
    showToast (mkToast Animated "Converting file"
                 (Some (kindName (kind decision) ++ " -> ." ++ outputExt))) ;;;
    tryCatchU
      (resultPath <- lift (convertWithTool
                             (mkOpts inputPath outputPath outputExt
                                     (values_overwrite values)
                                     (kind decision) (tool decision))) ;;
       (match values_destination values with
        | DestClipboard | DestBoth =>
            hostCall (clipboardCopy resultPath) (Copied resultPath)
        | DestSave => retU tt
        end) ;;;
       emit (Updated (mkToast Success
                        (match values_destination values with
                         | DestClipboard => "Copied to clipboard"
                         | _ => "Conversion complete"
                         end)
                        (Some resultPath))) ;;;
       (if values_openAfter values
           && match values_destination values with
              | DestClipboard => false
              | _ => true
              end
        then hostCall (openTarget resultPath) (Opened resultPath)
        else retU tt) ;;;
       emit (Converted resultPath outputExt) ;;;
       hostCall popToRoot Popped)
      (fun error =>
         emit (Updated (mkToast Failure "Conversion failed"
                          (Some (message error))))).

End Handler.

End ConvertForm.

(** The events of a delivery, most recent first, once the tool has
    written [path]: the copy, the success toast, the opening, the
    callback and the pop, as far as the host lets them come, and the
    failure toast of the first call that rejects. *)
Definition delivered `{Host} (values : ConvertForm.ConvertFormValues)
    (path ext : string) : list UiEvent :=
  let destination := ConvertForm.values_destination values in
  let success :=
    Updated (mkToast Success
               (match destination with
                | DestClipboard => "Copied to clipboard"
                | _ => "Conversion complete"
                end) (Some path)) in
  let failure err :=
    Updated (mkToast Failure "Conversion failed" (Some (message err))) in
  let copies := match destination with DestSave => false | _ => true end in
  let opens :=
    ConvertForm.values_openAfter values
    && match destination with DestClipboard => false | _ => true end in
  match (if copies then clipboardCopy path else None) with
  | Some err => [failure err]
  | None =>
      let copied := if copies then [Copied path] else [] in
      match (if opens then openTarget path else None) with
      | Some err => failure err :: success :: copied
      | None =>
          let opened := if opens then [Opened path] else [] in
          match popToRoot with
          | Some err =>
              failure err :: Converted path ext :: (opened ++ success :: copied)%list
          | None =>
              Popped :: Converted path ext :: (opened ++ success :: copied)%list
          end
      end
  end.

(** The message of the error [runCommand] throws for a failed process. *)
Definition failureMessage (err : JSError) : string :=
  if truthy (errorDetails err) then errorDetails err else "Conversion failed".

(** What the form accepts as a target format. *)
Definition acceptedFormat (outputFormats : list string) (outputExt : string) : bool :=
  truthy outputExt
  && match outputFormats with
     | [] => true
     | _ => includes outputExt outputFormats
     end.

(** A host whose calls all resolve, and one that cannot open files. *)
Definition willingHost : Host := {|
  clipboardCopy := fun _ => None;
  openTarget := fun _ => None;
  popToRoot := None
|}.

Definition noOpenHost : Host := {|
  clipboardCopy := fun _ => None;
  openTarget := fun _ => Some (newError "No application can open the file");
  popToRoot := None
|}.

(** A machine on which every process succeeds without output, a photo
    to convert and a filled-in form. *)
Definition obligingMac : Env :=
  mkEnv false Sample.noPreferences (fun _ _ => Sample.ok EmptyString)
        (fun _ => false) (fun _ => None)
        None None "/tmp" Sample.twoUuids (mkContent EmptyString None)
        (fun _ => None).

Definition photoDecision : ConverterDecision :=
  mkDecision Magick (mkTool "magick" ["heic"; "png"] ["jpg"; "png"]) Image "png".

Definition saveAndCopy : ConvertForm.ConvertFormValues :=
  ConvertForm.mkValues " .PNG" DestBoth (Some ["/out"]) false true.

(** ** What a tool prints *)

(** A name as a tool lists it: not empty, no white space in it. *)
Fixpoint noWhiteSpace (s : string) : bool :=
  match s with
  | EmptyString => true
  | String c r => negb (is_ws c) && noWhiteSpace r
  end.

Definition listedName (n : string) : bool := truthy n && noWhiteSpace n.

(** A listing with one name per line, each line ended by a line feed. *)
Fixpoint printedLines (names : list string) : string :=
  match names with
  | [] => EmptyString
  | n :: rest => n ++ String LF (printedLines rest)
  end.

(** ** The search path *)

(** The command names a kind is looked for under, in the order tried. *)
Definition commandNames (k : ConverterKind) (windows : bool) : list string :=
  match k with
  | Magick => if windows then ["magick"] else ["magick"; "convert"]
  | Ffmpeg => ["ffmpeg"]
  | Pandoc => ["pandoc"]
  | Libreoffice => if windows then ["soffice"] else ["soffice"; "libreoffice"]
  end.

(** Whether the locator of the platform prints a line that is not blank
    for [cmd]. *)
Definition located (e : Env) (cmd : string) : bool :=
  match execFile e (if isWindows e then "where" else "which") [cmd] with
  | inr out =>
      existsb (fun line => negb (String.length (trim line) =? 0)%nat)
              (splitLines (stdout out))
  | inl _ => false
  end.

(** White space only. *)
Fixpoint blank (s : string) : bool :=
  match s with
  | EmptyString => true
  | String c r => is_ws c && blank r
  end.

(** A gap between two columns: white space, at least one unit. *)
Definition gap (s : string) : bool := truthy s && blank s.

(** What may follow the last column read: nothing, or white space and
    anything behind it. *)
Definition trailer (s : string) : bool :=
  match s with
  | EmptyString => true
  | String c _ => is_ws c
  end.


(** A row of [magick -list format]: the format (with its star, if it
    has one), the module, the mode of three marks, the description. *)
Definition magickRow (lead format gap1 module gap2 : string)
    (r w p : ascii) (gap3 description : string) : string :=
  lead ++ format ++ gap1 ++ module ++ gap2
  ++ String r (String w (String p (gap3 ++ description))).
Section CharFacts.

Lemma lower_idem (c : ascii) : lower (lower c) = lower c.
Proof. destruct c as [[] [] [] [] [] [] [] []]; reflexivity. Qed.

Lemma lower_ws (c : ascii) : is_ws (lower c) = is_ws c.
Proof. destruct c as [[] [] [] [] [] [] [] []]; reflexivity. Qed.

Lemma lower_dot (c : ascii) : Ascii.eqb (lower c) "." = Ascii.eqb c ".".
Proof. destruct c as [[] [] [] [] [] [] [] []]; reflexivity. Qed.

End CharFacts.

Section StringFacts.

Lemma toLowerCase_idem (s : string) : toLowerCase (toLowerCase s) = toLowerCase s.
Proof.
  induction s as [|c r IH]; simpl; [reflexivity|].
  now rewrite lower_idem, IH.
Qed.

Lemma toLowerCase_empty (s : string) : toLowerCase s = EmptyString -> s = EmptyString.
Proof. destruct s; simpl; [reflexivity | discriminate]. Qed.

Lemma last_toLowerCase (s : string) :
  last (toLowerCase s) = option_map lower (last s).
Proof.
  induction s as [|c r IH]; simpl; [reflexivity|].
  destruct r as [|d r']; [reflexivity|].
  simpl in *. exact IH.
Qed.

Lemma cleanEnd_toLowerCase (s : string) :
  cleanEnd (toLowerCase s) = cleanEnd s.
Proof.
  unfold cleanEnd. rewrite last_toLowerCase.
  destruct (last s); simpl; [now rewrite lower_ws | reflexivity].
Qed.

Lemma trimStart_clean (s : string) :
  match head s with Some c => is_ws c = false | None => True end ->
  trimStart s = s.
Proof. destruct s as [|c r]; simpl; [reflexivity|]. now intros ->. Qed.

Lemma trimEnd_clean (s : string) : cleanEnd s = true -> trimEnd s = s.
Proof.
  unfold cleanEnd.
  induction s as [|c r IH]; simpl; [reflexivity|].
  destruct r as [|d r'].
  - simpl. destruct (is_ws c); [discriminate | reflexivity].
  - intros H. rewrite (IH H). reflexivity.
Qed.

Lemma trimEnd_cleanEnd (s : string) : cleanEnd (trimEnd s) = true.
Proof.
  unfold cleanEnd.
  induction s as [|c r IH]; simpl; [reflexivity|].
  destruct (trimEnd r) as [|d t] eqn:E.
  - destruct (is_ws c) eqn:W; simpl; [reflexivity | now rewrite W].
  - exact IH.
Qed.

Lemma cleanEnd_tail (c : ascii) (r : string) :
  cleanEnd (String c r) = true -> cleanEnd r = true.
Proof.
  unfold cleanEnd. destruct r as [|d r']; [reflexivity|]. simpl. auto.
Qed.

Lemma stripLeadingDot_cleanEnd (s : string) :
  cleanEnd s = true -> cleanEnd (stripLeadingDot s) = true.
Proof.
  destruct s as [|c r]; [reflexivity|].
  intros H. unfold stripLeadingDot.
  destruct c as [[] [] [] [] [] [] [] []]; try exact H.
  exact (cleanEnd_tail _ _ H).
Qed.

Lemma normalizeExt_cleanEnd (x : string) : cleanEnd (normalizeExt x) = true.
Proof.
  unfold normalizeExt, trim.
  rewrite cleanEnd_toLowerCase.
  apply stripLeadingDot_cleanEnd, trimEnd_cleanEnd.
Qed.

Lemma normalizeExt_lower (x : string) :
  toLowerCase (normalizeExt x) = normalizeExt x.
Proof. apply toLowerCase_idem. Qed.

(** A string with a clean front and no trailing white space is a fixed
    point of the first two stages of [normalizeExt]. *)
Lemma trim_strip_fixed (y : string) :
  cleanFront y = true -> cleanEnd y = true ->
  stripLeadingDot (trim y) = y.
Proof.
  intros HF HE. unfold trim.
  rewrite trimStart_clean.
  - rewrite (trimEnd_clean _ HE).
    destruct y as [|c r]; [reflexivity|].
    unfold cleanFront in HF; simpl in HF.
    apply andb_true_iff in HF as [_ HD].
    unfold stripLeadingDot.
    destruct c as [[] [] [] [] [] [] [] []]; try reflexivity.
    discriminate HD.
  - unfold cleanFront in HF. destruct (head y); [|exact I].
    apply andb_true_iff in HF as [HW _].
    now apply negb_true_iff in HW.
Qed.

End StringFacts.

(** *** Lengths: every stage of [normalizeExt] can only shorten *)

Section Lengths.

Lemma toLowerCase_length (s : string) :
  String.length (toLowerCase s) = String.length s.
Proof. induction s as [|c r IH]; simpl; [reflexivity | now rewrite IH]. Qed.

Lemma trimStart_length (s : string) :
  String.length (trimStart s) <= String.length s.
Proof.
  induction s as [|c r IH]; simpl; [lia|].
  destruct (is_ws c); simpl; lia.
Qed.

Lemma trimEnd_length (s : string) :
  String.length (trimEnd s) <= String.length s.
Proof.
  induction s as [|c r IH]; simpl; [lia|].
  destruct (trimEnd r) as [|d t]; [destruct (is_ws c)|]; simpl in *; lia.
Qed.

Lemma trim_length (s : string) : String.length (trim s) <= String.length s.
Proof.
  unfold trim.
  pose proof (trimEnd_length (trimStart s)). pose proof (trimStart_length s). lia.
Qed.

Lemma stripLeadingDot_length (s : string) :
  String.length (stripLeadingDot s) <= String.length s.
Proof.
  destruct s as [|c r]; [simpl; lia|].
  unfold stripLeadingDot.
  destruct c as [[] [] [] [] [] [] [] []]; simpl; lia.
Qed.

(** With a dot or a white space in front, the result is strictly
    shorter. *)
Lemma normalizeExt_shrinks (y : string) :
  cleanFront y = false ->
  String.length (normalizeExt y) < String.length y.
Proof.
  unfold cleanFront, normalizeExt.
  destruct y as [|c r]; simpl; [discriminate|].
  intros HF. rewrite toLowerCase_length.
  destruct (is_ws c) eqn:W.
  - unfold trim. simpl. rewrite W.
    pose proof (stripLeadingDot_length (trimEnd (trimStart r))).
    pose proof (trimEnd_length (trimStart r)).
    pose proof (trimStart_length r). lia.
  - simpl in HF. apply negb_false_iff in HF.
    apply Ascii.eqb_eq in HF. subst c.
    unfold trim. simpl.
    pose proof (trimEnd_length r).
    destruct (trimEnd r) as [|d t] eqn:E; simpl in *; lia.
Qed.

End Lengths.

(** The converse of the idempotence below: a normalized string that
    still starts with a dot or a white space is not a fixed point. *)
Lemma normalizeExt_not_fixed (x : string) :
  cleanFront (normalizeExt x) = false ->
  normalizeExt (normalizeExt x) <> normalizeExt x.
Proof.
  intros HF E. apply normalizeExt_shrinks in HF.
  rewrite E in HF. lia.
Qed.

(** C8, as stated, fails: two leading dots lose one dot per pass. *)
Lemma normalizeExt_two_dots_not_idempotent :
  normalizeExt (normalizeExt "..png") <> normalizeExt "..png".
Proof. vm_compute. discriminate. Qed.

(** C8 (amended): [normalizeExt (normalizeExt x) = normalizeExt x] for
    every [x] whose normalized form starts neither with a dot nor with
    white space, and [normalizeExt ".PNG" = "png"]. *)
Theorem normalizeExt_idempotent_clean :
  (forall x : string,
      cleanFront (normalizeExt x) = true ->
      normalizeExt (normalizeExt x) = normalizeExt x)
  /\ normalizeExt ".PNG" = "png".
Proof.
  split; [|reflexivity].
  intros x HF.
  unfold normalizeExt at 1.
  rewrite (trim_strip_fixed _ HF (normalizeExt_cleanEnd x)).
  apply normalizeExt_lower.
Qed.

Lemma normalizeExt_idempotent_clean_witness :
  cleanFront (normalizeExt "  .JpEg ") = true
  /\ normalizeExt (normalizeExt "  .JpEg ") = normalizeExt "  .JpEg ".
Proof.
  split; [reflexivity|].
  apply (proj1 normalizeExt_idempotent_clean). reflexivity.
Defined.

(** ** Arrays of strings *)

Section Arrays.

Lemma includes_In (x : string) (xs : list string) :
  includes x xs = true <-> In x xs.
Proof.
  unfold includes. rewrite existsb_exists. split.
  - intros (y & Hy & E). apply String.eqb_eq in E. now subst.
  - intros Hx. exists x. split; [assumption | apply String.eqb_refl].
Qed.

Lemma includes_not_In (x : string) (xs : list string) :
  includes x xs = false <-> ~ In x xs.
Proof.
  rewrite <- includes_In. destruct (includes x xs); split; congruence.
Qed.

(** [find] returns the first element that passes the test. *)
Lemma find_first {A} (f : A -> bool) (l : list A) (x : A) :
  find f l = Some x ->
  exists before after,
    l = (before ++ x :: after)%list /\ f x = true /\ forall y, In y before -> f y = false.
Proof.
  induction l as [|a l IH]; simpl; [discriminate|].
  destruct (f a) eqn:Fa.
  - intros [= ->]. exists [], l. repeat split; [assumption | intros y []].
  - intros Hfind. destruct (IH Hfind) as (before & after & -> & Fx & Hb).
    exists (a :: before), after. repeat split; [assumption|].
    intros y [<- | Hy]; [assumption | now apply Hb].
Qed.

Lemma find_nothing {A} (f : A -> bool) (l : list A) :
  find f l = None -> forall y, In y l -> f y = false.
Proof. intros Hf y Hy. exact (find_none f l Hf y Hy). Qed.

End Arrays.

(** ** Default output format *)

Lemma pickDefaultOutput_cases (c : FileCategory) (outputs : list string) :
  firstPresent (preferredByCategory c) outputs (pickDefaultOutput c outputs)
  \/ ((forall q, In q (preferredByCategory c) -> ~ In q outputs)
      /\ pickDefaultOutput c outputs
         = firstOr outputs (firstOr (preferredByCategory c) "png")).
Proof.
  unfold pickDefaultOutput.
  destruct (find _ (preferredByCategory c)) as [r|] eqn:F.
  - left. destruct (find_first _ _ _ F) as (before & after & E & Hr & Hb).
    exists before, after. repeat split.
    + exact E.
    + now apply includes_In.
    + intros q Hq. apply includes_not_In. now apply Hb.
  - right. split; [|reflexivity].
    intros q Hq. apply includes_not_In. exact (find_nothing _ _ F q Hq).
Qed.

Lemma pickDefaultOutput_in_outputs (c : FileCategory) (outputs : list string) :
  outputs <> [] -> In (pickDefaultOutput c outputs) outputs.
Proof.
  intros Hne.
  destruct (pickDefaultOutput_cases c outputs) as [Hfp | [_ E]].
  - destruct Hfp as (_ & _ & _ & Hin & _). exact Hin.
  - destruct outputs as [|o rest]; [contradiction|].
    simpl in E. rewrite E. now left.
Qed.

Lemma pickDefaultOutput_no_outputs (c : FileCategory) :
  pickDefaultOutput c [] = firstOr (preferredByCategory c) "png"
  /\ exists rest, preferredByCategory c = pickDefaultOutput c [] :: rest.
Proof. destruct c; (split; [reflexivity | eexists; reflexivity]). Qed.

(** C3: for a non-empty [outputs], [pickDefaultOutput c outputs] is an
    element of [outputs]: the first entry of the preference list of [c]
    that occurs in [outputs], or, when none occurs, the first element of
    [outputs]. *)
Theorem pickDefaultOutput_member (c : FileCategory) (outputs : list string) :
  outputs <> [] ->
  In (pickDefaultOutput c outputs) outputs
  /\ (firstPresent (preferredByCategory c) outputs (pickDefaultOutput c outputs)
      \/ ((forall q, In q (preferredByCategory c) -> ~ In q outputs)
          /\ exists rest, outputs = pickDefaultOutput c outputs :: rest)).
Proof.
  intros Hne.
  destruct (pickDefaultOutput_cases c outputs) as [Hfp | [Hnone E]].
  - split; [|now left].
    destruct Hfp as (_ & _ & _ & Hin & _). exact Hin.
  - destruct outputs as [|o rest]; [contradiction|].
    simpl in E. rewrite E. split; [now left|].
    right. split; [exact Hnone | now exists rest].
Qed.

Lemma pickDefaultOutput_member_witness :
  ["webp"; "jpg"; "gif"] <> []
  /\ In (pickDefaultOutput Image ["webp"; "jpg"; "gif"]) ["webp"; "jpg"; "gif"].
Proof.
  split; [discriminate|].
  apply (pickDefaultOutput_member Image ["webp"; "jpg"; "gif"]). discriminate.
Defined.

(** C4: with no outputs at all, [pickDefaultOutput] still answers, with
    a non-empty string: the first entry of the preference list of the
    category (the fixed default behind it is never reached, every list
    having a first entry). *)
Theorem pickDefaultOutput_empty_outputs (c : FileCategory) :
  pickDefaultOutput c [] <> EmptyString
  /\ pickDefaultOutput c [] = firstOr (preferredByCategory c) "png"
  /\ exists rest, preferredByCategory c = pickDefaultOutput c [] :: rest.
Proof.
  destruct c; (split; [discriminate | split; [reflexivity | eexists; reflexivity]]).
Qed.

(** ** A program logic for [M] *)

Local Open Scope monad_scope.

Section Logic.

Context {A B : Type}.

Lemma post_ret e (a : A) s Q X : Q a s -> post e (ret a) s Q X.
Proof. exact (fun q => q). Qed.

Lemma post_throw e err s (Q : A -> State -> Prop) X :
  X err s -> post e (throw err) s Q X.
Proof. exact (fun x => x). Qed.

Lemma post_bind e (m : M A) (k : A -> M B) s Q X :
  post e m s (fun a s1 => post e (k a) s1 Q X) X ->
  post e (bind m k) s Q X.
Proof.
  unfold post, bind. destruct (m e s) as [[a|err] s1]; exact (fun h => h).
Qed.

Lemma post_tryCatch e (m : M A) (h : JSError -> M A) s Q X :
  post e m s Q (fun err s1 => post e (h err) s1 Q X) ->
  post e (tryCatch m h) s Q X.
Proof.
  unfold post, tryCatch. destruct (m e s) as [[a|err] s1]; exact (fun p => p).
Qed.

Lemma post_weaken e (m : M A) s (Q Q' : A -> State -> Prop)
    (X X' : JSError -> State -> Prop) :
  post e m s Q X ->
  (forall a s', Q a s' -> Q' a s') ->
  (forall err s', X err s' -> X' err s') ->
  post e m s Q' X'.
Proof.
  unfold post. destruct (m e s) as [[a|err] s1]; intros p HQ HX; auto.
Qed.

(** A quiet, total computation can be stepped over: it returns, and
    the cache is the one before. *)
Lemma post_quiet_total e (m : M A) s (Q : A -> State -> Prop) X :
  quiet m -> total m ->
  (forall a s', toolCache s' = toolCache s -> Q a s') ->
  post e m s Q X.
Proof.
  intros Hq Ht HQ. unfold post.
  specialize (Hq e s). destruct (Ht e s) as [a Ha].
  destruct (m e s) as [r s1]. simpl in *. subst r. now apply HQ.
Qed.

Lemma bind_returned e (m : M A) (k : A -> M B) s b s' :
  bind m k e s = (Returned b, s') ->
  exists a s1, m e s = (Returned a, s1) /\ k a e s1 = (Returned b, s').
Proof.
  unfold bind. destruct (m e s) as [[a|err] s1]; [|discriminate].
  intros Hk. now exists a, s1.
Qed.

Lemma quiet_bind (m : M A) (k : A -> M B) :
  quiet m -> (forall a, quiet (k a)) -> quiet (bind m k).
Proof.
  intros Hm Hk e s. unfold bind. specialize (Hm e s).
  destruct (m e s) as [[a|err] s1]; simpl in *; [|assumption].
  now rewrite Hk.
Qed.

Lemma total_bind (m : M A) (k : A -> M B) :
  total m -> (forall a, total (k a)) -> total (bind m k).
Proof.
  intros Hm Hk e s. unfold bind. destruct (Hm e s) as [a Ha].
  destruct (m e s) as [r s1]. simpl in Ha. subst r. apply Hk.
Qed.

Lemma quiet_tryCatch (m : M A) (h : JSError -> M A) :
  quiet m -> (forall err, quiet (h err)) -> quiet (tryCatch m h).
Proof.
  intros Hm Hh e s. unfold tryCatch. specialize (Hm e s).
  destruct (m e s) as [[a|err] s1]; simpl in *; [assumption|].
  now rewrite Hh.
Qed.

Lemma total_tryCatch (m : M A) (h : JSError -> M A) :
  (forall err, total (h err)) -> total (tryCatch m h).
Proof.
  intros Hh e s. unfold tryCatch.
  destruct (m e s) as [[a|err] s1]; [now exists a | apply Hh].
Qed.

Lemma quiet_ret (a : A) : quiet (ret a).
Proof. intros e s. reflexivity. Qed.

Lemma total_ret (a : A) : total (ret a).
Proof. intros e s. now exists a. Qed.

Lemma quiet_throw err : quiet (@throw A err).
Proof. intros e s. reflexivity. Qed.

Lemma quiet_asks (f : Env -> A) : quiet (asks f).
Proof. intros e s. reflexivity. Qed.

Lemma total_asks (f : Env -> A) : total (asks f).
Proof. intros e s. now exists (f e). Qed.

Lemma quiet_gets (f : State -> A) : quiet (gets f).
Proof. intros e s. reflexivity. Qed.

Lemma total_gets (f : State -> A) : total (gets f).
Proof. intros e s. now exists (f s). Qed.

End Logic.

Lemma quiet_execFileAsync cmd args : quiet (execFileAsync cmd args).
Proof. intros e s. unfold execFileAsync. now destruct (execFile e cmd args). Qed.

Lemma quiet_access p : quiet (access p).
Proof. intros e s. unfold access. now destruct (fsAccess e p). Qed.

Lemma quiet_readdir root : quiet (readdir root).
Proof. intros e s. unfold readdir. now destruct (fsReaddir e root). Qed.

Lemma quiet_randomUUID : quiet randomUUID.
Proof. intros e s. reflexivity. Qed.

Lemma total_randomUUID : total randomUUID.
Proof. intros e s. eexists. reflexivity. Qed.

Lemma total_setCache f : total (setCache f).
Proof. intros e s. now exists tt. Qed.

Create HintDb quiet discriminated.
Create HintDb total discriminated.

#[export] Hint Resolve quiet_ret quiet_throw quiet_asks quiet_gets
  quiet_execFileAsync quiet_access quiet_readdir quiet_randomUUID : quiet.
#[export] Hint Resolve total_ret total_asks total_gets total_randomUUID
  total_setCache : total.

(** Takes a computation apart along its binds, handlers and branches. *)
Ltac step_quiet :=
  repeat first
    [ solve [auto with quiet]
    | apply quiet_bind; [|intros ?]
    | apply quiet_tryCatch; [|intros ?]
    | match goal with
      | |- quiet (if ?b then _ else _) => destruct b
      | |- quiet (match ?x with _ => _ end) => destruct x
      | |- quiet (let (_, _) := ?x in _) => destruct x
      end ].

Ltac step_total :=
  repeat first
    [ solve [auto with total]
    | apply total_bind; [|intros ?]
    | apply total_tryCatch; intros ?
    | match goal with
      | |- total (if ?b then _ else _) => destruct b
      | |- total (match ?x with _ => _ end) => destruct x
      | |- total (let (_, _) := ?x in _) => destruct x
      end ].

Section Helpers.

Lemma quiet_canRun cmd args : quiet (canRun cmd args).
Proof. unfold canRun. step_quiet. Qed.

Lemma total_canRun cmd args : total (canRun cmd args).
Proof. unfold canRun. step_total. Qed.

Lemma quiet_resolvePreferred v args : quiet (resolvePreferred v args).
Proof. unfold resolvePreferred. pose proof quiet_canRun. step_quiet. Qed.

Lemma total_resolvePreferred v args : total (resolvePreferred v args).
Proof. unfold resolvePreferred. pose proof total_canRun. step_total. Qed.

Lemma quiet_findBinary cmd : quiet (findBinary cmd).
Proof. unfold findBinary. step_quiet. Qed.

Lemma total_findBinary cmd : total (findBinary cmd).
Proof. unfold findBinary. step_total. Qed.

Lemma quiet_firstFound cs : quiet (firstFound cs).
Proof.
  induction cs as [|c cs IH]; simpl; pose proof quiet_findBinary; step_quiet.
Qed.

Lemma total_firstFound cs : total (firstFound cs).
Proof.
  induction cs as [|c cs IH]; simpl; pose proof total_findBinary; step_total.
Qed.

Lemma quiet_loadMagickFormats b : quiet (loadMagickFormats b).
Proof. unfold loadMagickFormats. step_quiet. Qed.

Lemma total_loadMagickFormats b : total (loadMagickFormats b).
Proof. unfold loadMagickFormats. step_total. Qed.

Lemma quiet_loadFfmpegFormats b : quiet (loadFfmpegFormats b).
Proof. unfold loadFfmpegFormats. step_quiet. Qed.

Lemma total_loadFfmpegFormats b : total (loadFfmpegFormats b).
Proof. unfold loadFfmpegFormats. step_total. Qed.

Lemma total_loadPandocFormats b : total (loadPandocFormats b).
Proof. unfold loadPandocFormats. step_total. Qed.

Lemma quiet_loadPandocFormats b : quiet (loadPandocFormats b).
Proof.
  unfold loadPandocFormats. apply quiet_tryCatch; [|intros; auto with quiet].
  intros e s.
  assert (Q : forall args, quiet (tryCatch (out <- execFileAsync b args ;; ret (inr out))
                                    (fun err => ret (@inl JSError ExecOutput err))))
    by (intros; step_quiet).
  pose proof (Q ["--list-input-formats"] e s) as Q1.
  destruct (tryCatch _ _ e s) as [r1 s1]. simpl in Q1.
  pose proof (Q ["--list-output-formats"] e s1) as Q2.
  destruct (tryCatch _ _ e s1) as [r2 s2]. simpl in Q2.
  rewrite <- Q1, <- Q2.
  destruct r1 as [[?|?]|?], r2 as [[?|?]|?]; reflexivity.
Qed.

End Helpers.

#[export] Hint Resolve quiet_canRun total_canRun quiet_resolvePreferred
  total_resolvePreferred quiet_findBinary total_findBinary quiet_firstFound
  total_firstFound quiet_loadMagickFormats total_loadMagickFormats
  quiet_loadFfmpegFormats total_loadFfmpegFormats quiet_loadPandocFormats
  total_loadPandocFormats : quiet total.

(** ** The registry never throws *)

Section RegistryTotal.

Context `{PathOps}.

Lemma quiet_scanEntries root entries : quiet (scanEntries root entries).
Proof. induction entries as [|entry rest IH]; simpl; step_quiet. Qed.

Lemma total_scanEntries root entries : total (scanEntries root entries).
Proof. induction entries as [|entry rest IH]; simpl; step_total. Qed.

Lemma quiet_scanRoots roots : quiet (scanRoots roots).
Proof.
  induction roots as [|root rest IH]; simpl;
    pose proof quiet_scanEntries; step_quiet.
Qed.

Lemma total_scanRoots roots : total (scanRoots roots).
Proof. induction roots as [|root rest IH]; simpl; step_total. Qed.

Lemma quiet_findMagickOnWindows : quiet findMagickOnWindows.
Proof. unfold findMagickOnWindows. pose proof quiet_scanRoots. step_quiet. Qed.

Lemma total_findMagickOnWindows : total findMagickOnWindows.
Proof. unfold findMagickOnWindows. pose proof total_scanRoots. step_total. Qed.

#[local] Hint Resolve quiet_findMagickOnWindows total_findMagickOnWindows : quiet total.

Lemma total_ensureMagick : total ensureMagick.
Proof. unfold ensureMagick. step_total. Qed.

Lemma total_ensureFfmpeg : total ensureFfmpeg.
Proof. unfold ensureFfmpeg. step_total. Qed.

Lemma total_ensurePandoc : total ensurePandoc.
Proof. unfold ensurePandoc. step_total. Qed.

Lemma total_ensureLibreOffice : total ensureLibreOffice.
Proof. unfold ensureLibreOffice. step_total. Qed.

Lemma total_ensureTool k : total (ensureTool k).
Proof.
  destruct k; simpl;
    auto using total_ensureMagick, total_ensureFfmpeg, total_ensurePandoc,
               total_ensureLibreOffice.
Qed.

(** Every run of [detectConverter] resolves the four registry entries
    in turn and applies the chain of tests to them. *)
Lemma detectConverter_run (ext : string) (e : Env) (s : State) :
  exists magick ffmpeg pandoc libreoffice s1 s2 s3 s4,
    ensureMagick e s = (Returned magick, s1)
    /\ ensureFfmpeg e s1 = (Returned ffmpeg, s2)
    /\ ensurePandoc e s2 = (Returned pandoc, s3)
    /\ ensureLibreOffice e s3 = (Returned libreoffice, s4)
    /\ detectConverter ext e s
       = (Returned (chooseConverter ext magick ffmpeg pandoc libreoffice), s4).
Proof.
  destruct (total_ensureMagick e s) as [m Hm].
  destruct (ensureMagick e s) as [r1 s1] eqn:E1. simpl in Hm. subst r1.
  destruct (total_ensureFfmpeg e s1) as [f Hf].
  destruct (ensureFfmpeg e s1) as [r2 s2] eqn:E2. simpl in Hf. subst r2.
  destruct (total_ensurePandoc e s2) as [p Hp].
  destruct (ensurePandoc e s2) as [r3 s3] eqn:E3. simpl in Hp. subst r3.
  destruct (total_ensureLibreOffice e s3) as [l Hl].
  destruct (ensureLibreOffice e s3) as [r4 s4] eqn:E4. simpl in Hl. subst r4.
  exists m, f, p, l, s1, s2, s3, s4.
  unfold detectConverter, bind. rewrite E1, E2, E3, E4.
  repeat (split; [reflexivity|]). reflexivity.
Qed.

End RegistryTotal.

(** ** Converter resolver *)

Section Choose.

Variables (ext : string) (magick ffmpeg pandoc libreoffice : option ToolFormats).

Let chosen := chooseConverter ext magick ffmpeg pandoc libreoffice.

Lemma accepts_available (t : option ToolFormats) :
  accepts t ext = true -> available t = true.
Proof. destruct t; simpl; [reflexivity | discriminate]. Qed.

(** The chain of tests in the code picks the tool the specification's
    order picks: the code's extra test (image tool for a listed
    extension that is not an image extension) is absorbed by the
    catch-all, which starts with the image tool. *)
Lemma chooseConverter_kind :
  option_map kind chosen = specPriority ext magick ffmpeg pandoc libreoffice.
Proof.
  subst chosen. unfold chooseConverter, specPriority, isImageExt.
  destruct (includes ext imagePreferredExts); simpl;
    destruct magick as [m|], ffmpeg as [f|], pandoc as [p|], libreoffice as [l|];
    simpl;
    repeat match goal with
           | |- context [includes ext (input ?t)] =>
               destruct (includes ext (input t)); simpl
           end; reflexivity.
Qed.

Lemma chooseConverter_tool (d : ConverterDecision) :
  chosen = Some d ->
  entryOf (kind d) magick ffmpeg pandoc libreoffice = Some (tool d)
  /\ category d = getCategory ext (kind d)
  /\ defaultOutput d = pickDefaultOutput (category d) (output (tool d)).
Proof.
  subst chosen. unfold chooseConverter.
  destruct (includes ext imagePreferredExts); simpl;
    destruct magick as [m|], ffmpeg as [f|], pandoc as [p|], libreoffice as [l|];
    simpl;
    repeat match goal with
           | |- context [includes ext (input ?t)] =>
               destruct (includes ext (input t)); simpl
           end;
    intros [= <-]; repeat split.
Qed.

Lemma chooseConverter_absent :
  chosen = None
  <-> magick = None /\ ffmpeg = None /\ pandoc = None /\ libreoffice = None.
Proof.
  subst chosen. unfold chooseConverter.
  destruct (includes ext imagePreferredExts); simpl;
    destruct magick as [m|], ffmpeg as [f|], pandoc as [p|], libreoffice as [l|];
    simpl;
    repeat match goal with
           | |- context [includes ext (input ?t)] =>
               destruct (includes ext (input t)); simpl
           end;
    split; try discriminate; try (intros (? & ? & ? & ?); discriminate);
    repeat split.
Qed.

(** A tool that lists [ext] is the one chosen exactly when no earlier
    rule takes the extension away from it. *)
Lemma chooseConverter_listed (k : ConverterKind) :
  accepts (entryOf k magick ffmpeg pandoc libreoffice) ext = true ->
  (option_map kind chosen = Some k
   <-> outranked ext k magick ffmpeg pandoc libreoffice = false).
Proof.
  rewrite chooseConverter_kind. unfold specPriority, outranked, isImageExt.
  generalize (includes ext imagePreferredExts). intros img.
  destruct k; simpl; intros Hacc;
    try rewrite Hacc;
    try rewrite (accepts_available _ Hacc);
    destruct img; simpl;
    destruct (accepts magick ext) eqn:Am; simpl;
    destruct (accepts ffmpeg ext) eqn:Af; simpl;
    destruct (accepts pandoc ext) eqn:Ap; simpl;
    destruct (accepts libreoffice ext) eqn:Al; simpl;
    try discriminate;
    try rewrite (accepts_available _ Am);
    split; congruence.
Qed.

End Choose.

(** C2, as stated, fails: with pandoc and LibreOffice installed, [html]
    is in the office tool's input set and is not an image extension,
    yet the markup tool is chosen, not the office tool. *)
Lemma detectConverter_html_not_office :
  exists p l d s',
    registryRun Sample.docsMac initialState None None (Some p) (Some l) s'
    /\ accepts (Some l) "html" = true
    /\ isImageExt "html" = false
    /\ detectConverter "html" Sample.docsMac initialState = (Returned (Some d), s')
    /\ kind d = Pandoc
    /\ kind d <> Libreoffice.
Proof.
  destruct (detectConverter_run "html" Sample.docsMac initialState)
    as (m & f & p & l & s1 & s2 & s3 & s4 & E1 & E2 & E3 & E4 & E).
  pose proof E1 as R1. pose proof E2 as R2. pose proof E3 as R3. pose proof E4 as R4.
  vm_compute in E1. injection E1 as <- <-.
  vm_compute in E2. injection E2 as <- <-.
  vm_compute in E3. destruct p as [p|]; [|discriminate E3].
  injection E3 as Hp <-.
  vm_compute in E4. destruct l as [l|]; [|discriminate E4].
  injection E4 as Hl Hs4.
  destruct (chooseConverter "html" None None (Some p) (Some l)) as [d|] eqn:C;
    [|subst p l; vm_compute in C; discriminate C].
  exists p, l, d, s4.
  split.
  { unfold registryRun. do 3 eexists.
    split; [exact R1 | split; [exact R2 | split; [exact R3 | exact R4]]]. }
  split; [now subst l|].
  split; [reflexivity|].
  split; [exact E|].
  assert (K : kind d = Pandoc)
    by (subst p l; vm_compute in C; now injection C as <-).
  split; [exact K | rewrite K; discriminate].
Qed.

(** C2 (amended): [detectConverter] never throws; over the four
    registry entries it picks the image tool for a recognized image
    extension the image tool lists, else the media, markup and office
    tool in turn for an extension that tool lists, else whichever tool is
    available in the same order; it returns nothing exactly when no tool
    is available; and a tool that lists the extension is the one picked
    exactly when no rule earlier in that order applies. *)
Theorem detectConverter_priority `{PathOps} (ext : string) (e : Env) (s : State) :
  exists magick ffmpeg pandoc libreoffice s' r,
    registryRun e s magick ffmpeg pandoc libreoffice s'
    /\ detectConverter ext e s = (Returned r, s')
    /\ option_map kind r = specPriority ext magick ffmpeg pandoc libreoffice
    /\ (forall d, r = Some d ->
                  entryOf (kind d) magick ffmpeg pandoc libreoffice = Some (tool d))
    /\ (r = None <->
        magick = None /\ ffmpeg = None /\ pandoc = None /\ libreoffice = None)
    /\ (forall k,
           accepts (entryOf k magick ffmpeg pandoc libreoffice) ext = true ->
           (option_map kind r = Some k
            <-> outranked ext k magick ffmpeg pandoc libreoffice = false)).
Proof.
  destruct (detectConverter_run ext e s)
    as (m & f & p & l & s1 & s2 & s3 & s4 & E1 & E2 & E3 & E4 & E).
  exists m, f, p, l, s4, (chooseConverter ext m f p l).
  split; [now exists s1, s2, s3|].
  split; [exact E|].
  split; [apply chooseConverter_kind|].
  split; [intros d Hd; now apply (chooseConverter_tool ext m f p l d)|].
  split; [apply chooseConverter_absent|].
  apply chooseConverter_listed.
Qed.

Lemma detectConverter_priority_witness :
  exists d s',
    detectConverter "html" Sample.docsMac initialState = (Returned (Some d), s')
    /\ kind d = Pandoc.
Proof.
  destruct (detectConverter_priority "html" Sample.docsMac initialState)
    as (m & f & p & l & s' & r & (s1 & s2 & s3 & E1 & E2 & E3 & E4) & E & K & _).
  vm_compute in E1. injection E1 as <- <-.
  vm_compute in E2. injection E2 as <- <-.
  vm_compute in E3. injection E3 as <- <-.
  vm_compute in E4. injection E4 as <- <-.
  destruct r as [d|]; [|discriminate K].
  exists d. eexists. split; [exact E|].
  vm_compute in K. now injection K.
Defined.

(** ** The suggested output of a decision *)

(** C5: the [defaultOutput] of every decision [detectConverter] returns
    is a member of the chosen tool's output list when that list is not
    empty, and is the first entry of the preference list of the
    decision's category when it is empty. *)
Theorem detectConverter_defaultOutput `{PathOps}
    (ext : string) (e : Env) (s s' : State) (d : ConverterDecision) :
  detectConverter ext e s = (Returned (Some d), s') ->
  (output (tool d) <> [] -> In (defaultOutput d) (output (tool d)))
  /\ (output (tool d) = [] ->
      defaultOutput d = firstOr (preferredByCategory (category d)) "png"
      /\ exists rest, preferredByCategory (category d) = defaultOutput d :: rest).
Proof.
  intros Hrun.
  destruct (detectConverter_run ext e s)
    as (m & f & p & l & s1 & s2 & s3 & s4 & _ & _ & _ & _ & E).
  rewrite E in Hrun. injection Hrun as Hd _.
  destruct (chooseConverter_tool ext m f p l d Hd) as (_ & _ & Hout).
  rewrite Hout. split.
  - intros Hne. now apply pickDefaultOutput_in_outputs.
  - intros ->. apply pickDefaultOutput_no_outputs.
Qed.

Lemma detectConverter_defaultOutput_witness :
  exists d s',
    detectConverter "heic" Sample.imageMac initialState = (Returned (Some d), s')
    /\ output (tool d) <> []
    /\ In (defaultOutput d) (output (tool d)).
Proof.
  destruct (detectConverter "heic" Sample.imageMac initialState)
    as [[[d|]|err] s'] eqn:E; try (vm_compute in E; discriminate E).
  exists d, s'. split; [reflexivity|].
  assert (Hne : output (tool d) <> []).
  { vm_compute in E. injection E as <- _. discriminate. }
  split; [exact Hne|].
  exact (proj1 (detectConverter_defaultOutput "heic" Sample.imageMac
                  initialState s' d E) Hne).
Defined.

(** ** Conversion invoker *)

Section Invoker.

Context `{PathOps}.

(** The overwrite check throws inside its own [try], so its [catch]
    swallows the error it has just raised: whether the destination is
    there or not, the block returns normally and changes nothing. *)
Lemma overwrite_guard_swallowed (p : string) (e : Env) (s : State) :
  tryCatch (access p ;;; throw (newError existsMessage)) (fun _ => ret tt) e s
  = (Returned tt, s).
Proof.
  unfold tryCatch, bind, access, throw, ret.
  destruct (fsAccess e p); reflexivity.
Qed.

Lemma runCommand_spawns_once cmd args (e : Env) (s : State) :
  spawned (snd (runCommand cmd args e s)) = (cmd, args) :: spawned s.
Proof.
  unfold runCommand, tryCatch, execFileAsync, throw.
  destruct (execFile e cmd args); reflexivity.
Qed.

(** Every call starts exactly one child process, with or without
    [overwrite], with or without a file at the destination. *)
Lemma convertWithTool_spawns_once (opts : ConvertOptions) (e : Env) (s : State) :
  spawnCount (convertWithTool opts) e s = 1.
Proof.
  unfold spawnCount, convertWithTool.
  assert (G : forall (m : M unit), m e s = (Returned tt, s) ->
              forall cmd args (r : string),
                spawned (snd (bind m (fun _ => runCommand cmd args ;;; ret r) e s))
                = (cmd, args) :: spawned s).
  { intros m Hm cmd args r. unfold bind at 1. rewrite Hm.
    pose proof (runCommand_spawns_once cmd args e s) as R.
    unfold bind. destruct (runCommand cmd args e s) as [[o|err] s1]; exact R. }
  assert (Hguard : (if negb (overwrite opts)
                    then tryCatch (access (outputPath opts) ;;;
                                   throw (newError existsMessage))
                                  (fun _ => ret tt)
                    else ret tt) e s = (Returned tt, s)).
  { destruct (overwrite opts); simpl;
      [reflexivity | apply overwrite_guard_swallowed]. }
  destruct (converter opts);
    match goal with
    | |- context [bind ?m (fun _ => bind (runCommand ?c ?a) (fun _ => ret ?r))] =>
        change (bind m (fun _ => bind (runCommand c a) (fun _ => ret r)))
          with (bind m (fun _ => runCommand c a ;;; ret r));
        rewrite (G m Hguard c a r)
    end; cbn [List.length]; lia.
Qed.

End Invoker.

(** C1, at the failing input: [overwrite] is off and the destination
    [/home/u/photo.png] exists, yet [convertWithTool] raises no error:
    it starts the image tool (one child process) and returns the
    destination path. *)
Theorem convertWithTool_existing_destination_converted :
  let opts := mkOpts "/home/u/photo.heic" "/home/u/photo.png" "png" false Magick
                     (mkTool "magick" ["heic"; "jpg"; "png"] ["jpg"; "png"]) in
  fsAccess Sample.imageMac (outputPath opts) = true
  /\ overwrite opts = false
  /\ convertWithTool opts Sample.imageMac initialState
     = (Returned "/home/u/photo.png",
        mkState emptyCache
                [("magick", ["/home/u/photo.heic"; "/home/u/photo.png"])] 0)
  /\ spawnCount (convertWithTool opts) Sample.imageMac initialState = 1.
Proof. repeat split. Qed.

(** ** Clipboard file resolver *)

Section ClipboardResolver.

Context `{PathOps}.

(** With text on the clipboard and no file reference, the resolver
    stops at the text: no child process, no token, no cache entry;
    it answers with the path the text names when that is accessible,
    with nothing when it is not, and it fails when the text is a
    [file://] URL that [fileURLToPath] rejects. *)
Lemma readClipboardFile_text_first (e : Env) (s : State) :
  someTruthy (file (clipboardRead e)) = false ->
  truthy (text (clipboardRead e)) = true ->
  snd (readClipboardFile e s) = s
  /\ (fst (readClipboardFile e s) = Returned None
      \/ (exists p, fst (readClipboardFile e s) = Returned (Some p)
                    /\ fsAccess e p = true)
      \/ (exists err, fst (readClipboardFile e s) = Thrown err
                      /\ startsWith "file://" (trim (text (clipboardRead e))) = true
                      /\ fileURLToPath e (trim (text (clipboardRead e))) = None)).
Proof.
  intros Hfile Htext.
  unfold readClipboardFile, bind, asks, ret, tryCatch, fileURLToPathM, access.
  rewrite Hfile, Htext.
  destruct (truthy (trim (text (clipboardRead e)))) eqn:T; simpl;
    [|split; [reflexivity | now left]].
  destruct (startsWith "file://" (trim (text (clipboardRead e)))) eqn:U.
  - destruct (fileURLToPath e (trim (text (clipboardRead e)))) as [p|] eqn:F.
    + destruct (fsAccess e p) eqn:Acc; simpl; split; try reflexivity;
        [right; left; now exists p | now left].
    + simpl. split; [reflexivity|]. right; right. eexists. now repeat split.
  - destruct (fsAccess e (trim (text (clipboardRead e)))) eqn:Acc; simpl;
      split; try reflexivity; [right; left; eauto | now left].
Qed.

(** Image capture is what is left when there is neither a file
    reference nor text. *)
Lemma readClipboardFile_image_last (e : Env) (s : State) :
  someTruthy (file (clipboardRead e)) = false ->
  truthy (text (clipboardRead e)) = false ->
  readClipboardFile e s
  = (imagePath <- readClipboardImageToTemp ;;
     if someTruthy imagePath then ret imagePath else ret None) e s.
Proof.
  intros Hfile Htext.
  unfold readClipboardFile, bind at 1, asks. now rewrite Hfile, Htext.
Qed.

End ClipboardResolver.

(** C10, at the failing input: the clipboard holds no file reference
    and the text [file://nas/photo.png], which names no accessible path;
    [fileURLToPath] rejects the URL outside the [try], so
    [readClipboardFile] throws where the specification has it return nothing.
    No image capture is attempted (the state is untouched). *)
Theorem readClipboardFile_remote_url_throws :
  file (clipboardRead Sample.remoteUrlMac) = None
  /\ truthy (text (clipboardRead Sample.remoteUrlMac)) = true
  /\ (forall p, fsAccess Sample.remoteUrlMac p = false)
  /\ readClipboardFile Sample.remoteUrlMac initialState
     = (Thrown (newError "Invalid file URL"), initialState)
  /\ readClipboardFile Sample.plainTextMac initialState
     = (Returned None, initialState).
Proof. repeat split. Qed.

(** ** Facts about [path.posix] *)

Section Append.

Lemma includesChar_app (c : ascii) (a b : string) :
  includesChar c (a ++ b) = includesChar c a || includesChar c b.
Proof.
  induction a as [|d a IH]; simpl; [reflexivity|].
  rewrite IH. now rewrite orb_assoc.
Qed.

Lemma length_app (a b : string) :
  String.length (a ++ b) = String.length a + String.length b.
Proof. induction a as [|d a IH]; simpl; [reflexivity | now rewrite IH]. Qed.

Lemma app_assoc_s (a b c : string) : (a ++ b) ++ c = a ++ (b ++ c).
Proof. induction a as [|d a IH]; simpl; [reflexivity | now rewrite IH]. Qed.

Lemma app_empty_r (a : string) : a ++ EmptyString = a.
Proof. induction a as [|d a IH]; simpl; [reflexivity | now rewrite IH]. Qed.


Lemma app_cancel_r (b x y : string) : x ++ b = y ++ b -> x = y.
Proof.
  revert y. induction x as [|c x IH]; intros [|d y] E; simpl in *.
  - reflexivity.
  - apply (f_equal String.length) in E. simpl in E. rewrite length_app in E. lia.
  - apply (f_equal String.length) in E. simpl in E. rewrite length_app in E. lia.
  - injection E as -> E. f_equal. now apply IH.
Qed.

Lemma head_app (a b : string) :
  truthy a = true -> head (a ++ b) = head a.
Proof. destruct a; [discriminate | reflexivity]. Qed.

Lemma last_app (a b : string) :
  truthy b = true -> last (a ++ b) = last b.
Proof.
  intros Hb. induction a as [|c a IH]; simpl; [reflexivity|].
  destruct (a ++ b) as [|d r] eqn:E; [|exact IH].
  destruct a; destruct b; simpl in *; discriminate.
Qed.

Lemma truthy_app_r (a b : string) : truthy b = true -> truthy (a ++ b) = true.
Proof. destruct a; simpl; auto. Qed.

Lemma last_includes (c : ascii) (s : string) :
  includesChar c s = false ->
  match last s with Some d => Ascii.eqb d c = false | None => True end.
Proof.
  induction s as [|d s IH]; simpl; [exact (fun _ => I)|].
  intros Hc. apply orb_false_iff in Hc as [Hd Hs].
  destruct s as [|d' s']; [now rewrite Ascii.eqb_sym | now apply IH].
Qed.

End Append.

Section Split.

Variable sep : ascii.

Lemma splitOn_not_nil (s : string) : splitOn sep s <> [].
Proof.
  destruct s as [|c r]; simpl; [discriminate|].
  destruct (Ascii.eqb c sep); [discriminate|].
  destruct (splitOn sep r); discriminate.
Qed.

(** A string without the separator is its own single piece. *)
Lemma splitOn_whole (s : string) :
  includesChar sep s = false -> splitOn sep s = [s].
Proof.
  induction s as [|c r IH]; simpl; [reflexivity|].
  intros Hc. apply orb_false_iff in Hc as [Hd Hr].
  rewrite Ascii.eqb_sym, Hd. now rewrite (IH Hr).
Qed.

Lemma splitOn_app (a b : string) :
  splitOn sep (a ++ String sep b) = (splitOn sep a ++ splitOn sep b)%list.
Proof.
  induction a as [|c a IH]; simpl.
  - now rewrite Ascii.eqb_refl.
  - destruct (Ascii.eqb c sep); [now rewrite IH|].
    rewrite IH. pose proof (splitOn_not_nil a) as Hne.
    destruct (splitOn sep a) as [|l ls]; [contradiction | reflexivity].
Qed.

(** No piece contains the separator. *)
Lemma splitOn_pieces (s piece : string) :
  In piece (splitOn sep s) -> includesChar sep piece = false.
Proof.
  revert piece. induction s as [|c r IH]; simpl; intros piece.
  - now intros [<- | []].
  - destruct (Ascii.eqb c sep) eqn:E.
    + intros [<- | Hin]; [reflexivity | now apply IH].
    + pose proof (splitOn_not_nil r) as Hne.
      destruct (splitOn sep r) as [|l ls]; [contradiction|].
      intros [<- | Hin].
      * simpl. rewrite Ascii.eqb_sym, E. apply IH. now left.
      * apply IH. now right.
Qed.

End Split.

Section PosixFacts.

Import Posix.

Lemma plainName_inv (f : string) :
  plainName f = true ->
  truthy f = true /\ includesChar "/" f = false
  /\ String.eqb f "." = false /\ String.eqb f ".." = false.
Proof.
  unfold plainName. intros Hp.
  repeat (apply andb_true_iff in Hp as [Hp ?]).
  repeat split; try now apply negb_true_iff. exact Hp.
Qed.

Lemma normStep_plain (allow : bool) (stack : list string) (f : string) :
  plainName f = true -> normStep allow stack f = f :: stack.
Proof.
  intros Hp. apply plainName_inv in Hp as (Ht & _ & Hd & Hdd).
  unfold normStep. now rewrite Ht, Hd, Hdd.
Qed.

Lemma join_snoc (kept : list string) (f : string) :
  join "/" (kept ++ [f])
  = match kept with
    | [] => EmptyString
    | _ => join "/" kept ++ "/"
    end ++ f.
Proof.
  unfold join. induction kept as [|x kept IH]; [reflexivity|].
  destruct kept as [|y kept].
  - simpl. now rewrite app_assoc_s.
  - change (String.concat "/" ((x :: y :: kept) ++ [f]))
      with (x ++ "/" ++ String.concat "/" ((y :: kept) ++ [f])).
    rewrite IH.
    change (String.concat "/" (x :: y :: kept))
      with (x ++ "/" ++ String.concat "/" (y :: kept)).
    now rewrite !app_assoc_s.
Qed.

(** Normalizing a path that ends in one ordinary segment keeps that
    segment, behind whatever the directory normalizes to. *)
Lemma normalizeString_snoc (dir f : string) (allow : bool) :
  plainName f = true ->
  normalizeString (dir ++ String "/" f) allow
  = match rev (normStack allow (segments dir) []) with
    | [] => EmptyString
    | kept => join "/" kept ++ "/"
    end ++ f.
Proof.
  intros Hp. pose proof (plainName_inv f Hp) as (_ & Hs & _ & _).
  unfold normalizeString, segments, normStack.
  rewrite splitOn_app, (splitOn_whole _ _ Hs), fold_left_app. simpl.
  rewrite (normStep_plain _ _ _ Hp). simpl.
  rewrite join_snoc.
  now destruct (rev (fold_left (normStep allow) (splitOn "/" dir) [])).
Qed.

(** [path.join(dir, f)] for an ordinary file name [f]: the directory
    part of [dir], then [f] itself. *)
Lemma joinPaths_plain (dir f : string) :
  plainName f = true ->
  joinPaths [dir; f] = directoryPart dir ++ f.
Proof.
  intros Hp. pose proof (plainName_inv f Hp) as (Ht & Hs & Hd & Hdd).
  assert (Hlast : trailingSeparator f = false /\ isAbsolute f = false).
  { unfold trailingSeparator, isAbsolute, isSlash.
    pose proof (last_includes _ _ Hs) as HL.
    destruct f as [|c r]; [discriminate|]. simpl in Hs.
    apply orb_false_iff in Hs as [Hc _].
    split; [|simpl; now rewrite Ascii.eqb_sym].
    destruct (last (String c r)); [exact HL | reflexivity]. }
  destruct Hlast as [Htr Habs].
  assert (Hparts : filter truthy [dir; f] = if truthy dir then [dir; f] else [f]).
  { simpl. rewrite Ht. now destruct (truthy dir). }
  unfold joinPaths, directoryPart. rewrite Hparts.
  destruct (truthy dir) eqn:Td; cbv beta iota; simpl negb; cbv iota.
  - change (join "/" [dir; f]) with (dir ++ String "/" f).
    unfold normalize.
    assert (T1 : truthy (dir ++ String "/" f) = true)
      by (apply truthy_app_r; reflexivity).
    assert (T2 : trailingSeparator (dir ++ String "/" f) = false).
    { unfold trailingSeparator. rewrite last_app by reflexivity.
      unfold trailingSeparator in Htr.
      destruct f as [|c r]; [discriminate|]. exact Htr. }
    assert (T3 : isAbsolute (dir ++ String "/" f) = isAbsolute dir).
    { unfold isAbsolute. now rewrite head_app. }
    rewrite T1, T2, T3. simpl negb. cbv iota.
    rewrite (normalizeString_snoc _ _ _ Hp).
    destruct (rev (normStack (negb (isAbsolute dir)) (segments dir) []))
      as [|seg kept].
    + change (EmptyString ++ f) with f. rewrite Ht. simpl negb. cbv iota.
      destruct (isAbsolute dir); reflexivity.
    + rewrite (truthy_app_r _ f Ht). simpl negb. cbv iota.
      destruct (isAbsolute dir); reflexivity.
  - change (join "/" [f]) with f. unfold normalize.
    rewrite Ht, Htr, Habs. simpl negb. cbv iota.
    unfold normalizeString, segments, normStack.
    rewrite (splitOn_whole _ _ Hs). simpl fold_left.
    rewrite (normStep_plain _ _ _ Hp).
    change (join "/" (rev [f])) with f. now rewrite Ht.
Qed.

Lemma lastPortion_no_slash (p : string) : includesChar "/" (lastPortion p) = false.
Proof.
  unfold lastPortion, segments.
  assert (G : forall segs acc,
             (forall x, In x segs -> includesChar "/" x = false) ->
             includesChar "/" acc = false ->
             includesChar "/"
               (fold_left (fun acc seg => if truthy seg then seg else acc) segs acc)
             = false).
  { induction segs as [|x segs IH]; simpl; intros acc Hall Hacc; [exact Hacc|].
    apply IH; [intros y Hy; apply Hall; now right|].
    destruct (truthy x); [apply Hall; now left | exact Hacc]. }
  apply G; [intros x Hx; exact (splitOn_pieces _ _ _ Hx) | reflexivity].
Qed.

Lemma stripSuffix_unfold (suffix s : string) :
  stripSuffix suffix s
  = if String.eqb s suffix then Some EmptyString
    else match s with
         | EmptyString => None
         | String c r => option_map (String c) (stripSuffix suffix r)
         end.
Proof. destruct s; reflexivity. Qed.

Lemma stripSuffix_app (suffix s b : string) :
  stripSuffix suffix s = Some b -> s = b ++ suffix.
Proof.
  revert b. induction s as [|c r IH]; intros b; rewrite stripSuffix_unfold.
  - destruct (String.eqb EmptyString suffix) eqn:E; [|discriminate].
    intros [= <-]. now apply String.eqb_eq in E.
  - destruct (String.eqb (String c r) suffix) eqn:E.
    + intros [= <-]. now apply String.eqb_eq in E.
    + destruct (stripSuffix suffix r) as [b'|]; [|discriminate].
      intros [= <-]. simpl. f_equal. now apply IH.
Qed.

Lemma basename_no_slash (p suffix : string) :
  includesChar "/" (basename p suffix) = false.
Proof.
  unfold basename. pose proof (lastPortion_no_slash p) as HL.
  destruct (truthy suffix); simpl; [|exact HL].
  destruct (stripSuffix suffix (lastPortion p)) as [b|] eqn:E; [|exact HL].
  destruct (truthy b); [|exact HL].
  apply stripSuffix_app in E. rewrite E, includesChar_app in HL.
  now apply orb_false_iff in HL.
Qed.

End PosixFacts.

(** ** Temporary output paths *)

Section ClipboardPath.

Import Posix.

Variables (base unique ext : string).

Hypothesis base_plain : includesChar "/" base = false.
Hypothesis unique_plain : includesChar "/" unique = false.
Hypothesis ext_plain : includesChar "/" ext = false.


End ClipboardPath.




(** ** Lists of formats *)

Section Listed.

Lemma ascendingb_complete (l : list string) : ascending l -> ascendingb l = true.
Proof.
  unfold ascending. induction 1 as [|a l Hs IH Hd]; [reflexivity|].
  destruct l as [|b l]; [reflexivity|].
  change (ascendingb (a :: b :: l)) with (String.leb a b && ascendingb (b :: l)).
  inversion Hd; subst. rewrite IH. now apply andb_true_iff.
Qed.

Lemma uniq_In (x : string) (l : list string) : In x (uniq l) <-> In x l.
Proof.
  induction l as [|a l IH]; simpl; [reflexivity|].
  rewrite filter_In, IH. split.
  - intros [-> | [Hin _]]; auto.
  - intros [-> | Hin]; [now left|].
    destruct (String.eqb x a) eqn:E.
    + left. apply String.eqb_eq in E. now subst.
    + right. split; [assumption | reflexivity].
Qed.

Lemma uniq_NoDup (l : list string) : NoDup (uniq l).
Proof.
  induction l as [|a l IH]; simpl; constructor.
  - rewrite filter_In. intros [_ E]. cbv beta in E.
    now rewrite String.eqb_refl in E.
  - now apply NoDup_filter.
Qed.

Lemma uniqueSorted_In (x : string) (l : list string) :
  In x (uniqueSorted l) <-> In x l /\ truthy x = true.
Proof.
  unfold uniqueSorted.
  pose proof (CodeUnitSort.Permuted_sort (uniq (filter truthy l))) as P.
  split; intros Hin.
  - apply (Permutation_in _ (Permutation_sym P)) in Hin.
    apply (proj1 (uniq_In _ _)) in Hin. exact (proj1 (filter_In _ _ _) Hin).
  - apply (Permutation_in _ P). apply (proj2 (uniq_In _ _)).
    exact (proj2 (filter_In _ _ _) Hin).
Qed.

Lemma uniqueSorted_NoDup (l : list string) : NoDup (uniqueSorted l).
Proof.
  unfold uniqueSorted.
  exact (Permutation_NoDup (CodeUnitSort.Permuted_sort _) (uniq_NoDup _)).
Qed.

Lemma uniqueSorted_ascending (l : list string) : ascending (uniqueSorted l).
Proof. exact (CodeUnitSort.Sorted_sort _). Qed.

(** Where a leading dot of a normalized name comes from. *)
Lemma normalizeExt_leading_dot (raw : string) :
  startsWithDot (normalizeExt raw) = true -> startsWith ".." (trim raw) = true.
Proof.
  unfold normalizeExt, startsWithDot.
  destruct (trim raw) as [|c r]; [discriminate|].
  unfold stripLeadingDot.
  destruct (Ascii.eqb c ".") eqn:E.
  - apply Ascii.eqb_eq in E. subst c.
    destruct r as [|d r]; [discriminate|]. simpl.
    rewrite lower_dot. intros Hd. apply Ascii.eqb_eq in Hd. subst d. reflexivity.
  - assert (S : match c with
                | "."%char => r
                | _ => String c r
                end = String c r).
    { destruct c as [[] [] [] [] [] [] [] []]; try reflexivity. discriminate E. }
    rewrite S. simpl. now rewrite lower_dot, E.
Qed.

Lemma normalizedEntry_image (raw : string) :
  truthy (normalizeExt raw) = true -> normalizedEntry (normalizeExt raw).
Proof.
  intros Ht. split; [|split].
  - intros E. now rewrite E in Ht.
  - apply normalizeExt_lower.
  - exists raw. split; [reflexivity | apply normalizeExt_leading_dot].
Qed.

Lemma uniqueSorted_listed (l : list string) : images l -> listedOk (uniqueSorted l).
Proof.
  intros Himg. split; [apply uniqueSorted_NoDup|].
  split; [apply uniqueSorted_ascending|].
  intros x Hx. apply uniqueSorted_In in Hx as [Hin Ht].
  destruct (Himg x Hin) as [raw ->]. now apply normalizedEntry_image.
Qed.

Lemma listedOk_nil : listedOk [].
Proof. split; [constructor | split; [constructor | intros x []]]. Qed.

Lemma images_map (l : list string) : images (map normalizeExt l).
Proof. intros x Hx. apply in_map_iff in Hx as (raw & <- & _). now exists raw. Qed.

Lemma images_concat (ls : list (list string)) :
  (forall l, In l ls -> images l) -> images (List.concat ls).
Proof.
  intros Hall x Hx. apply in_concat in Hx as (l & Hl & Hin). exact (Hall l Hl x Hin).
Qed.

Lemma images_nil : images [].
Proof. intros x []. Qed.

Lemma images_one (raw : string) : images [normalizeExt raw].
Proof. intros x [<- | []]. now exists raw. Qed.

Lemma magickLine_images (line : string) :
  images (fst (magickLine line)) /\ images (snd (magickLine line)).
Proof.
  unfold magickLine.
  destruct (negb (truthy (trim line)) || _ || _); [split; apply images_nil|].
  destruct (magickFields (trim line)) as [format mode].
  destruct (negb (truthy format) || negb (truthy mode)); [split; apply images_nil|].
  split; simpl;
    match goal with
    | |- images (if ?b then _ else _) => destruct b
    end; auto using images_nil, images_one.
Qed.

Lemma ffmpegLine_images (line : string) :
  images (fst (ffmpegLine line)) /\ images (snd (ffmpegLine line)).
Proof.
  unfold ffmpegLine.
  destruct (ffmpegPattern line) as [[[demux mux] names]|];
    [|split; apply images_nil].
  destruct demux, mux; split; simpl; auto using images_nil, images_map.
Qed.

Lemma magickPushed_images (out : string) :
  images (fst (magickPushed out)) /\ images (snd (magickPushed out)).
Proof.
  unfold magickPushed. simpl.
  split; apply images_concat; intros l Hl;
    apply in_map_iff in Hl as (row & <- & Hrow);
    apply in_map_iff in Hrow as (line & <- & _);
    apply magickLine_images.
Qed.

Lemma ffmpegPushed_images (out : string) :
  images (fst (ffmpegPushed out)) /\ images (snd (ffmpegPushed out)).
Proof.
  unfold ffmpegPushed. simpl.
  split; apply images_concat; intros l Hl;
    apply in_map_iff in Hl as (row & <- & Hrow);
    apply in_map_iff in Hrow as (line & <- & _);
    apply ffmpegLine_images.
Qed.

(** The office tool's tables: no duplicates, nothing empty, all lower
    case, no leading dot; but in the order written, not sorted. *)
Lemma fixedOk_check (l : list string) :
  NoDup l ->
  forallb (fun x => truthy x && String.eqb (toLowerCase x) x
                    && negb (startsWithDot x)) l = true ->
  fixedOk l.
Proof.
  intros Hnd Hall. split; [exact Hnd|].
  intros x Hx. rewrite forallb_forall in Hall. specialize (Hall x Hx).
  apply andb_true_iff in Hall as [Hall Hdot].
  apply andb_true_iff in Hall as [Ht Hl].
  split; [|split].
  - intros E. now rewrite E in Ht.
  - now apply String.eqb_eq.
  - now apply negb_true_iff.
Qed.

Lemma NoDup_check (l : list string) : uniq l = l -> NoDup l.
Proof. intros <-. apply uniq_NoDup. Qed.

Lemma libreOffice_tables_fixed : fixedOk libreOfficeInput /\ fixedOk libreOfficeOutput.
Proof. split; (apply fixedOk_check; [apply NoDup_check|]); reflexivity. Qed.

Lemma libreOffice_tables_unsorted :
  ~ ascending libreOfficeInput /\ ~ ascending libreOfficeOutput.
Proof.
  split; intros Hs; apply ascendingb_complete in Hs; discriminate Hs.
Qed.

End Listed.

(** ** The registry's invariant *)

Local Open Scope monad_scope.

Section Stepping.

Context {A B : Type}.

(** Stepping over a helper that never throws and leaves the cache
    alone: the continuation starts with the same cache [c]. *)
Lemma post_step e (m : M A) (k : A -> M B) s c Q X :
  quiet m -> total m -> toolCache s = c ->
  (forall a s1, toolCache s1 = c -> post e (k a) s1 Q X) ->
  post e (bind m k) s Q X.
Proof.
  intros Hq Ht Hc Hk. apply post_bind, post_quiet_total; try assumption.
  intros a s1 Hs1. apply Hk. congruence.
Qed.

End Stepping.

Lemma post_setCache {B} e f (k : unit -> M B) s Q X :
  post e (k tt) (mkState (f (toolCache s)) (spawned s) (uuidsDrawn s)) Q X ->
  post e (bind (setCache f) k) s Q X.
Proof. exact (fun h => h). Qed.

Lemma loadMagickFormats_listed b e s :
  post e (loadMagickFormats b) s
       (fun r s' => toolCache s' = toolCache s /\ bothListed r) (fun _ _ => False).
Proof.
  unfold loadMagickFormats, post, tryCatch, bind, execFileAsync, ret.
  destruct (execFile e b _) as [err|out].
  - split; [reflexivity | split; apply listedOk_nil].
  - pose proof (magickPushed_images (stdout out)) as [Hi Ho].
    destruct (magickPushed (stdout out)) as [i o].
    split; [reflexivity | split; now apply uniqueSorted_listed].
Qed.

Lemma loadFfmpegFormats_listed b e s :
  post e (loadFfmpegFormats b) s
       (fun r s' => toolCache s' = toolCache s /\ bothListed r) (fun _ _ => False).
Proof.
  unfold loadFfmpegFormats, post, tryCatch, bind, execFileAsync, ret.
  destruct (execFile e b _) as [err|out].
  - split; [reflexivity | split; apply listedOk_nil].
  - pose proof (ffmpegPushed_images (stdout out)) as [Hi Ho].
    destruct (ffmpegPushed (stdout out)) as [i o].
    split; [reflexivity | split; now apply uniqueSorted_listed].
Qed.

Lemma loadPandocFormats_listed b e s :
  post e (loadPandocFormats b) s
       (fun r s' => toolCache s' = toolCache s /\ bothListed r) (fun _ _ => False).
Proof.
  unfold loadPandocFormats, post, tryCatch, bind, execFileAsync, ret.
  destruct (execFile e b ["--list-input-formats"]) as [err1|out1];
    destruct (execFile e b ["--list-output-formats"]) as [err2|out2];
    (split; [reflexivity | split]); try apply listedOk_nil;
    apply uniqueSorted_listed, images_map.
Qed.

(** Stepping over a loader: same cache, and both lists as
    [uniqueSorted] leaves them. *)
Lemma post_load {B} e (load : M (list string * list string))
    (k : list string * list string -> M B) s c Q X :
  (forall s0, post e load s0
                (fun r s' => toolCache s' = toolCache s0 /\ bothListed r)
                (fun _ _ => False)) ->
  toolCache s = c ->
  (forall r s1, toolCache s1 = c -> bothListed r -> post e (k r) s1 Q X) ->
  post e (bind load k) s Q X.
Proof.
  intros Hload Hc Hk. apply post_bind.
  apply (post_weaken _ _ _ _ _ _ _ (Hload s)).
  - intros r s' [Hs' Hr]. apply Hk; congruence.
  - intros err s' [].
Qed.

Ltac step :=
  first
    [ eapply post_step; [solve [step_quiet] | solve [step_total] | eassumption | intros ? ? ?]
    | apply post_setCache
    | apply post_ret ].

Section RegistryInvariant.

Context `{PathOps}.

#[local] Hint Resolve quiet_findMagickOnWindows total_findMagickOnWindows
  : quiet total.

Lemma cacheOk_empty : cacheOk emptyCache.
Proof.
  unfold cacheOk, entryOk. simpl.
  repeat (split; [intros ? [=]|]). intros ? [=].
Qed.

Lemma cacheOk_update (c : ToolCache) :
  cacheOk c ->
  (forall o, entryOk Magick o ->
             cacheOk (mkCache o (cacheFfmpeg c) (cachePandoc c) (cacheLibreoffice c)))
  /\ (forall o, entryOk Ffmpeg o ->
                cacheOk (mkCache (cacheMagick c) o (cachePandoc c) (cacheLibreoffice c)))
  /\ (forall o, entryOk Pandoc o ->
                cacheOk (mkCache (cacheMagick c) (cacheFfmpeg c) o (cacheLibreoffice c)))
  /\ (forall o, entryOk Libreoffice o ->
                cacheOk (mkCache (cacheMagick c) (cacheFfmpeg c) (cachePandoc c) o)).
Proof.
  intros (Hm & Hf & Hp & Hl).
  split; [|split; [|split]]; intros o Ho; unfold cacheOk; simpl;
    repeat (split; [assumption|]); assumption.
Qed.

Lemma entryOk_absent k : entryOk k (Some None).
Proof. intros t [=]. Qed.

(** After the lookups that do not touch the cache, one entry is
    written and the result returned: the invariant follows from
    the entry written. *)
Ltac store_and_return Hup :=
  step; step; split;
  [ simpl;
    repeat match goal with
           | Hs : toolCache ?s = _ |- context [toolCache ?s] => rewrite Hs
           end;
    apply Hup
  | ].

Ltac load_then_store lemma Hup :=
  eapply post_load; [apply lemma | eassumption |];
  intros ? ? ? [? ?]; store_and_return Hup;
  [ intros ? [= <-]; now split | intros ? [= <-]; now split ].

Ltac absent Hup :=
  store_and_return Hup; [apply entryOk_absent | intros ? [=]].

Ltac branch :=
  match goal with
  | |- post _ (match ?x with _ => _ end) _ _ _ => destruct x
  | |- post _ (if ?b then _ else _) _ _ _ => destruct b eqn:?
  end.

Lemma ensureMagick_ok e s :
  cacheOk (toolCache s) ->
  post e ensureMagick s (ensured Magick) (fun _ _ => False).
Proof.
  intros Hok. pose proof Hok as (Hm & _).
  pose proof (cacheOk_update _ Hok) as (Hup & _).
  remember (toolCache s) as c eqn:Hc. symmetry in Hc.
  unfold ensureMagick. apply post_bind. unfold post at 1, gets. rewrite Hc.
  destruct (cacheMagick c) as [cached|] eqn:C.
  - apply post_ret. split; [now rewrite Hc|]. intros t0 ->. now apply Hm.
  - do 4 step. branch; [branch|].
    + load_then_store loadMagickFormats_listed Hup.
    + absent Hup.
    + absent Hup.
Qed.

Lemma ensureFfmpeg_ok e s :
  cacheOk (toolCache s) ->
  post e ensureFfmpeg s (ensured Ffmpeg) (fun _ _ => False).
Proof.
  intros Hok. pose proof Hok as (_ & Hf & _).
  pose proof (cacheOk_update _ Hok) as (_ & Hup & _).
  remember (toolCache s) as c eqn:Hc. symmetry in Hc.
  unfold ensureFfmpeg. apply post_bind. unfold post at 1, gets. rewrite Hc.
  destruct (cacheFfmpeg c) as [cached|] eqn:C.
  - apply post_ret. split; [now rewrite Hc|]. intros t0 ->. now apply Hf.
  - do 3 step.
    match goal with a : option string |- post _ (if someTruthy ?x then _ else _) _ _ _ =>
      destruct x as [b|]; simpl someTruthy; [destruct (truthy b)|]; cbv iota
    end.
    + load_then_store loadFfmpegFormats_listed Hup.
    + absent Hup.
    + absent Hup.
Qed.

Lemma ensurePandoc_ok e s :
  cacheOk (toolCache s) ->
  post e ensurePandoc s (ensured Pandoc) (fun _ _ => False).
Proof.
  intros Hok. pose proof Hok as (_ & _ & Hp & _).
  pose proof (cacheOk_update _ Hok) as (_ & _ & Hup & _).
  remember (toolCache s) as c eqn:Hc. symmetry in Hc.
  unfold ensurePandoc. apply post_bind. unfold post at 1, gets. rewrite Hc.
  destruct (cachePandoc c) as [cached|] eqn:C.
  - apply post_ret. split; [now rewrite Hc|]. intros t0 ->. now apply Hp.
  - do 3 step.
    match goal with a : option string |- post _ (if someTruthy ?x then _ else _) _ _ _ =>
      destruct x as [b|]; simpl someTruthy; [destruct (truthy b)|]; cbv iota
    end.
    + load_then_store loadPandocFormats_listed Hup.
    + absent Hup.
    + absent Hup.
Qed.

Lemma toolOk_office (b : string) :
  toolOk Libreoffice (mkTool b libreOfficeInput libreOfficeOutput).
Proof.
  destruct libreOffice_tables_fixed as [Hi Ho].
  simpl. split; [reflexivity | split; [reflexivity | split; assumption]].
Qed.

Lemma ensureLibreOffice_ok e s :
  cacheOk (toolCache s) ->
  post e ensureLibreOffice s (ensured Libreoffice) (fun _ _ => False).
Proof.
  intros Hok. pose proof Hok as (_ & _ & _ & Hl).
  pose proof (cacheOk_update _ Hok) as (_ & _ & _ & Hup).
  remember (toolCache s) as c eqn:Hc. symmetry in Hc.
  unfold ensureLibreOffice. apply post_bind. unfold post at 1, gets. rewrite Hc.
  destruct (cacheLibreoffice c) as [cached|] eqn:C.
  - apply post_ret. split; [now rewrite Hc|]. intros t0 ->. now apply Hl.
  - do 2 step.
    match goal with |- post _ (if someTruthy ?x then _ else _) _ _ _ =>
      destruct x as [b|]; simpl someTruthy; [destruct (truthy b)|]; cbv iota
    end.
    + store_and_return Hup; intros ? [= <-]; apply toolOk_office.
    + do 2 step.
      match goal with |- post _ (if someTruthy ?x then _ else _) _ _ _ =>
        destruct x as [b'|]; simpl someTruthy; [destruct (truthy b')|]; cbv iota
      end.
      * store_and_return Hup; intros ? [= <-]; apply toolOk_office.
      * absent Hup.
      * absent Hup.
    + do 2 step.
      match goal with |- post _ (if someTruthy ?x then _ else _) _ _ _ =>
        destruct x as [b'|]; simpl someTruthy; [destruct (truthy b')|]; cbv iota
      end.
      * store_and_return Hup; intros ? [= <-]; apply toolOk_office.
      * absent Hup.
      * absent Hup.
Qed.

End RegistryInvariant.

(** Only one leading dot is removed from a listed name. *)
Lemma pandocPushed_two_dots : uniqueSorted (pandocPushed "..md") = [".md"].
Proof. reflexivity. Qed.

(** C9, as stated, fails: the office tool's descriptor carries the two
    fixed tables in the order they are written, which is not
    alphabetical. *)
Lemma registry_office_lists_unsorted :
  exists t s',
    ensureTool Libreoffice Sample.docsMac initialState = (Returned (Some t), s')
    /\ input t = libreOfficeInput
    /\ ~ ascending (input t)
    /\ ~ ascending (output t).
Proof.
  destruct (ensureTool Libreoffice Sample.docsMac initialState)
    as [[[t|]|err] s'] eqn:E; vm_compute in E; try discriminate E.
  injection E as Ht _. exists t, s'. split; [reflexivity|].
  rewrite <- Ht. split; [reflexivity|].
  exact libreOffice_tables_unsorted.
Qed.

(** C9 (amended): starting from a cache that holds only such
    descriptors (the empty cache does), every registry lookup returns,
    keeps the cache so, and resolves a descriptor of this shape: for the
    image, media and markup tool both lists have no duplicates, are
    sorted ascending by code unit and hold only non-empty, lower-cased
    names with one leading dot removed (a dot is left in front only of a
    listed name that began with two); for the office tool the lists are
    the two fixed tables, lower-cased, without leading dots or
    duplicates, in the order written. *)
Theorem registry_descriptors_normalized `{PathOps}
    (k : ConverterKind) (e : Env) (s : State) :
  cacheOk (toolCache s) ->
  exists r s',
    ensureTool k e s = (Returned r, s')
    /\ cacheOk (toolCache s')
    /\ forall t, r = Some t -> toolOk k t.
Proof.
  intros Hok.
  assert (P : post e (ensureTool k) s (ensured k) (fun _ _ => False)).
  { destruct k; simpl;
      [ apply ensureMagick_ok | apply ensureFfmpeg_ok
      | apply ensurePandoc_ok | apply ensureLibreOffice_ok ]; exact Hok. }
  unfold post in P. destruct (ensureTool k e s) as [[r|err] s']; [|contradiction].
  exists r, s'. split; [reflexivity | exact P].
Qed.

Lemma registry_descriptors_normalized_witness :
  cacheOk (toolCache initialState)
  /\ exists r s',
       ensureTool Pandoc Sample.docsMac initialState = (Returned r, s')
       /\ cacheOk (toolCache s')
       /\ forall t, r = Some t -> toolOk Pandoc t.
Proof.
  split; [apply cacheOk_empty|].
  apply registry_descriptors_normalized. apply cacheOk_empty.
Defined.

(** ** The scenarios of the specification, run on the model *)

Example scenario_heic_photo :
  getFileExt "/home/u/photo.HEIC" = "heic"
  /\ fst (detectConverter (getFileExt "/home/u/photo.HEIC") Sample.imageMac initialState)
     = Returned (Some (mkDecision Magick
                         (mkTool "magick" ["heic"; "jpg"; "png"] ["jpg"; "png"])
                         Image "png")).
Proof. split; reflexivity. Qed.

Example scenario_mov_clip :
  let media := mkTool "ffmpeg" ["avi"; "mov"; "mp4"] ["mkv"; "mov"; "mp4"] in
  chooseConverter "mov" None (Some media) None None
  = Some (mkDecision Ffmpeg media Video "mp4").
Proof. reflexivity. Qed.

Example scenario_docx_report :
  let office := mkTool "soffice" libreOfficeInput libreOfficeOutput in
  fst (buildOutputPath "/home/u/report.docx" "pdf" None DestSave
         Sample.docsMac initialState)
  = Returned "/home/u/report.pdf"
  /\ convertWithTool
       (mkOpts "/home/u/report.docx" "/home/u/report.pdf" "pdf" true Libreoffice office)
       Sample.imageMac initialState
     = (Thrown (newError "spawn ENOENT"),
        mkState emptyCache
          [("soffice", ["--headless"; "--convert-to"; "pdf"; "--outdir"; "/home/u";
                        "/home/u/report.docx"])] 0).
Proof. split; reflexivity. Qed.

Example scenario_no_tools (ext : string) :
  fst (detectConverter ext Sample.remoteUrlMac initialState) = Returned None.
Proof.
  destruct (detectConverter_run ext Sample.remoteUrlMac initialState)
    as (m & f & p & l & s1 & s2 & s3 & s4 & E1 & E2 & E3 & E4 & E).
  vm_compute in E1. injection E1 as <- <-.
  vm_compute in E2. injection E2 as <- <-.
  vm_compute in E3. injection E3 as <- <-.
  vm_compute in E4. injection E4 as <- <-.
  rewrite E. simpl. f_equal.
  apply (chooseConverter_absent ext None None None None). now repeat split.
Qed.

(** A probe is made once: the second lookup is answered from the cache
    and starts no process. *)
Example scenario_cached_lookup :
  let s1 := snd (ensureTool Pandoc Sample.docsMac initialState) in
  ensureTool Pandoc Sample.docsMac s1
  = (fst (ensureTool Pandoc Sample.docsMac initialState), s1).
Proof. reflexivity. Qed.


(** ** The registry probes once *)

Local Open Scope monad_scope.

Section RegistryCache.

Context `{PathOps}.

#[local] Hint Resolve quiet_findMagickOnWindows total_findMagickOnWindows
  : quiet total.

Lemma stored_hit k s r :
  cacheEntry k (toolCache s) = Some r -> stored k s r s.
Proof.
  intros Hk. unfold stored. split; [exact Hk|]. split; [reflexivity|].
  split; [|congruence]. intros r0 Hr0. split; congruence.
Qed.

(** The last step of a lookup that found nothing cached. *)
Lemma stored_write k e s s1 r (f : ToolCache -> ToolCache) X :
  cacheEntry k (toolCache s) = None ->
  toolCache s1 = toolCache s ->
  cacheEntry k (f (toolCache s)) = Some r ->
  (forall k', k' <> k ->
              cacheEntry k' (f (toolCache s)) = cacheEntry k' (toolCache s)) ->
  (forall t, r = Some t -> truthy (bin t) = true) ->
  post e (setCache f ;;; ret r) s1 (stored k s) X.
Proof.
  intros Hnone Hs1 Hk Hother Hbin. apply post_setCache, post_ret.
  unfold stored. simpl. rewrite Hs1.
  split; [exact Hk|]. split; [exact Hother|].
  split; [|intros _; exact Hbin]. intros r0 Hr0. congruence.
Qed.

Ltac others :=
  let k' := fresh "k" in
  intros k' ?; destruct k'; try reflexivity; congruence.

Ltac write_entry Hc :=
  eapply stored_write; [exact Hc | eassumption | reflexivity | others |].

Lemma ensureMagick_stored e s :
  post e ensureMagick s (stored Magick s) (fun _ _ => False).
Proof.
  unfold ensureMagick. apply post_bind. unfold post at 1, gets.
  destruct (cacheMagick (toolCache s)) as [cached|] eqn:C.
  - apply post_ret. now apply stored_hit.
  - assert (Hc : toolCache s = toolCache s) by reflexivity.
    do 4 step.
    match goal with |- post _ (match ?x with _ => _ end) _ _ _ =>
      destruct x as [b|] end.
    + destruct (truthy b) eqn:Tb.
      * step. write_entry C. now intros t0 [= <-].
      * write_entry C. intros t0 [=].
    + write_entry C. intros t0 [=].
Qed.

Lemma ensureFfmpeg_stored e s :
  post e ensureFfmpeg s (stored Ffmpeg s) (fun _ _ => False).
Proof.
  unfold ensureFfmpeg. apply post_bind. unfold post at 1, gets.
  destruct (cacheFfmpeg (toolCache s)) as [cached|] eqn:C.
  - apply post_ret. now apply stored_hit.
  - assert (Hc : toolCache s = toolCache s) by reflexivity.
    do 3 step.
    match goal with |- post _ (if someTruthy ?x then _ else _) _ _ _ =>
      destruct x as [b|]; simpl someTruthy; [destruct (truthy b) eqn:Tb|]; cbv iota
    end.
    + step. write_entry C. now intros t0 [= <-].
    + write_entry C. intros t0 [=].
    + write_entry C. intros t0 [=].
Qed.

Lemma ensurePandoc_stored e s :
  post e ensurePandoc s (stored Pandoc s) (fun _ _ => False).
Proof.
  unfold ensurePandoc. apply post_bind. unfold post at 1, gets.
  destruct (cachePandoc (toolCache s)) as [cached|] eqn:C.
  - apply post_ret. now apply stored_hit.
  - assert (Hc : toolCache s = toolCache s) by reflexivity.
    do 3 step.
    match goal with |- post _ (if someTruthy ?x then _ else _) _ _ _ =>
      destruct x as [b|]; simpl someTruthy; [destruct (truthy b) eqn:Tb|]; cbv iota
    end.
    + step. write_entry C. now intros t0 [= <-].
    + write_entry C. intros t0 [=].
    + write_entry C. intros t0 [=].
Qed.

Lemma ensureLibreOffice_stored e s :
  post e ensureLibreOffice s (stored Libreoffice s) (fun _ _ => False).
Proof.
  unfold ensureLibreOffice. apply post_bind. unfold post at 1, gets.
  destruct (cacheLibreoffice (toolCache s)) as [cached|] eqn:C.
  - apply post_ret. now apply stored_hit.
  - assert (Hc : toolCache s = toolCache s) by reflexivity.
    do 2 step.
    match goal with |- post _ (if someTruthy ?x then _ else _) _ _ _ =>
      destruct x as [b|]; simpl someTruthy; [destruct (truthy b) eqn:Tb|]; cbv iota
    end.
    + write_entry C. now intros t0 [= <-].
    + do 2 step.
      match goal with |- post _ (if someTruthy ?x then _ else _) _ _ _ =>
        destruct x as [b'|]; simpl someTruthy; [destruct (truthy b') eqn:Tb'|]; cbv iota
      end.
      * write_entry C. now intros t0 [= <-].
      * write_entry C. intros t0 [=].
      * write_entry C. intros t0 [=].
    + do 2 step.
      match goal with |- post _ (if someTruthy ?x then _ else _) _ _ _ =>
        destruct x as [b'|]; simpl someTruthy; [destruct (truthy b') eqn:Tb'|]; cbv iota
      end.
      * write_entry C. now intros t0 [= <-].
      * write_entry C. intros t0 [=].
      * write_entry C. intros t0 [=].
Qed.

Lemma ensureTool_stored k e s :
  exists r s', ensureTool k e s = (Returned r, s') /\ stored k s r s'.
Proof.
  assert (P : post e (ensureTool k) s (stored k s) (fun _ _ => False)).
  { destruct k; simpl;
      [ apply ensureMagick_stored | apply ensureFfmpeg_stored
      | apply ensurePandoc_stored | apply ensureLibreOffice_stored ]. }
  unfold post in P. destruct (ensureTool k e s) as [[r|err] s']; [|contradiction].
  now exists r, s'.
Qed.

(** A lookup whose entry is in the cache returns it and does nothing. *)
Lemma ensureTool_hit k e s r :
  cacheEntry k (toolCache s) = Some r -> ensureTool k e s = (Returned r, s).
Proof.
  intros Hk. destruct (ensureTool_stored k e s) as (r' & s' & E & _ & _ & Hhit & _).
  destruct (Hhit r Hk) as [-> ->]. exact E.
Qed.

End RegistryCache.

(** X1: a registry lookup never throws and leaves its answer in the
    cache, the absent answer included: asking again, at once or after
    lookups of other kinds, returns the same answer and changes nothing
    (so no probe is repeated); the entries of the other kinds are not
    touched; and a descriptor resolved afresh has a non-empty command. *)
Theorem ensureTool_memoized `{PathOps} (k : ConverterKind) (e : Env) (s : State) :
  exists r s',
    ensureTool k e s = (Returned r, s')
    /\ ensureTool k e s' = (Returned r, s')
    /\ (forall k', k' <> k ->
                   cacheEntry k' (toolCache s') = cacheEntry k' (toolCache s))
    /\ (forall k' r' s'', k' <> k -> ensureTool k' e s' = (Returned r', s'') ->
                          ensureTool k e s'' = (Returned r, s''))
    /\ (cacheEntry k (toolCache s) = None ->
        forall t, r = Some t -> bin t <> EmptyString).
Proof.
  destruct (ensureTool_stored k e s) as (r & s' & E & Hk & Hother & _ & Hbin).
  exists r, s'. split; [exact E|]. split; [now apply ensureTool_hit|].
  split; [exact Hother|]. split.
  - intros k' r' s'' Hne E'.
    destruct (ensureTool_stored k' e s') as (r1 & s1 & E1 & _ & Hoth1 & _).
    rewrite E' in E1. injection E1 as <- <-.
    apply ensureTool_hit. rewrite Hoth1 by congruence. exact Hk.
  - intros Hnone t Ht Hempty. specialize (Hbin Hnone t Ht).
    now rewrite Hempty in Hbin.
Qed.

(** X2: once [detectConverter] has run, every later run, for whatever
    extension, is answered from the four cached entries: it starts no
    process, changes nothing, and decides over the same entries, so a
    tool installed or removed in between goes unnoticed. *)
Theorem detectConverter_cached `{PathOps} (ext ext' : string) (e : Env) (s : State) :
  exists magick ffmpeg pandoc libreoffice s',
    detectConverter ext e s
    = (Returned (chooseConverter ext magick ffmpeg pandoc libreoffice), s')
    /\ detectConverter ext' e s'
       = (Returned (chooseConverter ext' magick ffmpeg pandoc libreoffice), s')
    /\ spawnCount (detectConverter ext') e s' = 0.
Proof.
  destruct (detectConverter_run ext e s)
    as (m & f & p & l & s1 & s2 & s3 & s4 & E1 & E2 & E3 & E4 & E).
  exists m, f, p, l, s4. split; [exact E|].
  destruct (ensureTool_stored Magick e s) as (r1 & t1 & R1 & K1 & _).
  destruct (ensureTool_stored Ffmpeg e s1) as (r2 & t2 & R2 & K2 & O2 & _).
  destruct (ensureTool_stored Pandoc e s2) as (r3 & t3 & R3 & K3 & O3 & _).
  destruct (ensureTool_stored Libreoffice e s3) as (r4 & t4 & R4 & K4 & O4 & _).
  simpl ensureTool in R1, R2, R3, R4.
  rewrite E1 in R1. injection R1 as <- <-.
  rewrite E2 in R2. injection R2 as <- <-.
  rewrite E3 in R3. injection R3 as <- <-.
  rewrite E4 in R4. injection R4 as <- <-.
  assert (Hm : cacheEntry Magick (toolCache s4) = Some m).
  { rewrite O4, O3, O2 by discriminate. exact K1. }
  assert (Hf : cacheEntry Ffmpeg (toolCache s4) = Some f).
  { rewrite O4, O3 by discriminate. exact K2. }
  assert (Hp : cacheEntry Pandoc (toolCache s4) = Some p).
  { rewrite O4 by discriminate. exact K3. }
  assert (E' : detectConverter ext' e s4
               = (Returned (chooseConverter ext' m f p l), s4)).
  { unfold detectConverter, bind.
    rewrite (ensureTool_hit Magick e s4 m Hm : ensureMagick e s4 = _).
    rewrite (ensureTool_hit Ffmpeg e s4 f Hf : ensureFfmpeg e s4 = _).
    rewrite (ensureTool_hit Pandoc e s4 p Hp : ensurePandoc e s4 = _).
    rewrite (ensureTool_hit Libreoffice e s4 l K4 : ensureLibreOffice e s4 = _).
    reflexivity. }
  split; [exact E'|].
  unfold spawnCount. rewrite E'. simpl. lia.
Qed.


(** ** A configured path that works *)

Local Open Scope monad_scope.

Section Preference.

Context `{PathOps}.

Variables (k : ConverterKind) (e : Env) (s : State) (out : ExecOutput).

Let p := normalizePref (preferredPath k (preferences e)).

Hypothesis not_cached : cacheEntry k (toolCache s) = None.
Hypothesis configured : truthy p = true.
Hypothesis probe_ok : execFile e p (probeArgs k) = inr out.

Lemma resolvePreferred_works (v : option string) (args : list string) s0 :
  truthy (normalizePref v) = true ->
  execFile e (normalizePref v) args = inr out ->
  resolvePreferred v args e s0
  = (Returned (Some (normalizePref v)),
     mkState (toolCache s0) ((normalizePref v, args) :: spawned s0) (uuidsDrawn s0)).
Proof.
  intros Ht Hx. unfold resolvePreferred. rewrite Ht.
  unfold canRun, tryCatch, bind, execFileAsync, ret.
  cbv beta iota delta [negb]. now rewrite Hx.
Qed.

(** With a working preference the lookup is: the probe, the format
    listing through the same path, the cache entry. *)
Lemma ensureTool_preferred :
  ensureTool k e s
  = let s0 := mkState (toolCache s) ((p, probeArgs k) :: spawned s) (uuidsDrawn s) in
    match loadFormats k p e s0 with
    | (Returned r, s1) =>
        let t := mkTool p (fst r) (snd r) in
        (Returned (Some t),
         mkState (setEntry k (Some (Some t)) (toolCache s1)) (spawned s1)
                 (uuidsDrawn s1))
    | (Thrown err, s1) => (Thrown err, s1)
    end.
Proof.
  subst p. destruct k; simpl in *.
  - unfold ensureMagick, bind, gets, asks, ret, setCache, modify. cbv beta. rewrite not_cached.
    rewrite (resolvePreferred_works _ _ _ configured probe_ok).
    repeat first [rewrite configured | progress cbv beta iota delta [someTruthy]].
    destruct (loadMagickFormats _ e _) as [[r|err] s1]; reflexivity.
  - unfold ensureFfmpeg, bind, gets, asks, ret, setCache, modify. cbv beta. rewrite not_cached.
    rewrite (resolvePreferred_works _ _ _ configured probe_ok).
    repeat first [rewrite configured | progress cbv beta iota delta [someTruthy]].
    destruct (loadFfmpegFormats _ e _) as [[r|err] s1]; reflexivity.
  - unfold ensurePandoc, bind, gets, asks, ret, setCache, modify. cbv beta. rewrite not_cached.
    rewrite (resolvePreferred_works _ _ _ configured probe_ok).
    repeat first [rewrite configured | progress cbv beta iota delta [someTruthy]].
    destruct (loadPandocFormats _ e _) as [[r|err] s1]; reflexivity.
  - unfold ensureLibreOffice, bind, gets, asks, ret, setCache, modify. cbv beta. rewrite not_cached.
    rewrite (resolvePreferred_works _ _ _ configured probe_ok).
    repeat first [rewrite configured | progress cbv beta iota delta [someTruthy]]. reflexivity.
Qed.

End Preference.

(** The listings never throw, run through the given command only, and
    one failing listing leaves both lists empty. *)
Lemma loadFormats_run (k : ConverterKind) (b : string) (e : Env) (s0 : State) :
  exists r s1,
    loadFormats k b e s0 = (Returned r, s1)
    /\ toolCache s1 = toolCache s0
    /\ uuidsDrawn s1 = uuidsDrawn s0
    /\ spawned s1 = (rev (map (pair b) (listingArgs k)) ++ spawned s0)%list
    /\ ((exists a err, In a (listingArgs k) /\ execFile e b a = inl err) ->
        r = ([], [])).
Proof.
  destruct k; simpl.
  - unfold loadMagickFormats, tryCatch, bind, execFileAsync, ret.
    destruct (execFile e b ["-list"; "format"]) as [err|o] eqn:X.
    + do 2 eexists. repeat (split; [reflexivity|]). reflexivity.
    + destruct (magickPushed (stdout o)) as [i o'].
      do 2 eexists. repeat (split; [reflexivity|]).
      intros (a & err & [<- | []] & Hx). congruence.
  - unfold loadFfmpegFormats, tryCatch, bind, execFileAsync, ret.
    destruct (execFile e b ["-hide_banner"; "-formats"]) as [err|o] eqn:X.
    + do 2 eexists. repeat (split; [reflexivity|]). reflexivity.
    + destruct (ffmpegPushed (stdout o)) as [i o'].
      do 2 eexists. repeat (split; [reflexivity|]).
      intros (a & err & [<- | []] & Hx). congruence.
  - unfold loadPandocFormats, tryCatch, bind, execFileAsync, ret.
    destruct (execFile e b ["--list-input-formats"]) as [err1|o1] eqn:X1;
      destruct (execFile e b ["--list-output-formats"]) as [err2|o2] eqn:X2;
      do 2 eexists; repeat (split; [reflexivity|]); try reflexivity.
    intros (a & err & [<- | [<- | []]] & Hx); congruence.
  - do 2 eexists. repeat (split; [reflexivity|]).
    intros (a & err & [] & _).
Qed.

(** X3: a configured path that answers the probe is the tool: the
    descriptor's command is the trimmed preference, and the lookup
    starts the probe and the format listings through that path and
    nothing else, so the search path is never consulted. *)
Theorem working_preference_wins `{PathOps}
    (k : ConverterKind) (e : Env) (s : State) (out : ExecOutput) :
  let p := normalizePref (preferredPath k (preferences e)) in
  cacheEntry k (toolCache s) = None ->
  p <> EmptyString ->
  execFile e p (probeArgs k) = inr out ->
  exists t s',
    ensureTool k e s = (Returned (Some t), s')
    /\ bin t = p
    /\ spawned s'
       = (rev (map (pair p) (listingArgs k)) ++ (p, probeArgs k) :: spawned s)%list.
Proof.
  intros p Hnone Hp Hprobe.
  assert (Ht : truthy p = true) by (destruct p; [contradiction | reflexivity]).
  rewrite (ensureTool_preferred k e s out Hnone Ht Hprobe). cbv zeta. fold p.
  destruct (loadFormats_run k p e
              (mkState (toolCache s) ((p, probeArgs k) :: spawned s) (uuidsDrawn s)))
    as (r & s1 & E & _ & _ & Hsp & _).
  rewrite E. do 2 eexists. split; [reflexivity|]. split; [reflexivity|]. exact Hsp.
Qed.

Lemma working_preference_wins_witness :
  exists t s',
    ensureTool Ffmpeg brokenListingMac initialState = (Returned (Some t), s')
    /\ bin t = "/opt/ffmpeg/bin/ffmpeg"
    /\ spawned s'
       = [("/opt/ffmpeg/bin/ffmpeg", ["-hide_banner"; "-formats"]);
          ("/opt/ffmpeg/bin/ffmpeg", ["-version"])].
Proof.
  apply (working_preference_wins Ffmpeg brokenListingMac initialState
           (mkOut "ffmpeg version 7.1" EmptyString));
    [reflexivity | discriminate | reflexivity].
Defined.

(** A tool that lists nothing is chosen only when no tool lists the
    extension. *)
Lemma chooseConverter_unlisted (ext : string) (k : ConverterKind)
    (m f p l : option ToolFormats) (t : ToolFormats) :
  input t = [] ->
  entryOf k m f p l = Some t ->
  option_map kind (chooseConverter ext m f p l) = Some k ->
  accepts m ext = false /\ accepts f ext = false
  /\ accepts p ext = false /\ accepts l ext = false.
Proof.
  intros Hin Hentry. rewrite chooseConverter_kind. unfold specPriority, isImageExt.
  generalize (includes ext imagePreferredExts). intros img.
  assert (Hk : accepts (entryOf k m f p l) ext = false)
    by (rewrite Hentry; simpl; now rewrite Hin).
  destruct k; simpl in Hk;
    destruct (accepts m ext) eqn:Am, (accepts f ext) eqn:Af,
             (accepts p ext) eqn:Ap, (accepts l ext) eqn:Al;
    try discriminate Hk; destruct img; simpl; intros K;
    try rewrite (accepts_available _ _ Am) in K;
    try discriminate K; repeat split.
Qed.

(** ** A listing that fails *)

Section ListingsApart.

Context `{PathOps}.

Variables (k : ConverterKind) (e e' : Env).

Hypothesis same : sameButListings k e e'.

Lemma execFileAsync_same (cmd : string) (args : list string) (s : State) :
  ~ In args (listingArgs k) ->
  execFileAsync cmd args e' s = execFileAsync cmd args e s.
Proof.
  intros Hn. destruct same as (_ & _ & _ & _ & _ & _ & Hx).
  unfold execFileAsync. now rewrite (Hx cmd args Hn).
Qed.

Lemma resolvePreferred_same (v : option string) (args : list string) (s : State) :
  ~ In args (listingArgs k) ->
  resolvePreferred v args e' s = resolvePreferred v args e s.
Proof.
  intros Hn. unfold resolvePreferred.
  destruct (negb (truthy (normalizePref v))); [reflexivity|].
  unfold bind, canRun, tryCatch, bind. now rewrite (execFileAsync_same _ _ _ Hn).
Qed.

Lemma findBinary_same (cmd : string) (s : State) :
  ~ In [cmd] (listingArgs k) ->
  findBinary cmd e' s = findBinary cmd e s.
Proof.
  intros Hn. pose proof same as (Hw & _).
  unfold findBinary, bind, asks, tryCatch, bind. rewrite Hw.
  now rewrite (execFileAsync_same _ _ _ Hn).
Qed.

Lemma firstFound_same (candidates : list string) (s : State) :
  (forall c, In c candidates -> ~ In [c] (listingArgs k)) ->
  firstFound candidates e' s = firstFound candidates e s.
Proof.
  revert s. induction candidates as [|c cs IH]; intros s Hall; [reflexivity|].
  cbn [firstFound]. unfold bind at 1. symmetry. unfold bind at 1. symmetry.
  rewrite (findBinary_same c s) by (apply Hall; now left).
  destruct (findBinary c e s) as [[[line|]|err] s1]; try reflexivity.
  apply IH. intros c' Hc'. apply Hall. now right.
Qed.

Lemma scanEntries_same (root : string) (entries : list Dirent) (s : State) :
  scanEntries root entries e' s = scanEntries root entries e s.
Proof.
  destruct same as (_ & _ & Ha & _).
  induction entries as [|entry rest IH]; [reflexivity|].
  cbn [scanEntries].
  destruct (negb (isDirectory entry)); [exact IH|].
  destruct (negb (startsWith "imagemagick-" (toLowerCase (name entry))));
    [exact IH|].
  unfold bind at 1. symmetry. unfold bind at 1. symmetry.
  unfold tryCatch, bind, access, ret. rewrite Ha.
  destruct (fsAccess e (path_join [root; name entry; "magick.exe"]));
    [reflexivity | exact IH].
Qed.

Lemma scanRoots_same (roots : list string) (s : State) :
  scanRoots roots e' s = scanRoots roots e s.
Proof.
  destruct same as (_ & _ & _ & Hr & _).
  revert s. induction roots as [|root rest IH]; intros s; [reflexivity|].
  cbn [scanRoots]. unfold bind, tryCatch, readdir, ret. rewrite Hr.
  destruct (fsReaddir e root) as [entries|]; cbv beta iota.
  - rewrite scanEntries_same.
    destruct (scanEntries root entries e s) as [[[p|]|err] s1];
      try reflexivity; apply IH.
  - apply IH.
Qed.

Lemma findMagickOnWindows_same (s : State) :
  findMagickOnWindows e' s = findMagickOnWindows e s.
Proof.
  pose proof same as (Hw & _ & _ & _ & Hpf & Hpf86 & _).
  unfold findMagickOnWindows, bind, asks. cbv beta iota. rewrite Hw.
  destruct (negb (isWindows e)); [reflexivity|].
  rewrite Hpf, Hpf86. apply scanRoots_same.
Qed.

End ListingsApart.

Ltac not_listing := cbn [listingArgs In]; intuition discriminate.

Section ListingFree.

Context `{PathOps}.

Variables (k : ConverterKind) (e e' : Env).

Hypothesis same : sameButListings k e e'.

(** What the lookup of a tool at [b] leaves once its listing is back. *)
Let listed (b : string) (s0 : State) : Outcome (option ToolFormats) * State :=
  match loadFormats k b e' s0 with
  | (Returned r, s2) =>
      let t' := mkTool b (fst r) (snd r) in
      (Returned (Some t'),
       mkState (setEntry k (Some (Some t')) (toolCache s2)) (spawned s2)
               (uuidsDrawn s2))
  | (Thrown err, s2) => (Thrown err, s2)
  end.

Lemma ensureTool_listing_free (s s1 : State) (t : ToolFormats)
    (res : Outcome (option ToolFormats) * State) :
  cacheEntry k (toolCache s) = None ->
  ensureTool k e s = (Returned (Some t), s1) ->
  ensureTool k e' s = res ->
  exists s0, res = listed (bin t) s0.
Proof.
  pose proof same as (Hw & Hp & _).
  intros Hnc Hrun G. subst listed.
  assert (Hfirst : forall cs s0,
             (forall c, In c cs -> ~ In [c] (listingArgs k)) ->
             firstFound cs e' s0 = firstFound cs e s0)
    by (intros cs s0; apply (firstFound_same k e e' same)).
  assert (Hfind : forall c s0, ~ In [c] (listingArgs k) ->
                               findBinary c e' s0 = findBinary c e s0)
    by (intros c s0; apply (findBinary_same k e e' same)).
  assert (Hpref : forall v args s0, ~ In args (listingArgs k) ->
                    resolvePreferred v args e' s0 = resolvePreferred v args e s0)
    by (intros v args s0; apply (resolvePreferred_same k e e' same)).
  pose proof (findMagickOnWindows_same k e e' same) as Hscan.
  destruct k; cbn [ensureTool cacheEntry] in Hnc, Hrun, G;
    unfold ensureMagick, ensureFfmpeg, ensurePandoc, ensureLibreOffice,
           bind, gets, asks, ret, setCache, modify in Hrun, G;
    cbv beta iota in Hrun, G; rewrite Hnc in Hrun, G;
    repeat (cbv beta iota in Hrun, G;
            repeat first
              [ rewrite Hp in G
              | rewrite Hw in G
              | rewrite Hscan in G
              | rewrite Hpref in G by not_listing
              | rewrite Hfind in G by not_listing
              | rewrite Hfirst in G
                  by (let c := fresh "c" in
                      let Hc := fresh "Hc" in
                      intros c Hc; cbn [In] in Hc;
                      repeat (destruct Hc as [<- | Hc]; [not_listing|]);
                      destruct Hc) ];
            match type of Hrun with
            | context [match ?x with _ => _ end] =>
                lazymatch x with
                | context [match _ with _ => _ end] => fail
                | _ => destruct x eqn:?; try discriminate Hrun
                end
            end);
    cbv beta iota in Hrun, G;
    injection Hrun as Ht Hs; subst t; cbn [bin loadFormats];
    eexists; rewrite <- G; reflexivity.
Qed.

End ListingFree.

(** X4: whether a tool is resolved, and under which command, does not
    depend on its format listings.  Take a lookup that resolves a tool,
    by whatever route (a configured path, the search path, the scan of
    the program folders), and an environment that differs at most in
    what the listings of that kind answer: when there a listing through
    the tool's command fails (for pandoc one of the two is enough), the
    same lookup still resolves the tool, under the same command and with
    both format lists empty.  Such a descriptor lists no extension, so
    the resolver picks it only when no tool lists the extension, as the
    catch-all. *)
Theorem failed_listing_keeps_tool `{PathOps}
    (k : ConverterKind) (e e' : Env) (s s1 : State) (t : ToolFormats) :
  sameButListings k e e' ->
  cacheEntry k (toolCache s) = None ->
  ensureTool k e s = (Returned (Some t), s1) ->
  (exists a err, In a (listingArgs k) /\ execFile e' (bin t) a = inl err) ->
  (exists s1',
     ensureTool k e' s = (Returned (Some (mkTool (bin t) [] [])), s1'))
  /\ forall ext magick ffmpeg pandoc libreoffice,
       entryOf k magick ffmpeg pandoc libreoffice = Some (mkTool (bin t) [] []) ->
       option_map kind (chooseConverter ext magick ffmpeg pandoc libreoffice)
       = Some k ->
       accepts magick ext = false /\ accepts ffmpeg ext = false
       /\ accepts pandoc ext = false /\ accepts libreoffice ext = false.
Proof.
  intros Hsame Hnone Hrun Hfail. split.
  - destruct (ensureTool_listing_free k e e' Hsame s s1 t _ Hnone Hrun eq_refl)
      as [s0 E].
    rewrite E. cbv zeta.
    destruct (loadFormats_run k (bin t) e' s0) as (r & s2 & L & _ & _ & _ & Hempty).
    rewrite L, (Hempty Hfail). eexists. reflexivity.
  - intros ext m f q l. now apply chooseConverter_unlisted.
Qed.

Lemma sameArgs_eq (a b : list string) : Sample.sameArgs a b = true -> a = b.
Proof.
  unfold Sample.sameArgs. revert b.
  induction a as [|x a IH]; intros [|y b]; cbn [List.length combine forallb fst snd];
    try discriminate; [reflexivity|].
  intros Hab. apply andb_true_iff in Hab as [Hl Hf].
  apply andb_true_iff in Hf as [Hxy Hrest]. apply String.eqb_eq in Hxy.
  subst y. f_equal. apply IH. cbn [Nat.eqb] in Hl. now rewrite Hl, Hrest.
Qed.

Lemma listedMac_sameButListings : sameButListings Ffmpeg listedMac unlistedMac.
Proof.
  repeat split. intros cmd args Hn. cbn [execFile listedMac].
  destruct (Sample.sameArgs args ["-hide_banner"; "-formats"]) eqn:E;
    [|reflexivity].
  apply sameArgs_eq in E. subst args. exfalso. apply Hn. now left.
Qed.

Lemma failed_listing_keeps_tool_witness :
  (exists s1, ensureTool Ffmpeg listedMac initialState
              = (Returned (Some (mkTool "ffmpeg" ["mov"; "mp4"] ["mov"; "mp4"])), s1))
  /\ exists s1', ensureTool Ffmpeg unlistedMac initialState
                 = (Returned (Some (mkTool "ffmpeg" [] [])), s1').
Proof.
  split; [eexists; vm_compute; reflexivity|].
  destruct (failed_listing_keeps_tool Ffmpeg listedMac unlistedMac
              initialState
              (mkState (mkCache None
                          (Some (Some (mkTool "ffmpeg" ["mov"; "mp4"] ["mov"; "mp4"])))
                          None None)
                       [("ffmpeg", ["-hide_banner"; "-formats"]);
                        ("which", ["ffmpeg"])] 0)
              (mkTool "ffmpeg" ["mov"; "mp4"] ["mov"; "mp4"])
              listedMac_sameButListings eq_refl eq_refl)
    as [Hkept _].
  - exists ["-hide_banner"; "-formats"], (mkErr "spawn ENOENT" None None).
    split; [now left | reflexivity].
  - exact Hkept.
Defined.


(** ** [uniqueSorted] gives a canonical list *)

Section CodeUnitOrderFacts.

Lemma ascii_compare_cases (x y : ascii) :
  (Ascii.compare x y = Lt /\ (N_of_ascii x < N_of_ascii y)%N)
  \/ (Ascii.compare x y = Eq /\ x = y)
  \/ (Ascii.compare x y = Gt /\ (N_of_ascii y < N_of_ascii x)%N).
Proof.
  unfold Ascii.compare.
  destruct (N.compare_spec (N_of_ascii x) (N_of_ascii y)) as [E|L|G].
  - right; left. split; [reflexivity|].
    rewrite <- (ascii_N_embedding x), <- (ascii_N_embedding y). now rewrite E.
  - left. now split.
  - right; right. now split.
Qed.

Lemma leb_trans (a b c : string) :
  String.leb a b = true -> String.leb b c = true -> String.leb a c = true.
Proof.
  unfold String.leb. revert b c.
  induction a as [|x a IH]; intros [|y b] [|z c]; simpl; try congruence.
  destruct (ascii_compare_cases x y) as [[Exy Hxy] | [[Exy Hxy] | [Exy Hxy]]];
    destruct (ascii_compare_cases y z) as [[Eyz Hyz] | [[Eyz Hyz] | [Eyz Hyz]]];
    destruct (ascii_compare_cases x z) as [[Exz Hxz] | [[Exz Hxz] | [Exz Hxz]]];
    rewrite Exy, Eyz, Exz; intros Hab Hbc;
    try congruence; try reflexivity;
    try (exfalso; subst; lia);
    try (eapply IH; eassumption).
Qed.

(** Two duplicate-free ascending lists with the same elements are the
    same list. *)
Lemma ascending_unique (l1 l2 : list string) :
  NoDup l1 -> NoDup l2 -> ascending l1 -> ascending l2 ->
  (forall x, In x l1 <-> In x l2) -> l1 = l2.
Proof.
  unfold ascending. intros N1 N2 S1 S2.
  apply Sorted_StronglySorted in S1; [|intros a b c; apply leb_trans].
  apply Sorted_StronglySorted in S2; [|intros a b c; apply leb_trans].
  revert l2 N2 S2. induction l1 as [|a l1 IH]; intros [|b l2] N2 S2 Hsame.
  - reflexivity.
  - destruct (proj2 (Hsame b) (or_introl eq_refl)).
  - destruct (proj1 (Hsame a) (or_introl eq_refl)).
  - inversion N1 as [|? ? Ha N1']; subst. inversion N2 as [|? ? Hb N2']; subst.
    apply StronglySorted_inv in S1 as [S1 F1].
    apply StronglySorted_inv in S2 as [S2 F2].
    rewrite Forall_forall in F1, F2.
    assert (a = b).
    { destruct (proj1 (Hsame a) (or_introl eq_refl)) as [E | Hin]; [now symmetry|].
      destruct (proj2 (Hsame b) (or_introl eq_refl)) as [E | Hin']; [assumption|].
      apply String.leb_antisym; [now apply F1 | now apply F2]. }
    subst b. f_equal. apply IH; try assumption.
    intros x. split; intros Hx.
    + destruct (proj1 (Hsame x) (or_intror Hx)) as [E | Hin]; [|assumption].
      subst x. contradiction.
    + destruct (proj2 (Hsame x) (or_intror Hx)) as [E | Hin]; [|assumption].
      subst x. contradiction.
Qed.

End CodeUnitOrderFacts.

(** X5: [uniqueSorted values] is the ascending, duplicate-free list of
    the non-empty strings of [values]; it therefore depends only on which
    non-empty strings occur, not on their order or number, and applying
    it twice changes nothing. *)
Theorem uniqueSorted_canonical (values : list string) :
  (forall x, In x (uniqueSorted values) <-> In x values /\ x <> EmptyString)
  /\ NoDup (uniqueSorted values)
  /\ ascending (uniqueSorted values)
  /\ (forall others,
         (forall x, x <> EmptyString -> (In x values <-> In x others)) ->
         uniqueSorted others = uniqueSorted values)
  /\ uniqueSorted (uniqueSorted values) = uniqueSorted values.
Proof.
  assert (Hmem : forall l x, In x (uniqueSorted l) <-> In x l /\ x <> EmptyString).
  { intros l x. rewrite uniqueSorted_In.
    destruct x; simpl; split; intros [Hin Hx]; split; congruence. }
  assert (Hcanon : forall l1 l2,
             (forall x, x <> EmptyString -> (In x l1 <-> In x l2)) ->
             uniqueSorted l2 = uniqueSorted l1).
  { intros l1 l2 Hsame.
    apply ascending_unique;
      auto using uniqueSorted_NoDup, uniqueSorted_ascending.
    intros x. rewrite !Hmem. split; intros [Hin Hx]; split; try assumption;
      now apply (Hsame x Hx). }
  split; [apply Hmem|]. split; [apply uniqueSorted_NoDup|].
  split; [apply uniqueSorted_ascending|]. split; [apply Hcanon|].
  apply Hcanon. intros x Hx. rewrite Hmem. tauto.
Qed.


(** ** What the suggested output depends on *)

Lemma find_ext {A} (f g : A -> bool) (l : list A) :
  (forall x, In x l -> f x = g x) -> find f l = find g l.
Proof.
  induction l as [|a l IH]; simpl; intros Hfg; [reflexivity|].
  rewrite (Hfg a (or_introl eq_refl)).
  destruct (g a); [reflexivity|]. apply IH. intros x Hx. apply Hfg. now right.
Qed.

(** X6: when the tool offers at least one format of the category's
    preference list, the suggestion is a format of that list and depends
    only on which formats are offered, not on their order or
    repetition. *)
Theorem pickDefaultOutput_by_membership
    (c : FileCategory) (outputs others : list string) :
  (forall x, In x outputs <-> In x others) ->
  (exists q, In q (preferredByCategory c) /\ In q outputs) ->
  pickDefaultOutput c others = pickDefaultOutput c outputs
  /\ In (pickDefaultOutput c outputs) (preferredByCategory c)
  /\ In (pickDefaultOutput c outputs) outputs.
Proof.
  intros Hsame (q & Hq & Hqo).
  assert (E : find (fun candidate => includes candidate others) (preferredByCategory c)
              = find (fun candidate => includes candidate outputs)
                     (preferredByCategory c)).
  { apply find_ext. intros x _.
    destruct (includes x outputs) eqn:I.
    - apply includes_In. apply Hsame. now apply includes_In.
    - apply includes_not_In. intros Hx. apply Hsame in Hx.
      apply includes_In in Hx. congruence. }
  unfold pickDefaultOutput. rewrite E. clear E.
  destruct (find (fun candidate => includes candidate outputs)
                 (preferredByCategory c)) as [r|] eqn:F.
  - split; [reflexivity|]. apply find_some in F as [Hr Hi].
    split; [exact Hr | now apply includes_In].
  - exfalso. pose proof (find_none _ _ F q Hq) as Hn. cbv beta in Hn.
    apply includes_In in Hqo. congruence.
Qed.

Lemma pickDefaultOutput_by_membership_witness :
  pickDefaultOutput Video ["mp4"; "mkv"; "mov"; "mkv"]
  = pickDefaultOutput Video ["mkv"; "mov"; "mp4"].
Proof.
  apply (pickDefaultOutput_by_membership Video ["mkv"; "mov"; "mp4"]
           ["mp4"; "mkv"; "mov"; "mkv"]).
  - intros x. simpl. tauto.
  - exists "mp4". split; simpl; tauto.
Defined.

(** X7: for a list as the registry sorts it, a tool that offers none of
    the preferred formats of the category gets its alphabetically first
    format as the suggestion. *)
Theorem pickDefaultOutput_least (c : FileCategory) (outputs : list string) :
  ascending outputs ->
  outputs <> [] ->
  (forall q, In q (preferredByCategory c) -> ~ In q outputs) ->
  In (pickDefaultOutput c outputs) outputs
  /\ forall x, In x outputs -> String.leb (pickDefaultOutput c outputs) x = true.
Proof.
  intros Hs Hne Hnone.
  destruct (pickDefaultOutput_cases c outputs) as [Hfp | [_ E]].
  - destruct Hfp as (before & after & Hpref & Hin & _).
    exfalso. apply (Hnone (pickDefaultOutput c outputs)); [|exact Hin].
    rewrite Hpref. apply in_or_app. right. now left.
  - destruct outputs as [|o rest]; [contradiction|]. simpl in E. rewrite E.
    split; [now left|].
    unfold ascending in Hs.
    apply Sorted_StronglySorted in Hs; [|intros a b d; apply leb_trans].
    apply StronglySorted_inv in Hs as [_ F]. rewrite Forall_forall in F.
    intros x [<- | Hx]; [|now apply F].
    destruct (String.leb_total o o); assumption.
Qed.

Lemma pickDefaultOutput_least_witness :
  In (pickDefaultOutput Image ["bmp"; "gif"; "tiff"]) ["bmp"; "gif"; "tiff"]
  /\ forall x, In x ["bmp"; "gif"; "tiff"] ->
               String.leb (pickDefaultOutput Image ["bmp"; "gif"; "tiff"]) x = true.
Proof.
  apply pickDefaultOutput_least.
  - exact (CodeUnitSort.Sorted_sort ["tiff"; "gif"; "bmp"]).
  - discriminate.
  - intros q Hq Hin. simpl in Hq, Hin.
    repeat match goal with
           | H : _ \/ _ |- _ => destruct H
           | H : False |- _ => destruct H
           end; subst; discriminate.
Defined.


(** ** What the invoker reports *)

Local Open Scope monad_scope.

Lemma startsWith_app (a b : string) : startsWith a (a ++ b) = true.
Proof.
  induction a as [|c a IH]; [reflexivity|].
  simpl. unfold startsWith; fold startsWith. now rewrite Ascii.eqb_refl, IH.
Qed.

Lemma join_head (sep x : string) (xs : list string) :
  startsWith x (join sep (x :: xs)) = true.
Proof.
  unfold join. destruct xs as [|y ys].
  - simpl. rewrite <- (app_empty_r x) at 2. apply startsWith_app.
  - change (String.concat sep (x :: y :: ys))
      with (x ++ sep ++ String.concat sep (y :: ys)).
    apply startsWith_app.
Qed.

(** One process, then either its output or the error built from the
    failure. *)
Lemma runCommand_cases (cmd : string) (args : list string) (e : Env) (s : State) :
  runCommand cmd args e s
  = (match execFile e cmd args with
     | inr out => Returned out
     | inl err =>
         Thrown (newError (if truthy (errorDetails err) then errorDetails err
                           else "Conversion failed"))
     end,
     mkState (toolCache s) ((cmd, args) :: spawned s) (uuidsDrawn s)).
Proof.
  unfold runCommand, tryCatch, execFileAsync, throw.
  now destruct (execFile e cmd args).
Qed.

Lemma failure_message_nonempty (err : JSError) :
  (if truthy (errorDetails err) then errorDetails err else "Conversion failed")
  <> EmptyString.
Proof.
  destruct (truthy (errorDetails err)) eqn:T; [|discriminate].
  intros E. rewrite E in T. discriminate T.
Qed.

(** X8: [runCommand] starts exactly one process; it hands back the
    output of a process that succeeds; for a process that fails it throws
    an error whose message is never empty: the non-empty ones among the
    error's message, standard output and standard error, in that order,
    one per line, or the fixed text when there is none. *)
Theorem runCommand_outcome (cmd : string) (args : list string) (e : Env) (s : State) :
  snd (runCommand cmd args e s)
  = mkState (toolCache s) ((cmd, args) :: spawned s) (uuidsDrawn s)
  /\ (forall out, execFile e cmd args = inr out ->
                  fst (runCommand cmd args e s) = Returned out)
  /\ (forall err, execFile e cmd args = inl err ->
        exists msg,
          fst (runCommand cmd args e s) = Thrown (newError msg)
          /\ msg <> EmptyString
          /\ (errorParts err = [] -> msg = "Conversion failed")
          /\ (errorParts err <> [] ->
              msg = join (String LF EmptyString) (errorParts err)
              /\ forall first rest, errorParts err = first :: rest ->
                                    startsWith first msg = true)).
Proof.
  unfold runCommand, tryCatch, execFileAsync, throw.
  destruct (execFile e cmd args) as [err|out] eqn:X; simpl.
  - split; [reflexivity|]. split; [intros out [=]|].
    intros err' [= <-]. eexists. split; [reflexivity|].
    unfold errorDetails. fold (errorParts err).
    destruct (errorParts err) as [|first rest] eqn:P.
    + simpl. split; [discriminate|]. split; [reflexivity | congruence].
    + assert (Hf : truthy first = true).
      { assert (Hin : In first (errorParts err)) by (rewrite P; now left).
        unfold errorParts in Hin. now apply filter_In in Hin. }
      assert (Hj : truthy (join (String LF EmptyString) (first :: rest)) = true).
      { pose proof (join_head (String LF EmptyString) first rest) as Hs.
        destruct (join (String LF EmptyString) (first :: rest));
          [|reflexivity].
        destruct first; [discriminate Hf | discriminate Hs]. }
      rewrite Hj. split.
      * intros E. now rewrite E in Hj.
      * split; [discriminate|]. intros _. split; [reflexivity|].
        intros f r [= <- <-]. apply join_head.
  - split; [reflexivity|]. split; [now intros out' [= <-] | intros err [=]].
Qed.

Section InvokerFacts.

Context `{PathOps}.

(** The guard in front of the tool does nothing, whatever [overwrite]
    says. *)
Lemma guard_noop (opts : ConvertOptions) (e : Env) (s : State) :
  (if negb (overwrite opts)
   then tryCatch (access (outputPath opts) ;;; throw (newError existsMessage))
                 (fun _ => ret tt)
   else ret tt) e s = (Returned tt, s).
Proof.
  destruct (overwrite opts); simpl; [reflexivity | apply overwrite_guard_swallowed].
Qed.

Lemma convertWithTool_run (opts : ConvertOptions) (e : Env) (s : State) :
  exists args,
    convertWithTool opts e s
    = (runCommand (bin (optTool opts)) args ;;; ret (outputPath opts)) e s
    /\ (converter opts <> Ffmpeg ->
        forall b, convertWithTool (withOverwrite b opts) e s
                  = convertWithTool opts e s)
    /\ (converter opts = Ffmpeg ->
        args = ["-hide_banner"; "-loglevel"; "error";
                if overwrite opts then "-y" else "-n";
                "-i"; inputPath opts; outputPath opts]).
Proof.
  assert (Hsame : converter opts <> Ffmpeg ->
                  forall b, convertWithTool (withOverwrite b opts) e s
                            = convertWithTool opts e s).
  { intros Hne b. unfold convertWithTool.
    unfold bind at 1. rewrite guard_noop. symmetry.
    unfold bind at 1. rewrite guard_noop. simpl.
    destruct (converter opts); [reflexivity | congruence | reflexivity | reflexivity]. }
  unfold convertWithTool at 1. unfold bind at 1. rewrite guard_noop.
  destruct (converter opts) eqn:K; eexists;
    (split; [reflexivity|]); (split; [exact Hsame|]);
    intros Hk; try discriminate Hk.
  reflexivity.
Qed.

End InvokerFacts.

(** X9: whatever [overwrite] says and whether or not the destination
    exists, [convertWithTool] starts exactly one process, the tool's
    command, draws no token and leaves the cache alone; it returns the
    given output path, unchanged, exactly when that process succeeds, and
    otherwise throws an error with a non-empty message. *)
Theorem convertWithTool_outcome `{PathOps} (opts : ConvertOptions) (e : Env) (s : State) :
  exists args,
    snd (convertWithTool opts e s)
    = mkState (toolCache s) ((bin (optTool opts), args) :: spawned s) (uuidsDrawn s)
    /\ (forall out, execFile e (bin (optTool opts)) args = inr out ->
                    fst (convertWithTool opts e s) = Returned (outputPath opts))
    /\ (forall err, execFile e (bin (optTool opts)) args = inl err ->
          exists msg, fst (convertWithTool opts e s) = Thrown (newError msg)
                      /\ msg <> EmptyString).
Proof.
  destruct (convertWithTool_run opts e s) as (args & E & _).
  exists args. rewrite E. unfold bind. rewrite runCommand_cases.
  destruct (execFile e (bin (optTool opts)) args) as [err|out]; simpl.
  - split; [reflexivity|]. split; [intros out [=]|].
    intros err' [= <-]. eexists. split; [reflexivity|].
    apply failure_message_nonempty.
  - split; [reflexivity|]. split; [reflexivity | intros err [=]].
Qed.

(** X10: the [overwrite] flag reaches the media tool only, as [-y] or
    [-n] in the fourth place of its command line; for the image, markup
    and office tool a call behaves the same with the flag on or off. *)
Theorem overwrite_reaches_ffmpeg_only `{PathOps}
    (opts : ConvertOptions) (e : Env) (s : State) :
  (converter opts <> Ffmpeg ->
   forall b, convertWithTool (withOverwrite b opts) e s = convertWithTool opts e s)
  /\ (converter opts = Ffmpeg ->
      spawned (snd (convertWithTool opts e s))
      = (bin (optTool opts),
         ["-hide_banner"; "-loglevel"; "error";
          if overwrite opts then "-y" else "-n";
          "-i"; inputPath opts; outputPath opts]) :: spawned s).
Proof.
  destruct (convertWithTool_run opts e s) as (args & E & Hsame & Hff).
  split; [exact Hsame|].
  intros K. rewrite E, <- (Hff K). unfold bind.
  pose proof (runCommand_spawns_once (bin (optTool opts)) args e s) as R.
  destruct (runCommand (bin (optTool opts)) args e s) as [[o|err] s1]; exact R.
Qed.


(** ** What the clipboard resolver hands out *)

Local Open Scope monad_scope.

Section ClipboardFacts.

Context `{PathOps}.

(** A captured image is returned only after [access] found the file. *)
Lemma capture_checked (cmd : string) (args : list string) (tempPath : string)
    (e : Env) (s : State) :
  exists r s',
    tryCatch (execFileAsync cmd args ;;; access tempPath ;;; ret (Some tempPath))
             (fun _ => ret None) e s = (Returned r, s')
    /\ (forall p, r = Some p -> fsAccess e p = true).
Proof.
  unfold tryCatch, bind, execFileAsync, access, ret.
  destruct (execFile e cmd args) as [err|out].
  - do 2 eexists. split; [reflexivity|]. intros p [=].
  - destruct (fsAccess e tempPath) eqn:A; do 2 eexists.
    + split; [reflexivity|]. now intros p [= <-].
    + split; [reflexivity|]. intros p [=].
Qed.

Lemma readClipboardImageToTemp_checked (e : Env) (s : State) :
  exists r s',
    readClipboardImageToTemp e s = (Returned r, s')
    /\ (forall p, r = Some p -> fsAccess e p = true).
Proof.
  unfold readClipboardImageToTemp, bind at 1, asks.
  destruct (isWindows e).
  - unfold readClipboardImageWindows, bind, randomUUID, asks.
    apply capture_checked.
  - unfold readClipboardImageMac. unfold bind at 1.
    destruct (total_findBinary "pngpaste" e s) as [found Hf].
    destruct (findBinary "pngpaste" e s) as [r0 s0]. simpl in Hf. subst r0.
    destruct found as [cmd|].
    + destruct (truthy cmd); simpl.
      * unfold bind, randomUUID, asks. apply capture_checked.
      * do 2 eexists. split; [reflexivity|]. intros p [=].
    + do 2 eexists. split; [reflexivity|]. intros p [=].
Qed.

End ClipboardFacts.

(** X11: apart from a file reference on the clipboard, which is handed
    back as it is, every path [readClipboardFile] returns has passed
    [access]: the path the text names, or the image just captured. *)
Theorem readClipboardFile_checked `{PathOps}
    (e : Env) (s s' : State) (p : string) :
  readClipboardFile e s = (Returned (Some p), s') ->
  (file (clipboardRead e) = Some p /\ p <> EmptyString /\ s' = s)
  \/ (someTruthy (file (clipboardRead e)) = false /\ fsAccess e p = true).
Proof.
  destruct (someTruthy (file (clipboardRead e))) eqn:F.
  - unfold readClipboardFile, bind at 1, asks. rewrite F.
    intros [= Hp <-]. left. split; [exact Hp|]. split; [|reflexivity].
    rewrite Hp in F. simpl in F. intros ->. discriminate F.
  - intros E. right. split; [reflexivity|].
    destruct (truthy (text (clipboardRead e))) eqn:T.
    + destruct (readClipboardFile_text_first e s F T)
        as (_ & [R | [(q & R & A) | (err & R & _)]]);
        rewrite E in R; simpl in R; try discriminate R.
      now injection R as ->.
    + rewrite (readClipboardFile_image_last e s F T) in E.
      unfold bind in E.
      destruct (readClipboardImageToTemp_checked e s) as (r & s1 & R & Hacc).
      rewrite R in E.
      destruct (someTruthy r); injection E as E _; [|discriminate E].
      now apply Hacc.
Qed.

Lemma readClipboardFile_checked_witness :
  let e := mkEnv false Sample.noPreferences (fun _ _ => Sample.failed)
             (fun p => String.eqb p "/home/u/notes.md") (fun _ => None)
             None None "/tmp" Sample.twoUuids
             (mkContent "  /home/u/notes.md  " None) (fun _ => None) in
  readClipboardFile e initialState = (Returned (Some "/home/u/notes.md"), initialState)
  /\ fsAccess e "/home/u/notes.md" = true.
Proof.
  intros e. split; [reflexivity|].
  destruct (readClipboardFile_checked e initialState initialState
              "/home/u/notes.md" eq_refl) as [(F & _) | (_ & A)];
    [discriminate F | exact A].
Defined.

(** X12: [readClipboardFile] throws in one case only: no file
    reference, text that after trimming starts with [file://], and
    [fileURLToPath] rejecting it; nothing has been started or drawn by
    then. *)
Theorem readClipboardFile_throws_only_on_url `{PathOps}
    (e : Env) (s s' : State) (err : JSError) :
  readClipboardFile e s = (Thrown err, s') ->
  someTruthy (file (clipboardRead e)) = false
  /\ startsWith "file://" (trim (text (clipboardRead e))) = true
  /\ fileURLToPath e (trim (text (clipboardRead e))) = None
  /\ s' = s.
Proof.
  intros E.
  destruct (someTruthy (file (clipboardRead e))) eqn:F.
  - unfold readClipboardFile, bind at 1, asks in E. rewrite F in E. discriminate E.
  - split; [reflexivity|].
    destruct (truthy (text (clipboardRead e))) eqn:T.
    + destruct (readClipboardFile_text_first e s F T)
        as (Hs & [R | [(q & R & A) | (err' & R & U & N)]]);
        rewrite E in R, Hs; simpl in R, Hs; try discriminate R.
      now repeat split.
    + rewrite (readClipboardFile_image_last e s F T) in E.
      unfold bind in E.
      destruct (readClipboardImageToTemp_checked e s) as (r & s1 & R & _).
      rewrite R in E. destruct (someTruthy r); discriminate E.
Qed.

Lemma readClipboardFile_throws_only_on_url_witness :
  startsWith "file://" (trim (text (clipboardRead Sample.remoteUrlMac))) = true
  /\ fileURLToPath Sample.remoteUrlMac
       (trim (text (clipboardRead Sample.remoteUrlMac))) = None.
Proof.
  destruct (readClipboardFile_throws_only_on_url Sample.remoteUrlMac
              initialState initialState (newError "Invalid file URL") eq_refl)
    as (_ & U & N & _).
  now split.
Defined.


(** ** Quoting for the PowerShell script *)

Lemma doubleQuotes_no_lone_quote (s : string) : loneQuote (doubleQuotes s) = false.
Proof.
  induction s as [|c s IH]; [reflexivity|].
  simpl. destruct (Ascii.eqb c "'") eqn:E.
  - simpl. now rewrite E.
  - simpl. now rewrite E.
Qed.

Lemma doubleQuotes_injective (s t : string) :
  doubleQuotes s = doubleQuotes t -> s = t.
Proof.
  revert t. induction s as [|c s IH]; intros [|d t]; simpl.
  - reflexivity.
  - destruct (Ascii.eqb d "'"); discriminate.
  - destruct (Ascii.eqb c "'"); discriminate.
  - destruct (Ascii.eqb c "'") eqn:Ec, (Ascii.eqb d "'") eqn:Ed.
    + intros [= -> E]. f_equal. now apply IH.
    + intros [= -> E]. congruence.
    + intros [= -> E]. congruence.
    + intros [= -> E]. f_equal. now apply IH.
Qed.

(** X13: the path written into the PowerShell script has every quote
    doubled, so no quote of the path stands alone (none can end the
    quoted literal early), and two different paths give two different
    scripts. *)
Theorem powershellScript_quoting (tempPath : string) :
  loneQuote (doubleQuotes tempPath) = false
  /\ (includesChar "'" tempPath = false -> doubleQuotes tempPath = tempPath)
  /\ forall other, powershellScript other = powershellScript tempPath ->
                   other = tempPath.
Proof.
  split; [apply doubleQuotes_no_lone_quote|]. split.
  - induction tempPath as [|c s IH]; [reflexivity|].
    cbn [doubleQuotes includesChar]. intros Hc. apply orb_false_iff in Hc as [Hc Hs].
    rewrite Ascii.eqb_sym in Hc. rewrite Hc. now rewrite IH.
  - intros other E. unfold powershellScript, join in E. simpl in E.
    injection E as E. do 2 apply app_cancel_r in E.
    now apply doubleQuotes_injective.
Qed.

(** ** The extension of a path *)

Section ExtensionFacts.

Import Posix.

Lemma lower_slash (c : ascii) : Ascii.eqb (lower c) "/" = Ascii.eqb c "/".
Proof. destruct c as [[] [] [] [] [] [] [] []]; reflexivity. Qed.

Lemma includesChar_toLowerCase (c : ascii) (s : string) :
  (forall d, Ascii.eqb (lower d) c = Ascii.eqb d c) ->
  includesChar c (toLowerCase s) = includesChar c s.
Proof.
  intros Hc. induction s as [|d r IH]; [reflexivity|].
  cbn [toLowerCase includesChar]. rewrite IH. f_equal.
  now rewrite (Ascii.eqb_sym c (lower d)), Hc, (Ascii.eqb_sym d c).
Qed.

Lemma includesChar_trimEnd (c : ascii) (s : string) :
  includesChar c s = false -> includesChar c (trimEnd s) = false.
Proof.
  induction s as [|d r IH]; [reflexivity|].
  cbn [includesChar trimEnd]. intros Hc.
  apply orb_false_iff in Hc as [Hd Hr]. specialize (IH Hr).
  destruct (trimEnd r) as [|d' t].
  - destruct (is_ws d); [reflexivity|]. cbn [includesChar]. now rewrite Hd.
  - cbn [includesChar] in *. now rewrite Hd, IH.
Qed.

Lemma cutAtLastDot_spec (s : string) :
  match cutAtLastDot s with
  | Some (before, ext) =>
      s = before ++ ext
      /\ exists rest, ext = String "." rest /\ includesChar "." rest = false
  | None => includesChar "." s = false
  end.
Proof.
  induction s as [|c r IH]; [reflexivity|].
  cbn [cutAtLastDot includesChar].
  destruct (cutAtLastDot r) as [[b x]|].
  - destruct IH as (E & rest & Ex & Hr).
    split; [cbn [append]; now rewrite <- E | now exists rest].
  - destruct (Ascii.eqb c ".") eqn:Ec.
    + apply Ascii.eqb_eq in Ec. subst c. split; [reflexivity | now exists r].
    + now rewrite Ascii.eqb_sym, Ec.
Qed.

Lemma cutAtLastDot_app (b x : string) :
  includesChar "." x = false ->
  cutAtLastDot (b ++ String "." x) = Some (b, String "." x).
Proof.
  intros Hx. induction b as [|c b IH].
  - cbn [append cutAtLastDot]. pose proof (cutAtLastDot_spec x) as S.
    destruct (cutAtLastDot x) as [[b' x']|].
    + destruct S as (E & rest & -> & _).
      rewrite E, includesChar_app in Hx.
      apply orb_false_iff in Hx as [_ Hx]. cbn [includesChar] in Hx.
      rewrite Ascii.eqb_refl in Hx. discriminate Hx.
    + now rewrite Ascii.eqb_refl.
  - cbn [append cutAtLastDot]. now rewrite IH.
Qed.

Lemma normalizeExt_dotted (rest : string) :
  normalizeExt (String "." rest) = toLowerCase (trimEnd rest).
Proof.
  unfold normalizeExt, trim.
  replace (trimStart (String "." rest)) with (String "." rest) by reflexivity.
  cbn [trimEnd]. now destruct (trimEnd rest).
Qed.

Lemma lastPortion_plain (f : string) :
  includesChar "/" f = false -> lastPortion f = f.
Proof.
  intros Hs. unfold lastPortion, segments. rewrite (splitOn_whole _ _ Hs).
  cbn [fold_left]. now destruct f.
Qed.

Lemma lastPortion_after (dir f : string) :
  truthy f = true -> includesChar "/" f = false ->
  lastPortion (dir ++ String "/" f) = f.
Proof.
  intros Ht Hs. unfold lastPortion, segments.
  rewrite splitOn_app, (splitOn_whole _ _ Hs), fold_left_app.
  cbn [fold_left]. now rewrite Ht.
Qed.

Lemma directoryPart_shape (dir : string) :
  directoryPart dir = EmptyString \/ exists d, directoryPart dir = d ++ "/".
Proof.
  unfold directoryPart. destruct (truthy dir); [|now left]. cbn [negb].
  destruct (rev (normStack (negb (isAbsolute dir)) (segments dir) [])) as [|k ks].
  - destruct (isAbsolute dir); [right; now exists EmptyString | now left].
  - right. eexists. now rewrite <- app_assoc_s.
Qed.

Lemma lastPortion_joined (dir f : string) :
  truthy f = true -> includesChar "/" f = false ->
  lastPortion (directoryPart dir ++ f) = f.
Proof.
  intros Ht Hs. destruct (directoryPart_shape dir) as [-> | (d & ->)].
  - now apply lastPortion_plain.
  - rewrite app_assoc_s. now apply lastPortion_after.
Qed.

Lemma extname_shape (p : string) :
  extname p = EmptyString
  \/ exists rest, extname p = String "." rest
                  /\ includesChar "." rest = false
                  /\ includesChar "/" rest = false.
Proof.
  unfold extname. pose proof (cutAtLastDot_spec (lastPortion p)) as S.
  pose proof (lastPortion_no_slash p) as HL.
  destruct (cutAtLastDot (lastPortion p)) as [[b x]|]; [|now left].
  destruct S as (E & rest & -> & Hr).
  destruct (negb (truthy b)); [now left|].
  destruct (String.eqb (lastPortion p) ".."); [now left|].
  right. exists rest. split; [reflexivity|]. split; [exact Hr|].
  rewrite E, includesChar_app in HL. apply orb_false_iff in HL as [_ HL].
  cbn [includesChar] in HL. now apply orb_false_iff in HL.
Qed.

Lemma extname_of_portion (p : string) : extname (lastPortion p) = extname p.
Proof.
  unfold extname. now rewrite (lastPortion_plain _ (lastPortion_no_slash p)).
Qed.

Lemma stripSuffix_app_inv (suffix b : string) :
  stripSuffix suffix (b ++ suffix) = Some b.
Proof.
  induction b as [|c b IH]; rewrite stripSuffix_unfold.
  - cbn [append]. now rewrite String.eqb_refl.
  - replace (String.eqb (String c b ++ suffix) suffix) with false.
    + cbn [append]. now rewrite IH.
    + symmetry. apply String.eqb_neq. intros E.
      apply (f_equal String.length) in E. rewrite length_app in E.
      simpl in E. lia.
Qed.

Lemma basename_truthy (p suffix : string) :
  truthy (lastPortion p) = true -> truthy (basename p suffix) = true.
Proof.
  intros Hp. unfold basename. destruct (negb (truthy suffix)); [exact Hp|].
  destruct (stripSuffix suffix (lastPortion p)) as [b|]; [|exact Hp].
  now destruct (truthy b) eqn:Tb.
Qed.

(** A file name made of a non-empty stem, a dot and an extension with
    neither dot nor slash, joined to any directory: the path ends in that
    name, and [extname] and [basename] take it apart again. *)
Lemma joined_name (dir stem ext : string) :
  truthy stem = true -> includesChar "/" stem = false ->
  truthy ext = true -> includesChar "." ext = false ->
  includesChar "/" ext = false ->
  let path := joinPaths [dir; stem ++ "." ++ ext] in
  path = directoryPart dir ++ stem ++ "." ++ ext
  /\ extname path = String "." ext
  /\ basename path (extname path) = stem.
Proof.
  intros Hst Hss Het Hed Hes path. subst path.
  set (f := stem ++ "." ++ ext).
  assert (Hfs : includesChar "/" f = false).
  { subst f. rewrite includesChar_app, Hss. cbn [append includesChar orb].
    now rewrite Hes. }
  assert (Hft : truthy f = true).
  { subst f. apply truthy_app_r. reflexivity. }
  assert (Hlast : last f = last ext).
  { subst f. rewrite last_app by reflexivity.
    change ("." ++ ext) with (EmptyString ++ String "." ext).
    cbn [append last]. destruct ext; [discriminate Het | reflexivity]. }
  assert (Hnd : forall t, last t = Some "."%char -> String.eqb f t = false).
  { intros t Ht. apply String.eqb_neq. intros E. rewrite E, Ht in Hlast.
    pose proof (last_includes _ _ Hed) as HL. rewrite <- Hlast in HL.
    discriminate HL. }
  assert (Hp : plainName f = true).
  { unfold plainName. now rewrite Hft, Hfs, (Hnd "."), (Hnd ".."). }
  rewrite (joinPaths_plain _ _ Hp).
  assert (Hx : extname (directoryPart dir ++ f) = String "." ext).
  { unfold extname. rewrite (lastPortion_joined _ _ Hft Hfs).
    rewrite (Hnd "..") by reflexivity.
    subst f. change ("." ++ ext) with (String "." ext).
    now rewrite (cutAtLastDot_app _ _ Hed), Hst. }
  split; [reflexivity|]. split; [exact Hx|].
  rewrite Hx. unfold basename. cbn [truthy negb].
  rewrite (lastPortion_joined _ _ Hft Hfs). subst f.
  change ("." ++ ext) with (String "." ext).
  now rewrite stripSuffix_app_inv, Hst.
Qed.

End ExtensionFacts.

(** X14: on a POSIX platform the extension [getFileExt] reads off a path
    has no dot and no slash in it, is in lower case and does not end in
    white space; it is read from the last portion of the path alone, so
    the directories of the path never contribute. *)
Theorem getFileExt_shape (filePath : string) :
  let ext := @getFileExt posixPath filePath in
  includesChar "." ext = false
  /\ includesChar "/" ext = false
  /\ toLowerCase ext = ext
  /\ cleanEnd ext = true
  /\ @getFileExt posixPath (Posix.lastPortion filePath) = ext.
Proof.
  intros ext. subst ext. unfold getFileExt. cbn [path_extname posixPath].
  split; [|split; [|split; [|split]]].
  - destruct (extname_shape filePath) as [-> | (rest & -> & Hd & _)];
      [reflexivity|].
    rewrite normalizeExt_dotted, (includesChar_toLowerCase _ _ lower_dot).
    now apply includesChar_trimEnd.
  - destruct (extname_shape filePath) as [-> | (rest & -> & _ & Hs)];
      [reflexivity|].
    rewrite normalizeExt_dotted, (includesChar_toLowerCase _ _ lower_slash).
    now apply includesChar_trimEnd.
  - apply normalizeExt_lower.
  - apply normalizeExt_cleanEnd.
  - now rewrite extname_of_portion.
Qed.

(** X15: on a POSIX platform, when the normalized output extension is
    not empty and has neither dot nor slash, the path [buildOutputPath]
    returns carries that extension: [getFileExt] reads it back.  For a
    saved file the input must have a file name, and the path then keeps
    the input's base name; for the clipboard the token must have no
    slash. *)
Theorem buildOutputPath_extension
    (inputPath outputExt : string) (outputDir : option string)
    (destination : OutputDestination) (e : Env) (s : State) :
  let ext := normalizeExt outputExt in
  let base := Posix.basename inputPath (Posix.extname inputPath) in
  truthy ext = true ->
  includesChar "." ext = false ->
  includesChar "/" ext = false ->
  (destination <> DestClipboard -> truthy (Posix.lastPortion inputPath) = true) ->
  (destination = DestClipboard ->
   includesChar "/" (uuidSource e (uuidsDrawn s)) = false) ->
  exists path s',
    @buildOutputPath posixPath inputPath outputExt outputDir destination e s
    = (Returned path, s')
    /\ @getFileExt posixPath path = ext
    /\ (destination <> DestClipboard ->
        Posix.basename path (Posix.extname path) = base).
Proof.
  intros ext base Ht Hd Hs Hname Htoken.
  pose proof (basename_no_slash inputPath (Posix.extname inputPath)) as Hbs.
  assert (Hback : normalizeExt (String "." ext) = ext).
  { rewrite normalizeExt_dotted. subst ext.
    rewrite (trimEnd_clean _ (normalizeExt_cleanEnd outputExt)).
    apply normalizeExt_lower. }
  unfold buildOutputPath, getFileExt.
  cbn [path_join path_extname path_basename posixPath].
  fold base. fold ext.
  destruct destination.
  - unfold bind, randomUUID, asks, ret.
    set (u := uuidSource e (uuidsDrawn s)).
    replace (base ++ "-converted-" ++ u ++ "." ++ ext)
      with ((base ++ "-converted-" ++ u) ++ "." ++ ext)
      by (now rewrite !app_assoc_s).
    destruct (joined_name (osTmpdir e) (base ++ "-converted-" ++ u) ext)
      as (_ & Hx & _); auto.
    + apply truthy_app_r. reflexivity.
    + rewrite !includesChar_app. fold base in Hbs. rewrite Hbs.
      unfold u. rewrite (Htoken eq_refl). reflexivity.
    + eexists. eexists. split; [reflexivity|]. rewrite Hx.
      split; [exact Hback | congruence].
  - unfold ret.
    match goal with
    | |- context [Posix.joinPaths [?d; _]] =>
        destruct (joined_name d base ext) as (_ & Hx & Hb); auto
    end.
    + apply basename_truthy, Hname. discriminate.
    + eexists. eexists. split; [reflexivity|].
      split; [rewrite Hx; exact Hback | intros _; exact Hb].
  - unfold ret.
    match goal with
    | |- context [Posix.joinPaths [?d; _]] =>
        destruct (joined_name d base ext) as (_ & Hx & Hb); auto
    end.
    + apply basename_truthy, Hname. discriminate.
    + eexists. eexists. split; [reflexivity|].
      split; [rewrite Hx; exact Hback | intros _; exact Hb].
Qed.

Lemma buildOutputPath_extension_witness :
  exists s',
    buildOutputPath "/home/u/archive.tar.GZ" " .WebP " (Some "/out/./x/..") DestBoth
      Sample.docsMac initialState
    = (Returned "/out/archive.tar.webp", s')
    /\ getFileExt "/out/archive.tar.webp" = "webp".
Proof.
  destruct (buildOutputPath_extension "/home/u/archive.tar.GZ" " .WebP "
              (Some "/out/./x/..") DestBoth Sample.docsMac initialState)
    as (path & s' & E & Hx & _);
    [reflexivity | reflexivity | reflexivity | reflexivity | discriminate |].
  pose proof E as E'. vm_compute in E'. injection E' as <- <-.
  exists initialState. split; [exact E | exact Hx].
Defined.

(** ** The format dropdown *)

Section Dropdown.

Context `{PathOps}.

(** From a sound cache, the tool of every decision has the shape the
    registry gives to the descriptors of its kind. *)
Lemma detectConverter_sound (ext : string) (e : Env) (s s' : State)
    (d : ConverterDecision) :
  cacheOk (toolCache s) ->
  detectConverter ext e s = (Returned (Some d), s') ->
  toolOk (kind d) (tool d).
Proof.
  intros Hok Hrun.
  destruct (detectConverter_run ext e s)
    as (m & f & p & l & s1 & s2 & s3 & s4 & E1 & E2 & E3 & E4 & E).
  rewrite E in Hrun. injection Hrun as Hd _.
  pose proof (ensureMagick_ok e s Hok) as P1.
  unfold post in P1. rewrite E1 in P1. destruct P1 as [Hok1 Hm].
  pose proof (ensureFfmpeg_ok e s1 Hok1) as P2.
  unfold post in P2. rewrite E2 in P2. destruct P2 as [Hok2 Hf].
  pose proof (ensurePandoc_ok e s2 Hok2) as P3.
  unfold post in P3. rewrite E3 in P3. destruct P3 as [Hok3 Hp].
  pose proof (ensureLibreOffice_ok e s3 Hok3) as P4.
  unfold post in P4. rewrite E4 in P4. destruct P4 as [_ Hl].
  destruct (chooseConverter_tool ext m f p l d Hd) as (Hentry & _).
  destruct (kind d); simpl in Hentry; auto.
Qed.

End Dropdown.

Lemma toolOk_output (k : ConverterKind) (t : ToolFormats) :
  toolOk k t ->
  NoDup (output t) /\ forall x, In x (output t) -> truthy x = true.
Proof.
  assert (T : forall x : string, x <> EmptyString -> truthy x = true)
    by (intros [|c r] Hx; [contradiction | reflexivity]).
  destruct k; simpl.
  - intros (_ & Hn & _ & Hall). split; [exact Hn|].
    intros x Hx. apply T. apply (Hall x Hx).
  - intros (_ & Hn & _ & Hall). split; [exact Hn|].
    intros x Hx. apply T. apply (Hall x Hx).
  - intros (_ & Hn & _ & Hall). split; [exact Hn|].
    intros x Hx. apply T. apply (Hall x Hx).
  - intros (_ & _ & _ & Hn & Hall). split; [exact Hn|].
    intros x Hx. apply T. apply (Hall x Hx).
Qed.

Lemma filter_keeps_all {A} (f : A -> bool) (l : list A) :
  (forall x, In x l -> f x = true) -> filter f l = l.
Proof.
  induction l as [|a l IH]; simpl; [reflexivity|].
  intros Hall. rewrite (Hall a) by now left.
  f_equal. apply IH. intros x Hx. apply Hall. now right.
Qed.

(** Taking one element of a duplicate-free list to the front. *)
Lemma Permutation_front (x : string) (l : list string) :
  NoDup l -> In x l ->
  Permutation (x :: filter (fun y => negb (String.eqb y x)) l) l.
Proof.
  induction l as [|a l IH]; intros Hn Hin; [destruct Hin|].
  inversion Hn as [|a' l' Ha Hl]; subst. simpl.
  destruct (String.eqb a x) eqn:E; simpl.
  - apply String.eqb_eq in E. subst a.
    rewrite filter_keeps_all; [reflexivity|].
    intros y Hy. apply negb_true_iff, String.eqb_neq. intros ->. contradiction.
  - destruct Hin as [-> | Hin]; [now rewrite String.eqb_refl in E|].
    etransitivity; [apply perm_swap|]. apply perm_skip. now apply IH.
Qed.

Lemma preferredByCategory_truthy (c : FileCategory) :
  truthy (firstOr (preferredByCategory c) "png") = true.
Proof. now destruct c. Qed.

(** X16: for a decision of [detectConverter] (from a sound cache, as the
    empty one is) and the output formats of its tool, the dropdown's
    "Recommended" section holds exactly the default output, and when the
    tool lists output formats the two sections together hold each of them
    exactly once: nothing is missing, nothing is offered twice. *)
Theorem sortedFormats_each_once `{PathOps}
    (ext : string) (e : Env) (s s' : State) (d : ConverterDecision) :
  cacheOk (toolCache s) ->
  detectConverter ext e s = (Returned (Some d), s') ->
  let sections := ConvertForm.sortedFormats d (output (tool d)) in
  fst sections = [defaultOutput d]
  /\ NoDup (fst sections ++ snd sections)
  /\ (output (tool d) <> [] ->
      Permutation (fst sections ++ snd sections) (output (tool d)))
  /\ (output (tool d) = [] -> snd sections = []).
Proof.
  intros Hok Hrun sections.
  pose proof (detectConverter_sound ext e s s' d Hok Hrun) as Htool.
  apply toolOk_output in Htool as [Hn Hall].
  destruct (detectConverter_run ext e s)
    as (m & f & p & l & s1 & s2 & s3 & s4 & _ & _ & _ & _ & E).
  rewrite E in Hrun. injection Hrun as Hd _.
  destruct (chooseConverter_tool ext m f p l d Hd) as (_ & _ & Hdef).
  assert (Ht : truthy (defaultOutput d) = true).
  { rewrite Hdef. destruct (output (tool d)) as [|o os] eqn:O.
    - destruct (pickDefaultOutput_no_outputs (category d)) as [-> _].
      apply preferredByCategory_truthy.
    - apply Hall. apply pickDefaultOutput_in_outputs. discriminate. }
  assert (Hsec : sections
                 = ([defaultOutput d],
                    filter (fun y => negb (String.eqb y (defaultOutput d)))
                           (output (tool d)))).
  { subst sections. unfold ConvertForm.sortedFormats.
    rewrite <- Hdef, Ht. cbn [app uniq filter].
    rewrite String.eqb_refl. cbn [negb]. f_equal.
    apply filter_ext. intros y. unfold includes. cbn [existsb].
    now destruct (String.eqb y (defaultOutput d)). }
  rewrite Hsec. cbn [fst snd app].
  assert (Hperm : output (tool d) <> [] ->
                  Permutation
                    (defaultOutput d
                     :: filter (fun y => negb (String.eqb y (defaultOutput d)))
                          (output (tool d)))
                    (output (tool d))).
  { intros Hne. apply Permutation_front; [exact Hn|].
    rewrite Hdef. now apply pickDefaultOutput_in_outputs. }
  split; [reflexivity|]. split; [|split].
  - constructor.
    + intros Hin. apply filter_In in Hin as [_ Hin].
      now rewrite String.eqb_refl in Hin.
    + now apply NoDup_filter.
  - exact Hperm.
  - now intros ->.
Qed.

Lemma sortedFormats_each_once_witness :
  cacheOk (toolCache initialState)
  /\ exists d s',
       detectConverter "heic" Sample.imageMac initialState = (Returned (Some d), s')
       /\ fst (ConvertForm.sortedFormats d (output (tool d))) = [defaultOutput d]
       /\ Permutation (fst (ConvertForm.sortedFormats d (output (tool d)))
                       ++ snd (ConvertForm.sortedFormats d (output (tool d))))
                      (output (tool d)).
Proof.
  split; [apply cacheOk_empty|].
  destruct (detectConverter "heic" Sample.imageMac initialState)
    as [[[d|]|err] s'] eqn:E; vm_compute in E; try discriminate E.
  exists d, s'. split; [reflexivity|].
  pose proof (sortedFormats_each_once "heic" Sample.imageMac initialState s' d
                cacheOk_empty E) as (H1 & _ & H3 & _).
  split; [exact H1|]. apply H3.
  injection E as <- _. discriminate.
Defined.

(** ** Submitting the form *)

Section Submit.

Context `{PathOps} `{Host}.

Lemma buildOutputPath_run (inputPath outputExt : string)
    (outputDir : option string) (destination : OutputDestination)
    (e : Env) (s : State) :
  exists path s1,
    buildOutputPath inputPath outputExt outputDir destination e s
    = (Returned path, s1)
    /\ toolCache s1 = toolCache s /\ spawned s1 = spawned s.
Proof.
  destruct destination; unfold buildOutputPath, bind, randomUUID, asks, ret;
    eexists; eexists; (split; [reflexivity|]); split; reflexivity.
Qed.

Lemma convertWithTool_cases (opts : ConvertOptions) (e : Env) (s : State) :
  exists args,
    convertWithTool opts e s
    = (match execFile e (bin (optTool opts)) args with
       | inr _ => Returned (outputPath opts)
       | inl err => Thrown (newError (failureMessage err))
       end,
       mkState (toolCache s) ((bin (optTool opts), args) :: spawned s)
               (uuidsDrawn s)).
Proof.
  destruct (convertWithTool_run opts e s) as (args & E & _).
  exists args. rewrite E. unfold bind. rewrite runCommand_cases.
  now destruct (execFile e (bin (optTool opts)) args).
Qed.

Variables (inputPath : string) (decision : ConverterDecision)
          (outputFormats : list string) (selectedOutput : string)
          (values : ConvertForm.ConvertFormValues).

Let outputExt : string :=
  normalizeExt (if truthy (ConvertForm.values_outputFormat values)
                then ConvertForm.values_outputFormat values
                else selectedOutput).

Let submit : U unit :=
  ConvertForm.handleSubmit inputPath decision outputFormats selectedOutput values.

Let converting : UiEvent :=
  Shown (mkToast Animated "Converting file"
           (Some (kindName (kind decision) ++ " -> ." ++ outputExt))).

(** A format the form does not accept: one failure toast, nothing
    else. *)
Lemma handleSubmit_rejected (e : Env) (u : UiState) :
  acceptedFormat outputFormats outputExt = false ->
  exists toast,
    submit e u = (Returned tt, mkUi (core u) (Shown toast :: events u))
    /\ style toast = Failure.
Proof.
  unfold acceptedFormat, submit, ConvertForm.handleSubmit. fold outputExt.
  destruct (truthy outputExt); cbn [negb andb].
  - destruct outputFormats as [|o os]; [discriminate|].
    intros ->. cbn [List.length Nat.ltb Nat.leb negb andb].
    eexists. split; reflexivity.
  - intros _. eexists. split; reflexivity.
Qed.

(** A format the form accepts: the path is built, the tool run once,
    and the delivery follows its success. *)
Lemma handleSubmit_accepted (e : Env) (u : UiState) :
  acceptedFormat outputFormats outputExt = true ->
  exists dir path s1 args,
    buildOutputPath inputPath outputExt dir
      (ConvertForm.values_destination values) e (core u)
    = (Returned path, s1)
    /\ toolCache s1 = toolCache (core u)
    /\ spawned s1 = spawned (core u)
    /\ submit e u
       = (Returned tt,
          mkUi (mkState (toolCache s1)
                        ((bin (tool decision), args) :: spawned s1)
                        (uuidsDrawn s1))
               (match execFile e (bin (tool decision)) args with
                | inl err =>
                    [Updated (mkToast Failure "Conversion failed"
                                (Some (failureMessage err)))]
                | inr _ => delivered values path outputExt
                end ++ converting :: events u)).
Proof.
  intros Hacc.
  assert (Hpass : negb (truthy outputExt) = false
                  /\ (0 <? List.length outputFormats)%nat
                     && negb (includes outputExt outputFormats) = false).
  { unfold acceptedFormat in Hacc. apply andb_true_iff in Hacc as [-> Hin].
    split; [reflexivity|].
    destruct outputFormats as [|o os]; [reflexivity|]. now rewrite Hin. }
  destruct Hpass as [Ht Hin].
  unfold submit, ConvertForm.handleSubmit. fold outputExt. rewrite Ht, Hin.
  match goal with
  | |- context [buildOutputPath inputPath outputExt ?d ?dest] =>
      destruct (buildOutputPath_run inputPath outputExt d dest e (core u))
        as (path & s1 & Eb & Hc & Hs); exists d, path, s1
  end.
  destruct (convertWithTool_cases
              (mkOpts inputPath path outputExt (ConvertForm.values_overwrite values)
                      (kind decision) (tool decision)) e s1) as (args & Ec).
  cbn [bin optTool outputPath] in Ec.
  exists args. split; [exact Eb|]. split; [exact Hc|]. split; [exact Hs|].
  unfold bindU at 1, lift at 1. rewrite Eb. cbn [core events].
  unfold bindU at 1, showToast, emit at 1. cbn [core events].
  unfold tryCatchU, bindU at 1, lift at 1. cbn [core events]. rewrite Ec.
  fold converting.
  destruct (execFile e (bin (tool decision)) args) as [err|out];
    [reflexivity|].
  unfold delivered, bindU, hostCall, emit, retU.
  destruct (ConvertForm.values_destination values),
           (ConvertForm.values_openAfter values);
    cbn [andb core events];
    repeat match goal with
           | |- context [clipboardCopy path] => destruct (clipboardCopy path)
           | |- context [openTarget path] => destruct (openTarget path)
           | |- context [popToRoot] => destruct popToRoot
           end;
    reflexivity.
Qed.

End Submit.

Ltac list_cases :=
  repeat match goal with
         | H : In _ (_ :: _) |- _ => destruct H as [H | H]
         | H : In _ [] |- _ => destruct H
         | H : _ = _ |- _ => first [discriminate H | injection H as H; subst]
         end.

(** X17: [handleSubmit] never throws and leaves the tool cache alone.
    It starts a process, exactly one and the decision's tool, exactly
    when the chosen format (the form's value, or the selected output when
    that is empty), normalized, is not empty and is one of
    [outputFormats] (or [outputFormats] is empty), whatever the overwrite
    box says; otherwise it shows one failure toast and does nothing else:
    no process, no token, no call of the host. *)
Theorem handleSubmit_validates `{PathOps} `{Host}
    (inputPath : string) (decision : ConverterDecision)
    (outputFormats : list string) (selectedOutput : string)
    (values : ConvertForm.ConvertFormValues) (e : Env) (u : UiState) :
  let outputExt :=
    normalizeExt (if truthy (ConvertForm.values_outputFormat values)
                  then ConvertForm.values_outputFormat values
                  else selectedOutput) in
  exists u',
    ConvertForm.handleSubmit inputPath decision outputFormats selectedOutput
      values e u
    = (Returned tt, u')
    /\ toolCache (core u') = toolCache (core u)
    /\ (acceptedFormat outputFormats outputExt = false ->
        core u' = core u
        /\ exists toast, events u' = Shown toast :: events u
                         /\ style toast = Failure)
    /\ (acceptedFormat outputFormats outputExt = true ->
        exists args,
          spawned (core u') = (bin (tool decision), args) :: spawned (core u)).
Proof.
  intros outputExt.
  destruct (acceptedFormat outputFormats outputExt) eqn:Hacc.
  - destruct (handleSubmit_accepted inputPath decision outputFormats
                selectedOutput values e u Hacc)
      as (dir & path & s1 & args & _ & Hc & Hs & E).
    eexists. split; [exact E|]. cbn [core events toolCache spawned].
    split; [exact Hc|]. split; [discriminate|].
    intros _. exists args. now rewrite Hs.
  - destruct (handleSubmit_rejected inputPath decision outputFormats
                selectedOutput values e u Hacc) as (toast & E & Hst).
    eexists. split; [exact E|]. cbn [core events].
    split; [reflexivity|]. split; [|discriminate].
    intros _. split; [reflexivity|]. now exists toast.
Qed.

(** X18: for an accepted format, the form converts to the path that
    [buildOutputPath] gives and always ends with a verdict: the toast is
    never left as "Converting".  When the tool fails the toast is the
    failure with the tool's message, not empty, and nothing else
    happens.  Only the built path is ever copied, opened or reported:
    copied only for the clipboard destinations, opened only when asked
    and not for the clipboard alone.  The toast ends as the success, with
    the path as its message, exactly when the whole delivery went
    through, to the pop of the navigation. *)
Theorem handleSubmit_verdict `{PathOps} `{Host}
    (inputPath : string) (decision : ConverterDecision)
    (outputFormats : list string) (selectedOutput : string)
    (values : ConvertForm.ConvertFormValues) (e : Env) (u : UiState) :
  let outputExt :=
    normalizeExt (if truthy (ConvertForm.values_outputFormat values)
                  then ConvertForm.values_outputFormat values
                  else selectedOutput) in
  let destination := ConvertForm.values_destination values in
  acceptedFormat outputFormats outputExt = true ->
  exists dir path s1 args u' new toast,
    buildOutputPath inputPath outputExt dir destination e (core u)
    = (Returned path, s1)
    /\ ConvertForm.handleSubmit inputPath decision outputFormats selectedOutput
         values e u
       = (Returned tt, u')
    /\ spawned (core u') = (bin (tool decision), args) :: spawned (core u)
    /\ events u'
       = (new ++ Shown (mkToast Animated "Converting file"
                          (Some (kindName (kind decision) ++ " -> ."
                                 ++ outputExt)%string))
              :: events u)%list
    /\ lastToast new = Some toast
    /\ style toast <> Animated
    /\ (forall err, execFile e (bin (tool decision)) args = inl err ->
          new = [Updated (mkToast Failure "Conversion failed"
                            (Some (failureMessage err)))]
          /\ failureMessage err <> EmptyString)
    /\ (forall q, In (Copied q) new -> q = path /\ destination <> DestSave)
    /\ (forall q, In (Opened q) new ->
          q = path /\ ConvertForm.values_openAfter values = true
          /\ destination <> DestClipboard)
    /\ (forall p x, In (Converted p x) new -> p = path /\ x = outputExt)
    /\ (style toast = Success <-> In Popped new)
    /\ (style toast = Success -> toastMessage toast = Some path).
Proof.
  intros outputExt destination Hacc.
  destruct (handleSubmit_accepted inputPath decision outputFormats
              selectedOutput values e u Hacc)
    as (dir & path & s1 & args & Eb & Hc & Hs & E).
  fold outputExt in Eb, E. fold destination in Eb.
  exists dir, path, s1, args.
  remember (delivered values path outputExt) as dl eqn:Hdl.
  unfold delivered in Hdl. fold destination in Hdl.
  destruct (execFile e (bin (tool decision)) args) as [err|out] eqn:X.
  - do 3 eexists. split; [exact Eb|]. split; [exact E|].
    split; [cbn [core spawned]; now rewrite Hs|].
    split; [reflexivity|]. split; [reflexivity|].
    split; [discriminate|].
    split; [intros err' [= <-]; split;
            [reflexivity | apply failure_message_nonempty]|].
    cbn [style toastMessage].
    repeat split; intros; list_cases.
  - destruct destination eqn:D,
             (ConvertForm.values_openAfter values) eqn:O;
      cbn [andb] in Hdl;
      destruct (clipboardCopy path) eqn:C;
      destruct (openTarget path) eqn:Op;
      destruct popToRoot eqn:P;
      subst dl;
      (do 3 eexists; split; [exact Eb|]; split; [exact E|];
       split; [cbn [core spawned]; now rewrite Hs|];
       split; [reflexivity|]; split; [reflexivity|];
       split; [discriminate|];
       split; [intros err' [=]|];
       cbn [style toastMessage app];
       repeat split; intros; list_cases; auto; try discriminate;
       try (now left); try (right; now left); try (right; right; now left)).
Qed.

Lemma handleSubmit_verdict_witness :
  acceptedFormat ["jpg"; "png"] (normalizeExt " .PNG") = true
  /\ @ConvertForm.handleSubmit posixPath willingHost "/home/u/photo.heic"
       photoDecision ["jpg"; "png"] "jpg" saveAndCopy obligingMac
       (mkUi initialState [])
     = (Returned tt,
        mkUi (mkState emptyCache
                [("magick", ["/home/u/photo.heic"; "/out/photo.png"])] 0)
             [Popped;
              Converted "/out/photo.png" "png";
              Opened "/out/photo.png";
              Updated (mkToast Success "Conversion complete"
                         (Some "/out/photo.png"));
              Copied "/out/photo.png";
              Shown (mkToast Animated "Converting file"
                       (Some "magick -> .png"))]).
Proof.
  split; [reflexivity|].
  destruct (@handleSubmit_verdict posixPath willingHost "/home/u/photo.heic"
              photoDecision ["jpg"; "png"] "jpg" saveAndCopy obligingMac
              (mkUi initialState []) eq_refl)
    as (dir & path & s1 & args & u' & new & toast & _ & E & _).
  pose proof E as E'. vm_compute in E'. injection E' as <-. exact E.
Defined.

(** X19: when the tool succeeds but the host cannot open the result,
    the form reports "Conversion failed", with the host's message,
    although the file has been converted and, for the destination
    "both", already copied to the clipboard; the [onConverted] callback
    is not called and the navigation is not popped. *)
Theorem handleSubmit_open_failure `{PathOps} `{Host}
    (inputPath : string) (decision : ConverterDecision)
    (outputFormats : list string) (selectedOutput : string)
    (values : ConvertForm.ConvertFormValues) (e : Env) (u : UiState)
    (refusal : JSError) :
  let outputExt :=
    normalizeExt (if truthy (ConvertForm.values_outputFormat values)
                  then ConvertForm.values_outputFormat values
                  else selectedOutput) in
  acceptedFormat outputFormats outputExt = true ->
  ConvertForm.values_openAfter values = true ->
  ConvertForm.values_destination values <> DestClipboard ->
  (forall args, exists out, execFile e (bin (tool decision)) args = inr out) ->
  (forall p, clipboardCopy p = None) ->
  (forall p, openTarget p = Some refusal) ->
  exists dir path s1 args u',
    buildOutputPath inputPath outputExt dir
      (ConvertForm.values_destination values) e (core u)
    = (Returned path, s1)
    /\ ConvertForm.handleSubmit inputPath decision outputFormats selectedOutput
         values e u
       = (Returned tt, u')
    /\ spawned (core u') = (bin (tool decision), args) :: spawned (core u)
    /\ lastToast (events u')
       = Some (mkToast Failure "Conversion failed" (Some (message refusal)))
    /\ (ConvertForm.values_destination values = DestBoth ->
        In (Copied path) (events u'))
    /\ (forall ev, In ev (events u') ->
                   match ev with
                   | Converted _ _ | Popped => In ev (events u)
                   | _ => True
                   end).
Proof.
  intros outputExt Hacc Hopen Hdest Htool Hcopy Hrefuse.
  destruct (handleSubmit_accepted inputPath decision outputFormats
              selectedOutput values e u Hacc)
    as (dir & path & s1 & args & Eb & Hc & Hs & E).
  fold outputExt in Eb, E.
  destruct (Htool args) as [out X]. rewrite X in E.
  unfold delivered in E.
  rewrite Hopen, (Hcopy path), (Hrefuse path) in E.
  exists dir, path, s1, args. eexists.
  split; [exact Eb|]. split; [exact E|].
  split; [cbn [core spawned]; now rewrite Hs|].
  cbn [core events].
  destruct (ConvertForm.values_destination values); [contradiction| |];
    cbn [andb app lastToast];
    (split; [reflexivity|]); (split; [intros Hd; first [discriminate Hd | right; right; now left]|]);
    intros ev Hin; list_cases; auto; now destruct ev.
Qed.

Lemma handleSubmit_open_failure_witness :
  exists u',
    @ConvertForm.handleSubmit posixPath noOpenHost "/home/u/photo.heic"
      photoDecision ["jpg"; "png"] "jpg" saveAndCopy obligingMac
      (mkUi initialState [])
    = (Returned tt, u')
    /\ spawned (core u')
       = [("magick", ["/home/u/photo.heic"; "/out/photo.png"])]
    /\ lastToast (events u')
       = Some (mkToast Failure "Conversion failed"
                 (Some "No application can open the file"))
    /\ In (Copied "/out/photo.png") (events u').
Proof.
  destruct (@handleSubmit_open_failure posixPath noOpenHost "/home/u/photo.heic"
              photoDecision ["jpg"; "png"] "jpg" saveAndCopy obligingMac
              (mkUi initialState [])
              (newError "No application can open the file")
              eq_refl eq_refl)
    as (dir & path & s1 & args & u' & Eb & E & Hs & Ht & Hcopied & _).
  - discriminate.
  - intros args. exists (mkOut EmptyString EmptyString). reflexivity.
  - reflexivity.
  - reflexivity.
  - specialize (Hcopied eq_refl).
    pose proof E as E'. vm_compute in E'. injection E' as <-.
    eexists. split; [exact E|]. split; [reflexivity|]. split; [exact Ht|].
    cbn [events] in Hcopied |- *.
    destruct Hcopied as [Hq | [Hq | [Hq | [Hq | []]]]]; try discriminate Hq.
    injection Hq as <-. right; right; now left.
Defined.

(** ** Reading a listing back *)

Lemma splitWsFrom_name (n rest : string) (inRun : bool) :
  listedName n = true ->
  splitWsFrom inRun (n ++ String LF rest) = n :: splitWsFrom true rest.
Proof.
  unfold listedName. revert inRun.
  induction n as [|c n IH]; intros inRun Hn; [discriminate Hn|].
  cbn [truthy andb noWhiteSpace] in Hn.
  apply andb_true_iff in Hn as [Hc Hn]. apply negb_true_iff in Hc.
  cbn [append splitWsFrom]. rewrite Hc.
  destruct n as [|d n'].
  - cbn [append splitWsFrom]. change (is_ws LF) with true. reflexivity.
  - rewrite (IH false) by exact Hn. reflexivity.
Qed.

Lemma splitWsFrom_printed (names : list string) (inRun : bool) :
  (forall n, In n names -> listedName n = true) ->
  splitWsFrom inRun (printedLines names) = (names ++ [EmptyString])%list.
Proof.
  revert inRun. induction names as [|n names IH]; intros inRun Hall.
  - reflexivity.
  - cbn [printedLines app].
    rewrite splitWsFrom_name by (apply Hall; now left).
    f_equal. apply IH. intros m Hm. apply Hall. now right.
Qed.

Lemma uniqueSorted_snoc_empty (l : list string) :
  uniqueSorted (l ++ [EmptyString]) = uniqueSorted l.
Proof.
  unfold uniqueSorted. rewrite filter_app. cbn [filter truthy].
  now rewrite app_nil_r.
Qed.

Lemma pandocPushed_printed (names : list string) :
  (forall n, In n names -> listedName n = true) ->
  uniqueSorted (pandocPushed (printedLines names))
  = uniqueSorted (map normalizeExt names).
Proof.
  intros Hall. unfold pandocPushed, splitWs.
  rewrite (splitWsFrom_printed _ _ Hall), map_app.
  change (map normalizeExt [EmptyString]) with [EmptyString].
  apply uniqueSorted_snoc_empty.
Qed.

(** X20: when pandoc prints its input and its output formats one name
    per line, [loadPandocFormats] starts the two listings and returns
    exactly the names printed, normalized, without duplicates and in
    ascending order: a format is in a list precisely when it is the
    normalized form, not empty, of a name of that listing. *)
Theorem loadPandocFormats_reads_listing
    (bin : string) (ins outs : list string) (err1 err2 : string)
    (e : Env) (s : State) :
  (forall n, In n ins -> listedName n = true) ->
  (forall n, In n outs -> listedName n = true) ->
  execFile e bin ["--list-input-formats"] = inr (mkOut (printedLines ins) err1) ->
  execFile e bin ["--list-output-formats"] = inr (mkOut (printedLines outs) err2) ->
  exists s',
    loadPandocFormats bin e s
    = (Returned (uniqueSorted (map normalizeExt ins),
                 uniqueSorted (map normalizeExt outs)), s')
    /\ spawned s'
       = (bin, ["--list-output-formats"]) :: (bin, ["--list-input-formats"])
         :: spawned s
    /\ (forall x, In x (uniqueSorted (map normalizeExt ins))
                  <-> x <> EmptyString /\ exists n, In n ins /\ x = normalizeExt n)
    /\ (forall x, In x (uniqueSorted (map normalizeExt outs))
                  <-> x <> EmptyString /\ exists n, In n outs /\ x = normalizeExt n).
Proof.
  intros Hins Houts X1 X2.
  assert (Hmem : forall (l : list string) x,
             In x (uniqueSorted (map normalizeExt l))
             <-> x <> EmptyString /\ exists n, In n l /\ x = normalizeExt n).
  { intros l x. rewrite uniqueSorted_In, in_map_iff. split.
    - intros [(n & <- & Hn) Ht]. split; [|now exists n].
      intros E. rewrite E in Ht. discriminate Ht.
    - intros [Hne (n & Hn & ->)]. split; [now exists n|].
      destruct (normalizeExt n); [contradiction | reflexivity]. }
  eexists. split; [|split; [|split; apply Hmem]].
  - unfold loadPandocFormats, tryCatch, bind, execFileAsync, ret.
    rewrite X1. cbn [toolCache spawned uuidsDrawn]. rewrite X2.
    cbn [stdout].
    rewrite (pandocPushed_printed _ Hins), (pandocPushed_printed _ Houts).
    reflexivity.
  - reflexivity.
Qed.

Lemma loadPandocFormats_reads_listing_witness :
  exists s',
    loadPandocFormats "pandoc" Sample.docsMac initialState
    = (Returned (["commonmark"; "docx"; "html"; "markdown"],
                 ["docx"; "html"; "markdown"; "pdf"]), s').
Proof.
  destruct (loadPandocFormats_reads_listing "pandoc"
              ["commonmark"; "docx"; "html"; "markdown"]
              ["docx"; "html"; "markdown"; "pdf"]
              EmptyString EmptyString Sample.docsMac initialState)
    as (s' & E & _).
  - intros n Hn. repeat (destruct Hn as [<- | Hn]; [reflexivity|]). destruct Hn.
  - intros n Hn. repeat (destruct Hn as [<- | Hn]; [reflexivity|]). destruct Hn.
  - reflexivity.
  - reflexivity.
  - exists s'. exact E.
Defined.

(** ** Looking a tool up on the search path *)

Local Open Scope monad_scope.

Lemma find_existsb {A} (f : A -> bool) (l : list A) :
  match find f l with
  | Some x => f x = true /\ existsb f l = true
  | None => existsb f l = false
  end.
Proof.
  induction l as [|a l IH]; simpl; [reflexivity|].
  destruct (f a) eqn:E; simpl; [now split|].
  destruct (find f l); [split; apply IH | exact IH].
Qed.

Lemma findBinary_run (cmd : string) (e : Env) (s : State) :
  exists r s1,
    findBinary cmd e s = (Returned r, s1)
    /\ toolCache s1 = toolCache s
    /\ (located e cmd = true -> exists line, r = Some line /\ truthy line = true)
    /\ (located e cmd = false -> r = None).
Proof.
  unfold findBinary, located, bind, asks, tryCatch, execFileAsync, ret.
  destruct (execFile e (if isWindows e then "where" else "which") [cmd])
    as [err|out].
  - do 2 eexists. split; [reflexivity|]. split; [reflexivity|].
    split; [discriminate | reflexivity].
  - pose proof (find_existsb
                  (fun line => negb (String.length (trim line) =? 0)%nat)
                  (splitLines (stdout out))) as F.
    do 2 eexists. split; [reflexivity|]. split; [reflexivity|].
    destruct (find _ (splitLines (stdout out))) as [line|].
    + destruct F as [Hl Hex]. split; [|intros Hn; rewrite Hn in Hex; discriminate].
      intros _. exists line. split; [reflexivity|].
      destruct line; [discriminate Hl | reflexivity].
    + split; [intros Hn; rewrite Hn in F; discriminate | reflexivity].
Qed.

Lemma firstFound_run (candidates : list string) (e : Env) (s : State) :
  exists s1,
    firstFound candidates e s = (Returned (find (located e) candidates), s1)
    /\ toolCache s1 = toolCache s.
Proof.
  revert s. induction candidates as [|c cs IH]; intros s.
  - exists s. split; reflexivity.
  - destruct (findBinary_run c e s) as (r & s1 & E & Hc & Hyes & Hno).
    cbn [firstFound find]. unfold bind at 1. rewrite E.
    destruct (located e c).
    + destruct (Hyes eq_refl) as (line & -> & _).
      exists s1. split; [reflexivity | exact Hc].
    + rewrite (Hno eq_refl). destruct (IH s1) as (s2 & E2 & Hc2).
      exists s2. split; [exact E2 | congruence].
Qed.

Lemma resolvePreferred_none (v : option string) (args : list string)
    (e : Env) (s : State) :
  normalizePref v = EmptyString
  \/ (exists err, execFile e (normalizePref v) args = inl err) ->
  exists s0,
    resolvePreferred v args e s = (Returned None, s0)
    /\ toolCache s0 = toolCache s.
Proof.
  intros Hno. unfold resolvePreferred.
  destruct (truthy (normalizePref v)) eqn:T; cbn [negb].
  - destruct Hno as [E | (err & X)]; [rewrite E in T; discriminate T|].
    unfold canRun, tryCatch, bind, execFileAsync, ret. rewrite X.
    eexists. split; reflexivity.
  - exists s. split; reflexivity.
Qed.

Lemma findMagickOnWindows_elsewhere `{PathOps} (e : Env) (s : State) :
  isWindows e = false -> findMagickOnWindows e s = (Returned None, s).
Proof.
  intros Hw. unfold findMagickOnWindows, bind, asks, ret. now rewrite Hw.
Qed.

Section SearchPath.

Context `{PathOps}.

Variables (k : ConverterKind) (e : Env) (s : State).

Let p := normalizePref (preferredPath k (preferences e)).

Hypothesis not_cached : cacheEntry k (toolCache s) = None.
Hypothesis no_preference :
  p = EmptyString \/ exists err, execFile e p (probeArgs k) = inl err.

Lemma ensureTool_searched :
  match find (located e) (commandNames k (isWindows e)) with
  | Some c =>
      exists t s', ensureTool k e s = (Returned (Some t), s') /\ bin t = c
  | None =>
      (k = Magick -> isWindows e = false) ->
      exists s',
        ensureTool k e s = (Returned None, s')
        /\ cacheEntry k (toolCache s') = Some (@None ToolFormats)
  end.
Proof.
  subst p. destruct k; cbn [ensureTool preferredPath probeArgs cacheEntry] in *;
    destruct (resolvePreferred_none _ _ e s no_preference) as (s0 & R & _).
  - destruct (firstFound_run (commandNames Magick (isWindows e)) e s0)
      as (s1 & F & _).
    destruct (find (located e) (commandNames Magick (isWindows e)))
      as [c|] eqn:Found; cbn [commandNames] in F, Found.
    + assert (Hc : truthy c = true).
      { destruct (isWindows e); cbn [find] in Found;
          repeat match type of Found with
                 | (if ?b then _ else _) = _ => destruct b
                 end; try discriminate Found; now injection Found as <-. }
      destruct (loadFormats_run Magick c e s1) as (r & s2 & L & _).
      cbn [loadFormats] in L.
      unfold ensureMagick. unfold bind at 1, gets at 1. rewrite not_cached.
      unfold bind at 1, asks at 1. unfold bind at 1. rewrite R.
      cbn [someTruthy]. unfold bind at 1. unfold bind at 1, asks at 1.
      unfold bind at 1. rewrite F. unfold ret at 1.
      cbn [someTruthy]. rewrite Hc. unfold bind at 1, ret at 1. rewrite Hc.
      unfold bind at 1. rewrite L.
      do 2 eexists. split; [reflexivity | reflexivity].
    + intros Hw. specialize (Hw eq_refl).
      unfold ensureMagick. unfold bind at 1, gets at 1. rewrite not_cached.
      unfold bind at 1, asks at 1. unfold bind at 1. rewrite R.
      cbn [someTruthy]. unfold bind at 1. unfold bind at 1, asks at 1.
      unfold bind at 1. rewrite F. unfold ret at 1.
      cbn [someTruthy]. unfold bind at 1.
      rewrite (findMagickOnWindows_elsewhere e s1 Hw).
      eexists. split; reflexivity.
  - destruct (findBinary_run "ffmpeg" e s0) as (r & s1 & F & _ & Hyes & Hno).
    cbn [commandNames find].
    destruct (located e "ffmpeg").
    + destruct (Hyes eq_refl) as (line & -> & Hl).
      destruct (loadFormats_run Ffmpeg "ffmpeg" e s1) as (r & s2 & L & _).
      cbn [loadFormats] in L.
      unfold ensureFfmpeg. unfold bind at 1, gets at 1. rewrite not_cached.
      unfold bind at 1, asks at 1. unfold bind at 1. rewrite R.
      unfold bind at 1. unfold bind at 1. rewrite F. unfold ret at 1.
      cbn [someTruthy]. rewrite Hl. cbn [someTruthy truthy].
      unfold bind at 1. rewrite L.
      do 2 eexists. split; [reflexivity | reflexivity].
    + rewrite (Hno eq_refl) in F. intros _.
      unfold ensureFfmpeg. unfold bind at 1, gets at 1. rewrite not_cached.
      unfold bind at 1, asks at 1. unfold bind at 1. rewrite R.
      unfold bind at 1. unfold bind at 1. rewrite F. unfold ret at 1.
      cbn [someTruthy].
      eexists. split; reflexivity.
  - destruct (findBinary_run "pandoc" e s0) as (r & s1 & F & _ & Hyes & Hno).
    cbn [commandNames find].
    destruct (located e "pandoc").
    + destruct (Hyes eq_refl) as (line & -> & Hl).
      destruct (loadFormats_run Pandoc "pandoc" e s1) as (r & s2 & L & _).
      cbn [loadFormats] in L.
      unfold ensurePandoc. unfold bind at 1, gets at 1. rewrite not_cached.
      unfold bind at 1, asks at 1. unfold bind at 1. rewrite R.
      unfold bind at 1. unfold bind at 1. rewrite F. unfold ret at 1.
      cbn [someTruthy]. rewrite Hl. cbn [someTruthy truthy].
      unfold bind at 1. rewrite L.
      do 2 eexists. split; [reflexivity | reflexivity].
    + rewrite (Hno eq_refl) in F. intros _.
      unfold ensurePandoc. unfold bind at 1, gets at 1. rewrite not_cached.
      unfold bind at 1, asks at 1. unfold bind at 1. rewrite R.
      unfold bind at 1. unfold bind at 1. rewrite F. unfold ret at 1.
      cbn [someTruthy].
      eexists. split; reflexivity.
  - destruct (firstFound_run (commandNames Libreoffice (isWindows e)) e s0)
      as (s1 & F & _).
    destruct (find (located e) (commandNames Libreoffice (isWindows e)))
      as [c|] eqn:Found; cbn [commandNames] in F, Found.
    + assert (Hc : truthy c = true).
      { destruct (isWindows e); cbn [find] in Found;
          repeat match type of Found with
                 | (if ?b then _ else _) = _ => destruct b
                 end; try discriminate Found; now injection Found as <-. }
      unfold ensureLibreOffice. unfold bind at 1, gets at 1. rewrite not_cached.
      unfold bind at 1, asks at 1. unfold bind at 1. rewrite R.
      cbn [someTruthy]. unfold bind at 1, asks at 1. unfold bind at 1.
      rewrite F. cbn [someTruthy]. rewrite Hc.
      do 2 eexists. split; [reflexivity | reflexivity].
    + intros _.
      unfold ensureLibreOffice. unfold bind at 1, gets at 1. rewrite not_cached.
      unfold bind at 1, asks at 1. unfold bind at 1. rewrite R.
      cbn [someTruthy]. unfold bind at 1, asks at 1. unfold bind at 1.
      rewrite F. cbn [someTruthy].
      eexists. split; reflexivity.
Qed.

End SearchPath.

(** X21: without a working preference (none set, a blank one, or one
    whose probe fails) a tool is looked for on the search path under its
    command names, in their order; the first name the locator answers
    for with a line that is not blank becomes the descriptor's command,
    as the bare name and not as the path the locator printed.  When the
    locator answers for none of the names the tool is absent, and cached
    as absent (for the image tool: off Windows, where no further search
    follows). *)
Theorem search_path_fallback `{PathOps}
    (k : ConverterKind) (e : Env) (s : State) :
  let p := normalizePref (preferredPath k (preferences e)) in
  let names := commandNames k (isWindows e) in
  cacheEntry k (toolCache s) = None ->
  (p = EmptyString \/ exists err, execFile e p (probeArgs k) = inl err) ->
  (forall c, find (located e) names = Some c ->
             In c names
             /\ exists t s', ensureTool k e s = (Returned (Some t), s')
                             /\ bin t = c)
  /\ (find (located e) names = None ->
      (k = Magick -> isWindows e = false) ->
      exists s',
        ensureTool k e s = (Returned None, s')
        /\ cacheEntry k (toolCache s') = Some None).
Proof.
  intros p names Hnone Hpref.
  pose proof (ensureTool_searched k e s Hnone Hpref) as S.
  fold names in S. split.
  - intros c Hc. rewrite Hc in S. split; [|exact S].
    now apply find_some in Hc.
  - intros Hn. now rewrite Hn in S.
Qed.

Lemma search_path_fallback_witness :
  exists t s',
    ensureTool Pandoc Sample.docsMac initialState = (Returned (Some t), s')
    /\ bin t = "pandoc".
Proof.
  destruct (search_path_fallback Pandoc Sample.docsMac initialState
              eq_refl (or_introl eq_refl)) as [Hfound _].
  destruct (Hfound "pandoc" eq_refl) as (_ & t & s' & E & Hb).
  now exists t, s'.
Defined.

(** ** The search of the program folders *)

Section ProgramFolders.

Context `{PathOps}.

(** An installation found under [root]: a directory of [root] whose
    name, lower-cased, starts with [imagemagick-], with an accessible
    [magick.exe] in it. *)
Let installation (e : Env) (root p : string) : Prop :=
  fsAccess e p = true
  /\ exists entries entry,
       fsReaddir e root = Some entries
       /\ In entry entries
       /\ isDirectory entry = true
       /\ startsWith "imagemagick-" (toLowerCase (name entry)) = true
       /\ p = path_join [root; name entry; "magick.exe"].

Lemma scanEntries_run (root : string) (entries : list Dirent) (e : Env) (s : State) :
  exists r,
    scanEntries root entries e s = (Returned r, s)
    /\ forall p, r = Some p ->
         fsAccess e p = true
         /\ exists entry,
              In entry entries
              /\ isDirectory entry = true
              /\ startsWith "imagemagick-" (toLowerCase (name entry)) = true
              /\ p = path_join [root; name entry; "magick.exe"].
Proof.
  induction entries as [|entry rest IH].
  - exists None. split; [reflexivity | discriminate].
  - destruct IH as (r & E & Hr).
    assert (Hrest : exists r0,
               scanEntries root rest e s = (Returned r0, s)
               /\ forall p, r0 = Some p ->
                    fsAccess e p = true
                    /\ exists entry0,
                         In entry0 (entry :: rest)
                         /\ isDirectory entry0 = true
                         /\ startsWith "imagemagick-" (toLowerCase (name entry0)) = true
                         /\ p = path_join [root; name entry0; "magick.exe"]).
    { exists r. split; [exact E|]. intros p Hp.
      destruct (Hr p Hp) as (Ha & entry0 & Hin & Hrest).
      split; [exact Ha|]. exists entry0. split; [now right | exact Hrest]. }
    cbn [scanEntries].
    destruct (isDirectory entry) eqn:D; cbn [negb]; [|exact Hrest].
    destruct (startsWith "imagemagick-" (toLowerCase (name entry))) eqn:N;
      cbn [negb]; [|exact Hrest].
    unfold bind at 1, tryCatch, bind, access, ret.
    destruct (fsAccess e (path_join [root; name entry; "magick.exe"])) eqn:A.
    + eexists. split; [reflexivity|]. intros p [= <-].
      split; [exact A|]. exists entry. repeat split; auto. now left.
    + exact Hrest.
Qed.

Lemma scanRoots_run (roots : list string) (e : Env) (s : State) :
  exists r,
    scanRoots roots e s = (Returned r, s)
    /\ forall p, r = Some p -> exists root, In root roots /\ installation e root p.
Proof.
  induction roots as [|root rest IH].
  - exists None. split; [reflexivity | discriminate].
  - destruct IH as (r & E & Hr).
    assert (Hrest : exists r0,
               scanRoots rest e s = (Returned r0, s)
               /\ forall p, r0 = Some p ->
                    exists root0, In root0 (root :: rest) /\ installation e root0 p).
    { exists r. split; [exact E|]. intros p Hp.
      destruct (Hr p Hp) as (root0 & Hin & Hi).
      exists root0. split; [now right | exact Hi]. }
    cbn [scanRoots]. unfold bind at 1, tryCatch, bind at 1, readdir.
    destruct (fsReaddir e root) as [entries|] eqn:R.
    + destruct (scanEntries_run root entries e s) as (r0 & E0 & H0).
      rewrite E0. destruct r0 as [p|]; [|exact Hrest].
      eexists. split; [reflexivity|]. intros p' [= <-].
      destruct (H0 p eq_refl) as (Ha & entry & Hin & Hd & Hn & Hp).
      exists root. split; [now left|]. split; [exact Ha|].
      exists entries, entry. repeat split; auto.
    + exact Hrest.
Qed.

Lemma findMagickOnWindows_run (e : Env) (s : State) :
  exists r,
    findMagickOnWindows e s = (Returned r, s)
    /\ (isWindows e = false -> r = None)
    /\ forall p, r = Some p ->
         isWindows e = true
         /\ exists root,
              (envProgramFiles e = Some root \/ envProgramFilesX86 e = Some root)
              /\ installation e root p.
Proof.
  unfold findMagickOnWindows, bind, asks.
  destruct (isWindows e) eqn:W; cbn [negb].
  - match goal with
    | |- context [scanRoots ?roots e s] =>
        destruct (scanRoots_run roots e s) as (r & E & Hr)
    end.
    exists r. split; [exact E|]. split; [discriminate|].
    intros p Hp. split; [reflexivity|].
    destruct (Hr p Hp) as (root & Hin & Hi). exists root. split; [|exact Hi].
    cbn [flat_map] in Hin. rewrite app_nil_r in Hin.
    apply in_app_iff in Hin as [Hin | Hin].
    + left. destruct (envProgramFiles e) as [r1|]; [|destruct Hin].
      destruct (truthy r1); [|destruct Hin]. destruct Hin as [<- | []]. reflexivity.
    + right. destruct (envProgramFilesX86 e) as [r1|]; [|destruct Hin].
      destruct (truthy r1); [|destruct Hin]. destruct Hin as [<- | []]. reflexivity.
  - exists None. split; [reflexivity|]. split; [reflexivity | discriminate].
Qed.

End ProgramFolders.

(** X22: [findMagickOnWindows] never throws, starts no process and
    changes nothing.  Off Windows it finds nothing.  A path it returns is
    [magick.exe] inside a directory of one of the two program folders of
    the environment whose name, lower-cased, starts with [imagemagick-],
    and it has passed [access]. *)
Theorem findMagickOnWindows_checked `{PathOps} (e : Env) (s : State) :
  exists r,
    findMagickOnWindows e s = (Returned r, s)
    /\ (isWindows e = false -> r = None)
    /\ forall p, r = Some p ->
         isWindows e = true
         /\ fsAccess e p = true
         /\ exists root entries entry,
              (envProgramFiles e = Some root \/ envProgramFilesX86 e = Some root)
              /\ fsReaddir e root = Some entries
              /\ In entry entries
              /\ isDirectory entry = true
              /\ startsWith "imagemagick-" (toLowerCase (name entry)) = true
              /\ p = path_join [root; name entry; "magick.exe"].
Proof.
  destruct (findMagickOnWindows_run e s) as (r & E & Hoff & Hon).
  exists r. split; [exact E|]. split; [exact Hoff|].
  intros p Hp. destruct (Hon p Hp) as (Hw & root & Hroot & Ha & entries & entry & Hi).
  split; [exact Hw|]. split; [exact Ha|]. now exists root, entries, entry.
Qed.

(** ** Reading the rows of a listing *)

Section Rows.

Lemma trimStart_blank (lead rest : string) :
  blank lead = true -> trimStart (lead ++ rest) = trimStart rest.
Proof.
  induction lead as [|c lead IH]; [reflexivity|].
  cbn [blank]. intros Hb. apply andb_true_iff in Hb as [Hc Hb].
  cbn [append trimStart]. rewrite Hc. now apply IH.
Qed.

Lemma trimStart_gap (g rest : string) :
  gap g = true -> trailer rest = false ->
  startsWithWs (g ++ rest) = true /\ trimStart (g ++ rest) = rest.
Proof.
  unfold gap. intros Hg Hr. apply andb_true_iff in Hg as [Ht Hb]. split.
  - destruct g as [|c g]; [discriminate Ht|].
    cbn [blank] in Hb. apply andb_true_iff in Hb as [Hc _]. exact Hc.
  - rewrite (trimStart_blank _ _ Hb).
    destruct rest as [|c r]; [discriminate Hr|].
    cbn [trailer] in Hr. cbn [trimStart]. now rewrite Hr.
Qed.

Lemma spanNonWs_word (w rest : string) :
  noWhiteSpace w = true -> trailer rest = true ->
  spanNonWs (w ++ rest) = (w, rest).
Proof.
  intros Hw Hr. induction w as [|c w IH].
  - destruct rest as [|d r]; [reflexivity|].
    cbn [trailer] in Hr. cbn [append spanNonWs]. now rewrite Hr.
  - cbn [noWhiteSpace] in Hw. apply andb_true_iff in Hw as [Hc Hw].
    apply negb_true_iff in Hc.
    cbn [append spanNonWs]. rewrite Hc, (IH Hw). reflexivity.
Qed.




End Rows.



Section MagickRows.

Lemma trimStart_word (x : string) : trailer x = false -> trimStart x = x.
Proof. destruct x as [|c r]; [discriminate|]. cbn [trailer trimStart]. now intros ->. Qed.

Lemma listedName_head (w rest : string) :
  listedName w = true -> trailer (w ++ rest) = false.
Proof.
  unfold listedName. destruct w as [|c w]; [discriminate|].
  cbn [truthy noWhiteSpace andb append trailer]. intros Hc.
  apply andb_true_iff in Hc as [Hc _]. now apply negb_true_iff in Hc.
Qed.

Lemma gap_head (g rest : string) : gap g = true -> trailer (g ++ rest) = true.
Proof.
  unfold gap. destruct g as [|c g]; [discriminate|].
  cbn [truthy blank andb append trailer]. intros Hc.
  now apply andb_true_iff in Hc as [Hc _].
Qed.

Lemma gap_truthy (g rest : string) : gap g = true -> truthy (g ++ rest) = true.
Proof.
  unfold gap. destruct g as [|c g]; [discriminate | reflexivity].
Qed.

Lemma gap_startsWithWs (g rest : string) :
  gap g = true -> startsWithWs (g ++ rest) = true.
Proof.
  unfold gap. destruct g as [|c g]; [discriminate|].
  cbn [truthy blank andb append startsWithWs]. intros Hc.
  now apply andb_true_iff in Hc as [Hc _].
Qed.

Lemma cleanEnd_app (a b : string) :
  truthy b = true -> cleanEnd (a ++ b) = cleanEnd b.
Proof. intros Hb. unfold cleanEnd. now rewrite last_app. Qed.

(** A prefix that has neither white space nor a star in it is found in
    front of a word followed by white space or a star only when it is
    found in front of the word. *)
Lemma startsWith_word (p w rest : string) :
  startsWith p w = false ->
  match rest with
  | EmptyString => True
  | String c _ => includesChar c p = false
  end ->
  startsWith p (w ++ rest) = false.
Proof.
  revert w. induction p as [|a p IH]; intros w Hp Hrest.
  - discriminate Hp.
  - destruct w as [|b w].
    + cbn [append]. destruct rest as [|c r]; [reflexivity|].
      unfold startsWith; fold startsWith.
      cbn [includesChar] in Hrest. apply orb_false_iff in Hrest as [Hc _].
      now rewrite Ascii.eqb_sym, Hc.
    + unfold startsWith in Hp |- *; fold startsWith in Hp |- *.
      cbn [append]. destruct (Ascii.eqb a b); [|reflexivity].
      cbn [andb] in Hp |- *. apply IH; [exact Hp|].
      destruct rest as [|c r]; [exact I|].
      cbn [includesChar] in Hrest. now apply orb_false_iff in Hrest as [_ Hr].
Qed.

Lemma startsWith_longer (p w rest : string) :
  startsWith p w = true -> startsWith p (w ++ rest) = true.
Proof.
  revert w. induction p as [|a p IH]; intros w; [reflexivity|].
  destruct w as [|b w]; [discriminate|].
  unfold startsWith; fold startsWith. cbn [append].
  destruct (Ascii.eqb a b); [|discriminate]. cbn [andb]. apply IH.
Qed.

Lemma startsWith_before_gap (prefix w rest : string) :
  truthy rest = true -> trailer rest = true ->
  startsWith prefix (w ++ rest) = true ->
  startsWith prefix w = true
  \/ exists c, is_ws c = true /\ includesChar c prefix = true.
Proof.
  intros Ht Hh Hs. destruct rest as [|c r]; [discriminate Ht|].
  cbn [trailer] in Hh.
  destruct (startsWith prefix w) eqn:E; [now left|].
  right. exists c. split; [exact Hh|].
  destruct (includesChar c prefix) eqn:I; [reflexivity|].
  rewrite (startsWith_word prefix w (String c r) E I) in Hs. discriminate Hs.
Qed.

Lemma white_space_not_in_marker (c : ascii) :
  is_ws c = true ->
  includesChar c "Format" = false /\ includesChar c "--" = false.
Proof.
  destruct c as [[] [] [] [] [] [] [] []]; intros Hc;
    first [split; reflexivity | vm_compute in Hc; discriminate Hc].
Qed.

Lemma mode_marks (r w p : ascii) :
  isModeR r = true -> isModeW w = true -> isModeP p = true ->
  is_ws r = false
  /\ includesChar "r" (toLowerCase (String r (String w (String p EmptyString))))
     = Ascii.eqb (lower r) "r"
  /\ includesChar "w" (toLowerCase (String r (String w (String p EmptyString))))
     = Ascii.eqb (lower w) "w".
Proof.
  unfold isModeR, isModeW, isModeP. intros Hr Hw Hp.
  repeat (apply orb_true_iff in Hr as [Hr | Hr]);
    repeat (apply orb_true_iff in Hw as [Hw | Hw]);
    repeat (apply orb_true_iff in Hp as [Hp | Hp]);
    apply Ascii.eqb_eq in Hr, Hw, Hp; subst; repeat split.
Qed.

End MagickRows.

(** X24: a row of [magick -list format] with its four columns (the
    format, the module, the mode, the description) contributes the
    format, without its trailing star and normalized, to the input
    formats when the mode's first mark is [r] or [R] and to the output
    formats when its second is [w] or [W]; the module and the
    description are not read.  A row whose first column starts with
    [Format] or with two dashes is skipped, so such a format name can
    never be listed. *)
Theorem magickLine_reads_row
    (lead format gap1 module gap2 : string) (r w p : ascii)
    (gap3 description : string) :
  blank lead = true ->
  listedName format = true ->
  gap gap1 = true ->
  listedName module = true ->
  gap gap2 = true ->
  isModeR r = true -> isModeW w = true -> isModeP p = true ->
  gap gap3 = true ->
  truthy description = true ->
  trailer description = false ->
  cleanEnd description = true ->
  let row := magickRow lead format gap1 module gap2 r w p gap3 description in
  let name := normalizeExt (stripTrailingStar format) in
  (startsWith "Format" format = false -> startsWith "--" format = false ->
   magickLine row
   = ((if Ascii.eqb (lower r) "r" then [name] else []),
      (if Ascii.eqb (lower w) "w" then [name] else [])))
  /\ (startsWith "Format" format = true \/ startsWith "--" format = true ->
      magickLine row = ([], [])).
Proof.
  intros Hlead Hf Hg1 Hm Hg2 Hr Hw Hp Hg3 Hdt Hdh Hde row name.
  destruct (mode_marks r w p Hr Hw Hp) as (Hrws & Hir & Hiw).
  set (mode := String r (String w (String p EmptyString))).
  set (tail3 := gap3 ++ description).
  set (tail2 := gap2 ++ String r (String w (String p tail3))).
  set (tail1 := gap1 ++ module ++ tail2).
  assert (Ht3 : truthy tail3 = true) by (apply truthy_app_r; exact Hdt).
  assert (Htrim : trim row = format ++ tail1).
  { unfold trim. subst row. unfold magickRow. fold tail3. fold tail2. fold tail1.
    rewrite (trimStart_blank _ _ Hlead).
    rewrite (trimStart_word _ (listedName_head _ _ Hf)).
    apply trimEnd_clean.
    rewrite cleanEnd_app by (subst tail1; now apply gap_truthy).
    subst tail1.
    rewrite cleanEnd_app
      by (apply truthy_app_r; subst tail2; now apply gap_truthy).
    rewrite cleanEnd_app by (subst tail2; now apply gap_truthy).
    subst tail2. rewrite cleanEnd_app by reflexivity.
    change (String r (String w (String p tail3))) with (mode ++ tail3).
    rewrite cleanEnd_app by exact Ht3.
    subst tail3. rewrite cleanEnd_app by exact Hdt. exact Hde. }
  assert (Ht1 : truthy tail1 = true) by (subst tail1; now apply gap_truthy).
  assert (Hh1 : trailer tail1 = true) by (subst tail1; now apply gap_head).
  assert (Hskip : forall prefix,
             prefix = "Format" \/ prefix = "--" ->
             startsWith prefix format = false ->
             startsWith prefix (format ++ tail1) = false).
  { intros prefix Hprefix E.
    destruct (startsWith prefix (format ++ tail1)) eqn:Hs; [|reflexivity].
    destruct (startsWith_before_gap _ _ _ Ht1 Hh1 Hs) as [E' | (c & Hc & Hin)];
      [congruence|].
    destruct (white_space_not_in_marker c Hc) as [H1 H2].
    destruct Hprefix as [-> | ->]; congruence. }
  assert (Hfields : magickFields (format ++ tail1) = (format, mode)).
  { unfold magickFields, magickPattern.
    assert (Hfw : noWhiteSpace format = true /\ truthy format = true).
    { unfold listedName in Hf. apply andb_true_iff in Hf as [? ?]. now split. }
    assert (Hmw : noWhiteSpace module = true /\ truthy module = true).
    { unfold listedName in Hm. apply andb_true_iff in Hm as [? ?]. now split. }
    destruct Hfw as [Hfw Hft]. destruct Hmw as [Hmw Hmt].
    rewrite (spanNonWs_word format tail1 Hfw (gap_head _ _ Hg1)), Hft.
    destruct (trimStart_gap gap1 (module ++ tail2) Hg1 (listedName_head _ _ Hm))
      as [Hs1 Hx1].
    fold tail1 in Hs1, Hx1. rewrite Hs1, Hx1. cbn [negb orb].
    rewrite (spanNonWs_word module tail2 Hmw (gap_head _ _ Hg2)), Hmt.
    destruct (trimStart_gap gap2 (String r (String w (String p tail3))) Hg2 Hrws)
      as [Hs2 Hx2].
    fold tail2 in Hs2, Hx2. rewrite Hs2, Hx2. cbn [negb orb].
    rewrite Hr, Hw, Hp.
    subst tail3. rewrite (gap_startsWithWs gap3 description Hg3).
    reflexivity. }
  split.
  - intros Hn1 Hn2. unfold magickLine. rewrite Htrim.
    replace (truthy (format ++ tail1)) with true
      by (unfold listedName in Hf; destruct format; [discriminate Hf | reflexivity]).
    rewrite (Hskip "Format" (or_introl eq_refl) Hn1).
    rewrite (Hskip "--" (or_intror eq_refl) Hn2).
    cbn [negb orb]. rewrite Hfields.
    replace (truthy format) with true
      by (unfold listedName in Hf; destruct format; [discriminate Hf | reflexivity]).
    fold mode in Hir, Hiw. rewrite Hir, Hiw. reflexivity.
  - intros Hyes. unfold magickLine. rewrite Htrim.
    destruct Hyes as [Hy | Hy]; rewrite (startsWith_longer _ _ tail1 Hy);
      destruct (negb (truthy (format ++ tail1))); cbn [orb];
      rewrite ?orb_true_r; reflexivity.
Qed.

Lemma magickLine_reads_row_witness :
  magickLine "     PNG* PNG       rw-   Portable Network Graphics"
  = (["png"], ["png"]).
Proof.
  pose proof (magickLine_reads_row "     " "PNG*" " " "PNG" "       "
                "r" "w" "-" "   " "Portable Network Graphics"
                eq_refl eq_refl eq_refl eq_refl eq_refl eq_refl eq_refl
                eq_refl eq_refl eq_refl eq_refl eq_refl) as [Hrow _].
  exact (Hrow eq_refl eq_refl).
Defined.

(** ** Saved output paths *)

Section SavedPath.

Import Posix.




End SavedPath.

(** ** Output path builder: the saved file *)



